(** * Kindling collector: network analyzer and Prometheus endpoint

    A shallow embedding of
    - [collector/pkg/component/analyzer/network/network_analyzer.go],
    - [collector/pkg/component/analyzer/network/protocol/dns/dns_parser.go],
    - [collector/pkg/component/analyzer/network/protocol/dns/dns_response.go],
    - the [otelexporter] function [StartServer],
    together with the properties the specification states about them.

    Conventions.  Go pointers to [messagePairs] are locations of a heap
    ([gmap ptr messagePairs]); [sync.Map] is a [gmap]; a Go slice that can be
    [nil] is an [option (list _)]; a function that can panic returns [option]
    ([None] is the panic) or a dedicated outcome type; Go integers are [Z]
    with the wrap-around written where the source converts. *)

From Stdlib Require Import ZArith Ascii String List Lia Bool.
From stdpp Require Import base option list gmap strings fin_maps.

Local Open Scope string_scope.
Local Open Scope list_scope.
Local Open Scope stdpp_scope.
Local Open Scope Z_scope.

(* ===================================================================== *)
(** ** Go library functions used by the sources *)
(* ===================================================================== *)

Module GoLib.

(** [os.Getenv]: the value of the variable, the empty string when unset. *)
Definition Getenv (env : gmap string string) (name : string) : string :=
  default "" (env !! name).

Definition int64_min : Z := - 2 ^ 63.
Definition int64_max : Z := 2 ^ 63 - 1.

Definition in_int64 (z : Z) : bool := (int64_min <=? z) && (z <=? int64_max).

(** Conversion to [int64] (two's complement wrap-around). *)
Definition to_int64 (z : Z) : Z := (z + 2 ^ 63) mod 2 ^ 64 - 2 ^ 63.

(** Conversion to [uint32]. *)
Definition to_uint32 (z : Z) : Z := z mod 2 ^ 32.

Definition digit_of (c : ascii) : option Z :=
  let n := Z.of_nat (nat_of_ascii c) in
  if (48 <=? n) && (n <=? 57) then Some (n - 48) else None.

(** The digit loop of [strconv.Atoi]/[strconv.ParseUint] in base 10. *)
Fixpoint parse_digits (s : string) (acc : Z) : option Z :=
  match s with
  | EmptyString => Some acc
  | String c rest =>
      match digit_of c with
      | Some d => parse_digits rest (acc * 10 + d)
      | None => None
      end
  end.

Definition is_sign (c : ascii) : bool :=
  (Ascii.eqb c "-" || Ascii.eqb c "+")%char.

(** [strconv.Atoi] on a 64-bit platform: an optional sign, then at least
    one decimal digit and nothing else; a value outside [int] is a range
    error.  [None] stands for a non-nil [err]. *)
Definition Atoi (s : string) : option Z :=
  match s with
  | EmptyString => None
  | String c rest =>
      let body := if is_sign c then rest else s in
      match body with
      | EmptyString => None
      | _ =>
          match parse_digits body 0 with
          | Some n =>
              let v := if Ascii.eqb c "-"%char then - n else n in
              if in_int64 v then Some v else None
          | None => None
          end
      end
  end.

End GoLib.

(* ===================================================================== *)
(** ** [getSnaplenEnv] (network_analyzer.go) *)
(* ===================================================================== *)

Definition getSnaplenEnv (env : gmap string string) : Z :=
let snaplen := GoLib.Getenv env "SNAPLEN" in
match GoLib.Atoi snaplen with
| None => 1000          (* Set 1000 bytes by default. *)
| Some snaplenInt => snaplenInt
end.

(* ===================================================================== *)
(** ** [StartServer] (otelexporter) *)
(* ===================================================================== *)

Module Otel.

(** Errors of [srv.ListenAndServe]. *)
Inductive error :=
| ErrServerClosed
| ErrOther (msg : string).

(** What a call of [StartServer] ends in: a panic raised through
    [telemetry.Logger.Panic], or a return after listening on [addr]. *)
Inductive outcome :=
| Panicked (msg : string)
| Returned (addr : string) (err : option error).

(** [for k, v := range ports { if k == mod { port = v; break } }] over one
    enumeration [kvs] of the map. *)
Fixpoint findPort (kvs : list (string * string)) (modnum : string)
    (port : string) : string :=
  match kvs with
  | [] => port
  | (k, v) :: rest =>
      if String.eqb k modnum then v else findPort rest modnum port
  end.

Definition is_empty (s : string) : bool :=
  match s with EmptyString => true | _ => false end.

(** [ListenAndServe] is the server run: given the address it returns the
    error the server stopped with. *)
Definition StartServer (ListenAndServe : string → option error)
    (env : gmap string string) (ports : gmap string string) : outcome :=
  let kindling_mod_number := GoLib.Getenv env "kindling_mod_number" in
  if is_empty kindling_mod_number then
    Panicked "kindling_mod_number environment variable is not set"
  else
    let port := findPort (map_to_list ports) kindling_mod_number "" in
    if is_empty port then
      Panicked "Can't find prometheus metric prot"
    else
      let err := ListenAndServe port in
      match err with
      | Some ErrServerClosed => Returned port None
      | Some e => Returned port (Some e)
      | None => Returned port None
      end.

End Otel.

(* ===================================================================== *)
(** ** Data model of the network analyzer *)
(* ===================================================================== *)

(** [model.KindlingEvent], with the accessors the analyzer reads. *)
Record KindlingEvent := mkEvent {
  evt_name : string;
  evt_pid : Z;
  evt_tid : Z;
  evt_fd : Z;
  evt_comm : string;
  evt_containerId : string;
  evt_sip : string;
  evt_dip : string;
  evt_sport : Z;
  evt_dport : Z;
  evt_role : bool;
  evt_isUdp : bool;
  evt_timestamp : Z;
  evt_startTime : Z;
  evt_data : list Byte.byte
}.

(** Typed attribute values of [model.AttributeMap]. *)
Inductive AttrValue :=
| IntV (z : Z)
| StrV (s : string)
| BoolV (b : bool).

Abbreviation AttributeMap := (gmap string AttrValue).
Abbreviation ptr := nat (only parsing).
Abbreviation messagePairKey := (Z * Z)%type (only parsing).
Abbreviation bytes := (list Byte.byte) (only parsing).

(** Modelled from the spec: the operations of [model.AttributeMap] (package
    [model] is not among the sources).  A typed map from label to value;
    adding or updating a label binds it, [Merge] lets the merged-in
    attributes override, a getter of the wrong type or of a missing label
    gives the zero value. *)
Module Attr.

Definition UpdateAddIntValue (k : string) (v : Z) (m : AttributeMap) : AttributeMap :=
  <[k := IntV v]> m.
Definition UpdateAddStringValue (k : string) (v : string) (m : AttributeMap) : AttributeMap :=
  <[k := StrV v]> m.
Definition UpdateAddBoolValue (k : string) (v : bool) (m : AttributeMap) : AttributeMap :=
  <[k := BoolV v]> m.
Definition AddIntValue := UpdateAddIntValue.
Definition AddStringValue := UpdateAddStringValue.
Definition AddBoolValue := UpdateAddBoolValue.

Definition GetBoolValue (k : string) (m : AttributeMap) : bool :=
  match m !! k with Some (BoolV b) => b | _ => false end.
Definition GetIntValue (k : string) (m : AttributeMap) : Z :=
  match m !! k with Some (IntV z) => z | _ => 0 end.
Definition GetStringValue (k : string) (m : AttributeMap) : string :=
  match m !! k with Some (StrV s) => s | _ => "" end.
Definition HasAttribute (k : string) (m : AttributeMap) : bool :=
  bool_decide (is_Some (m !! k)).

(** [labels.Merge(attributes)]; [attributes] may be [nil]. *)
Definition Merge (attributes : option AttributeMap) (labels : AttributeMap) : AttributeMap :=
  match attributes with
  | None => labels
  | Some a => a ∪ labels
  end.

End Attr.

(** Label and metric names ([constlabels], [constvalues]).  The packages are
    not among the sources; the names only need to be pairwise distinct. *)
Module constlabels.
Definition Pid := "pid".
Definition RequestTid := "request_tid".
Definition ResponseTid := "response_tid".
Definition Comm := "comm".
Definition SrcIp := "src_ip".
Definition DstIp := "dst_ip".
Definition SrcPort := "src_port".
Definition DstPort := "dst_port".
Definition DnatIp := "dnat_ip".
Definition DnatPort := "dnat_port".
Definition ContainerId := "container_id".
Definition IsError := "is_error".
Definition ErrorType := "error_type".
Definition IsSlow := "is_slow".
Definition IsServer := "is_server".
Definition Protocol := "protocol".
Definition EndTimestamp := "end_timestamp".
Definition RequestPayload := "request_payload".
Definition ResponsePayload := "response_payload".
Definition HttpContinue := "http_continue".
Definition Oneway := "oneway".
Definition DnsId := "dns_id".
Definition DnsDomain := "dns_domain".
Definition DnsIp := "dns_ip".
Definition DnsRcode := "dns_rcode".
Definition STR_EMPTY := "".
(** The error types, in the order the spec lists them. *)
Definition NoError : Z := 0.
Definition ConnectFail : Z := 1.
Definition NoResponse : Z := 2.
Definition ProtocolError : Z := 3.
End constlabels.

Module constvalues.
Definition ConnectTime := "connect_time".
Definition RequestSentTime := "request_sent_time".
Definition WaitingTtfbTime := "waiting_ttfb_time".
Definition ContentDownloadTime := "content_download_time".
Definition RequestTotalTime := "request_total_time".
Definition RequestIo := "request_io".
Definition ResponseIo := "response_io".
End constvalues.

(** Protocol names of package [protocol]. *)
Module protocol.
Definition DNS := "dns".
Definition NOSUPPORT := "NOSUPPORT".
End protocol.

(** [model.DataGroup]: an output record. *)
Record DataGroup := mkDataGroup {
  Labels : AttributeMap;
  Metrics : gmap string Z;
  Timestamp : Z
}.

(** [conntracker.IPTranslation], the fields the records read. *)
Record NatTuple := mkNat {
  ReplSrcIP : string;
  ReplSrcPort : Z
}.

(** Modelled from the spec: the Events container (section 4.9; the file that
    declares [events], [messagePair] and [messagePairs] is not among the
    sources).  An ordered capture of the events of one direction: [event] is
    the first one, [mergedEvents] the later ones in arrival order. *)
Record events := mkEvents {
  event : KindlingEvent;
  mergedEvents : list KindlingEvent
}.

(** A single request with its optional response ([messagePair]). *)
Record messagePair := mkPair {
  request : KindlingEvent;
  response : option KindlingEvent;
  mp_natTuple : option NatTuple
}.

(** The FlowState ([messagePairs]); [sent_once] is the single-shot flag. *)
Record messagePairs := mkPairs {
  connects : option events;
  requests : option events;
  responses : option events;
  natTuple : option NatTuple;
  sent_once : bool;
  maxPayloadLength : Z
}.

Module Events.

Definition all (evts : events) : list KindlingEvent :=
  event evts :: mergedEvents evts.

Definition newEvents (evt : KindlingEvent) (maxPayloadLength : Z) : events :=
  {| event := evt; mergedEvents := [] |}.

(** Append an event; the data bytes beyond the cap are dropped when the
    payload is read ([getData]). *)
Definition mergeEvent (evts : events) (evt : KindlingEvent) : events :=
  {| event := event evts; mergedEvents := mergedEvents evts ++ [evt] |}.

Definition size (evts : events) : nat := length (all evts).

(** [getEvent(i)]: [None] is Go's index-out-of-range panic. *)
Definition getEvent (evts : events) (i : nat) : option KindlingEvent :=
  all evts !! i.

(** The captured payload of the direction, at most [maxPayloadLength] bytes. *)
Definition getData (evts : events) (maxPayloadLength : Z) : bytes :=
  take (Z.to_nat maxPayloadLength) (concat (evt_data <$> all evts)).

Definition getFirstTimestamp (evts : events) : Z := evt_timestamp (event evts).

Definition getLastTimestamp (evts : events) : Z :=
  evt_timestamp (List.last (mergedEvents evts) (event evts)).

Definition getDuration (evts : events) : Z :=
  getLastTimestamp evts - getFirstTimestamp evts.

Definition getSize (evts : events) : Z :=
  foldr (λ e acc, Z.of_nat (length (evt_data e)) + acc) 0 (all evts).

(** The fd-reuse heuristic: the recorded source port differs from the new
    event's. *)
Definition IsSportChanged (evts : events) (newEvt : KindlingEvent) : bool :=
  negb (evt_sport newEvt =? evt_sport (event evts)).

(** The new connect is later than the connect timeout (seconds) after the
    recorded connects. *)
Definition IsTimeout (evts : events) (newEvt : KindlingEvent) (timeout : Z) : bool :=
  timeout * 1000000000 <=? evt_startTime newEvt - getLastTimestamp evts.

(** Put the events of an earlier request buffer back in front. *)
Definition putEventsBack (evts : events) (origin : events) : events :=
  {| event := event origin;
     mergedEvents := mergedEvents origin ++ all evts |}.

End Events.

(** [getMessagePairKey]: the FlowKey [(pid, fd)] of an event. *)
Definition getMessagePairKey (evt : KindlingEvent) : messagePairKey :=
  (evt_pid evt, evt_fd evt).

(** Modelled from the spec: the methods of [messagePairs] (sections 3, 4.2 to
    4.7); their file is not among the sources. *)
Module Pairs.

(** The event that identifies the state: the first connect, else the first
    request; [None] for a state with neither. *)
Definition keyEvent (mps : messagePairs) : option KindlingEvent :=
  match connects mps, requests mps with
  | Some c, _ => Some (event c)
  | None, Some r => Some (event r)
  | None, None => None
  end.

Definition getKey (mps : messagePairs) : messagePairKey :=
  match keyEvent mps with
  | Some evt => getMessagePairKey evt
  | None => (0, 0)
  end.

Definition getPort (mps : messagePairs) : Z :=
  match keyEvent mps with
  | Some evt => evt_dport evt
  | None => 0
  end.

Definition mergeInto (o : option events) (evt : KindlingEvent) (cap : Z) : option events :=
  match o with
  | None => Some (Events.newEvents evt cap)
  | Some evts => Some (Events.mergeEvent evts evt)
  end.

Definition mergeConnect (mps : messagePairs) (evt : KindlingEvent) : messagePairs :=
  {| connects := mergeInto (connects mps) evt (maxPayloadLength mps);
     requests := requests mps; responses := responses mps;
     natTuple := natTuple mps; sent_once := sent_once mps;
     maxPayloadLength := maxPayloadLength mps |}.

Definition mergeRequest (mps : messagePairs) (evt : KindlingEvent) : messagePairs :=
  {| connects := connects mps;
     requests := mergeInto (requests mps) evt (maxPayloadLength mps);
     responses := responses mps;
     natTuple := natTuple mps; sent_once := sent_once mps;
     maxPayloadLength := maxPayloadLength mps |}.

Definition mergeResponse (mps : messagePairs) (evt : KindlingEvent) : messagePairs :=
  {| connects := connects mps; requests := requests mps;
     responses := mergeInto (responses mps) evt (maxPayloadLength mps);
     natTuple := natTuple mps; sent_once := sent_once mps;
     maxPayloadLength := maxPayloadLength mps |}.

(** Re-insertion of a request buffer (the HTTP 100-continue case). *)
Definition putRequestBack (mps : messagePairs) (evts : option events) : messagePairs :=
  {| connects := connects mps;
     requests :=
       match requests mps, evts with
       | Some cur, Some origin => Some (Events.putEventsBack cur origin)
       | None, _ => evts
       | Some cur, None => Some cur
       end;
     responses := responses mps;
     natTuple := natTuple mps; sent_once := sent_once mps;
     maxPayloadLength := maxPayloadLength mps |}.

Definition setNatTuple (mps : messagePairs) (t : NatTuple) : messagePairs :=
  {| connects := connects mps; requests := requests mps;
     responses := responses mps;
     natTuple := Some t; sent_once := sent_once mps;
     maxPayloadLength := maxPayloadLength mps |}.

(** The timestamp (ns) of the last event of the state: the last response,
    else the last request, else the last connect; 0 for an empty state. *)
Definition getTimeoutTs (mps : messagePairs) : Z :=
  match responses mps, requests mps, connects mps with
  | Some r, _, _ => Events.getLastTimestamp r
  | None, Some q, _ => Events.getLastTimestamp q
  | None, None, Some c => Events.getLastTimestamp c
  | None, None, None => 0
  end.

(** The [sent_once] latch: check-and-set with compare-and-swap semantics.
    Returns whether this call is the one that set it, and the state after. *)
Definition checkSend (mps : messagePairs) : bool * messagePairs :=
  (negb (sent_once mps),
   {| connects := connects mps; requests := requests mps;
      responses := responses mps; natTuple := natTuple mps;
      sent_once := true;
      maxPayloadLength := maxPayloadLength mps |}).

(** Time decomposition of section 4.7 (ns). *)
Definition getConnectDuration (mps : messagePairs) : Z :=
  match connects mps with Some c => Events.getDuration c | None => 0 end.

Definition getSentTime (mps : messagePairs) : Z :=
  match requests mps with Some r => Events.getDuration r | None => 0 end.

Definition getWaitingTime (mps : messagePairs) : Z :=
  match requests mps, responses mps with
  | Some q, Some r => Events.getFirstTimestamp r - Events.getLastTimestamp q
  | _, _ => 0
  end.

Definition getDownloadTime (mps : messagePairs) : Z :=
  match responses mps with Some r => Events.getDuration r | None => 0 end.

Definition getDuration (mps : messagePairs) : Z :=
  match requests mps, responses mps with
  | Some q, Some r => Events.getLastTimestamp r - Events.getFirstTimestamp q
  | Some q, None => Events.getDuration q
  | None, _ => 0
  end.

Definition getRquestSize (mps : messagePairs) : Z :=
  match requests mps with Some r => Events.getSize r | None => 0 end.

Definition getResponseSize (mps : messagePairs) : Z :=
  match responses mps with Some r => Events.getSize r | None => 0 end.

End Pairs.

(** Modelled from the spec: the methods of [messagePair], the single-pair
    analogues of the decomposition above. *)
Module Pair.

Definition getSentTime (mp : messagePair) : Z := 0.

Definition getWaitingTime (mp : messagePair) : Z :=
  match response mp with
  | Some r => evt_timestamp r - evt_timestamp (request mp)
  | None => 0
  end.

Definition getDownloadTime (mp : messagePair) : Z := 0.

Definition getDuration (mp : messagePair) : Z :=
  match response mp with
  | Some r => evt_timestamp r - evt_timestamp (request mp)
  | None => 0
  end.

Definition getRquestSize (mp : messagePair) : Z :=
  Z.of_nat (length (evt_data (request mp))).

Definition getResponseSize (mp : messagePair) : Z :=
  match response mp with
  | Some r => Z.of_nat (length (evt_data r))
  | None => 0
  end.

End Pair.

(* ===================================================================== *)
(** ** Parsers, configuration and analyzer state *)
(* ===================================================================== *)

(** The parser contract of [protocol.ProtocolParser] (spec section 6).
    [parser_id] stands for the pointer identity of the parser.  A parse
    function gives the attributes of the message after a successful parse and
    [None] on a parse failure; [ParseResponse] is given the attribute map the
    response message was created with.  [PairMatch] returns the index of the
    matching request, or [-1]. *)
Record ProtocolParser := mkParser {
  parser_id : nat;
  GetProtocol : string;
  MultiRequests : bool;
  ParseRequest : bytes → option AttributeMap;
  ParseResponse : bytes → AttributeMap → option AttributeMap;
  PairMatch : list AttributeMap → AttributeMap → Z
}.

(** The configuration getters of [Config] (seconds; the slow threshold in
    milliseconds). *)
Record Config := mkConfig {
  EnableConntrack : bool;
  EnableTimeoutCheck : bool;
  GetConnectTimeout : Z;
  GetFdReuseTimeout : Z;
  getNoResponseThreshold : Z;
  cfg_getResponseSlowThreshold : Z
}.

(** The fields of [NetworkAnalyzer] that are fixed after [Start], with the
    two collaborators the record builder calls: the conntracker lookup and
    the payload formatter [protocol.GetPayloadString]. *)
Record NetworkAnalyzer := mkAnalyzer {
  cfg : Config;
  GetDNATTuple : string → string → Z → Z → bool → option NatTuple;
  GetPayloadString : bytes → string → string;
  staticPortMap : gmap Z string;
  slowThresholdMap : gmap string Z;
  protocolMap : gmap string ProtocolParser;
  parsers : list ProtocolParser;
  snaplen : Z
}.

(** The mutable part: the flow state map [requestMonitor] with the heap of
    the [messagePairs] it points to, the flow-size counters, and the parser
    registry's per-port cache and per-(parser, port) counters. *)
Record State := mkState {
  requestMonitor : gmap messagePairKey ptr;
  heap : gmap ptr messagePairs;
  cachedParsersMap : gmap Z (list ProtocolParser);
  portCounts : gmap (nat * Z) Z;
  tcpMessagePairSize : Z;
  udpMessagePairSize : Z
}.

Definition set_requestMonitor (f : gmap messagePairKey ptr → gmap messagePairKey ptr)
    (σ : State) : State :=
  {| requestMonitor := f (requestMonitor σ); heap := heap σ;
     cachedParsersMap := cachedParsersMap σ; portCounts := portCounts σ;
     tcpMessagePairSize := tcpMessagePairSize σ;
     udpMessagePairSize := udpMessagePairSize σ |}.

Definition set_heap (f : gmap ptr messagePairs → gmap ptr messagePairs)
    (σ : State) : State :=
  {| requestMonitor := requestMonitor σ; heap := f (heap σ);
     cachedParsersMap := cachedParsersMap σ; portCounts := portCounts σ;
     tcpMessagePairSize := tcpMessagePairSize σ;
     udpMessagePairSize := udpMessagePairSize σ |}.

Definition set_cachedParsersMap
    (f : gmap Z (list ProtocolParser) → gmap Z (list ProtocolParser))
    (σ : State) : State :=
  {| requestMonitor := requestMonitor σ; heap := heap σ;
     cachedParsersMap := f (cachedParsersMap σ); portCounts := portCounts σ;
     tcpMessagePairSize := tcpMessagePairSize σ;
     udpMessagePairSize := udpMessagePairSize σ |}.

Definition set_portCounts (f : gmap (nat * Z) Z → gmap (nat * Z) Z)
    (σ : State) : State :=
  {| requestMonitor := requestMonitor σ; heap := heap σ;
     cachedParsersMap := cachedParsersMap σ; portCounts := f (portCounts σ);
     tcpMessagePairSize := tcpMessagePairSize σ;
     udpMessagePairSize := udpMessagePairSize σ |}.

(** [recordMessagePairSize]: the atomic add on the udp or tcp counter. *)
Definition recordMessagePairSize (evt : KindlingEvent) (count : Z) (σ : State) : State :=
  {| requestMonitor := requestMonitor σ; heap := heap σ;
     cachedParsersMap := cachedParsersMap σ; portCounts := portCounts σ;
     tcpMessagePairSize :=
       if evt_isUdp evt then tcpMessagePairSize σ
       else GoLib.to_int64 (tcpMessagePairSize σ + count);
     udpMessagePairSize :=
       if evt_isUdp evt then GoLib.to_int64 (udpMessagePairSize σ + count)
       else udpMessagePairSize σ |}.

(** Allocation of a new [messagePairs] object ([&messagePairs{...}]). *)
Definition alloc (mps : messagePairs) (σ : State) : ptr * State :=
  let p := fresh (dom (heap σ)) in
  (p, set_heap <[p := mps]> σ).

(** Modelled from the spec: the parser registry's port cache and feedback
    counters (sections 4.8 and 6; packages [factory] and [protocol] are not
    among the sources).  [AddPortCount] is the atomic increment of the
    per-(parser, port) counter and returns the new count, [ResetPort] clears
    it; the cache maps a port to an ordered list of parsers. *)
Module Registry.

Definition portCount (parser : ProtocolParser) (port : Z) (σ : State) : Z :=
  default 0 (portCounts σ !! (parser_id parser, port)).

Definition AddPortCount (parser : ProtocolParser) (port : Z) (σ : State) : Z * State :=
  let count := GoLib.to_uint32 (portCount parser port σ + 1) in
  (count, set_portCounts <[(parser_id parser, port) := count]> σ).

Definition ResetPort (parser : ProtocolParser) (port : Z) (σ : State) : State :=
  set_portCounts (delete (parser_id parser, port)) σ.

Definition GetCachedParsersByPort (port : Z) (σ : State) : option (list ProtocolParser) :=
  cachedParsersMap σ !! port.

Definition AddCachedParser (port : Z) (parser : ProtocolParser) (σ : State) : State :=
  set_cachedParsersMap
    (λ m, <[port := default [] (m !! port) ++ [parser]]> m) σ.

Definition RemoveCachedParser (port : Z) (parser : ProtocolParser) (σ : State) : State :=
  set_cachedParsersMap
    (alter (filter (λ q, parser_id q ≠ parser_id parser)) port) σ.

Definition cached (port : Z) (parser : ProtocolParser) (σ : State) : Prop :=
  ∃ l q, cachedParsersMap σ !! port = Some l ∧ q ∈ l ∧ parser_id q = parser_id parser.

End Registry.

(** What a parse attempt gives: a Go panic (a nil dereference or an index out
    of range), a [nil] slice (parse failure), or a non-nil slice of records. *)
Inductive result (A : Type) :=
| Panic
| Nil
| Records (x : A).
Arguments Panic {A}.
Arguments Nil {A}.
Arguments Records {A} x.

Notation "x |> f" := (f x) (at level 45, left associativity, only parsing).

(* ===================================================================== *)
(** ** The record builder (network_analyzer.go) *)
(* ===================================================================== *)

Definition CACHE_ADD_THRESHOLD : Z := 50.
Definition CACHE_RESET_THRESHOLD : Z := 5000.

(** [dataGroupPool.Get()]: a record with no label and no metric. *)
Definition poolGet : DataGroup :=
  {| Labels := ∅; Metrics := ∅; Timestamp := 0 |}.

Definition getResponseSlowThreshold (na : NetworkAnalyzer) (protocol : string) : Z :=
  match slowThresholdMap na !! protocol with
  | Some value =>
      if 0 <? value then value else cfg_getResponseSlowThreshold (cfg na)
  | None => cfg_getResponseSlowThreshold (cfg na)
  end.

(** [int64(duration) >= int64(threshold)*int64(time.Millisecond)]. *)
Definition isSlow (na : NetworkAnalyzer) (duration : Z) (protocol : string) : bool :=
  GoLib.to_int64 (getResponseSlowThreshold na protocol * 1000000)
    <=? GoLib.to_int64 duration.

Definition addMessagePairTid (mp : messagePair) (labels : AttributeMap) : AttributeMap :=
  labels
  |> Attr.UpdateAddIntValue constlabels.RequestTid (evt_tid (request mp))
  |> Attr.UpdateAddIntValue constlabels.ResponseTid
       (match response mp with Some r => evt_tid r | None => 0 end).

Definition addMessagePairsTid (mps : messagePairs) (labels : AttributeMap) : AttributeMap :=
  labels
  |> Attr.UpdateAddIntValue constlabels.RequestTid
       (match requests mps with Some r => evt_tid (event r) | None => 0 end)
  |> Attr.UpdateAddIntValue constlabels.ResponseTid
       (match responses mps with Some r => evt_tid (event r) | None => 0 end).

Definition addProtocolPayload (na : NetworkAnalyzer) (protocolName : string)
    (request : bytes) (response : option bytes) (labels : AttributeMap) : AttributeMap :=
  labels
  |> Attr.UpdateAddStringValue constlabels.RequestPayload
       (GetPayloadString na request protocolName)
  |> Attr.UpdateAddStringValue constlabels.ResponsePayload
       (match response with
        | Some r => GetPayloadString na r protocolName
        | None => ""
        end).

(** The labels both record builders set from the request event before the
    parsed attributes are merged in. *)
Definition eventLabels (evt : KindlingEvent) (labels : AttributeMap) : AttributeMap :=
  labels
  |> Attr.UpdateAddStringValue constlabels.Comm (evt_comm evt)
  |> Attr.UpdateAddStringValue constlabels.SrcIp (evt_sip evt)
  |> Attr.UpdateAddStringValue constlabels.DstIp (evt_dip evt)
  |> Attr.UpdateAddIntValue constlabels.SrcPort (evt_sport evt)
  |> Attr.UpdateAddIntValue constlabels.DstPort (evt_dport evt)
  |> Attr.UpdateAddStringValue constlabels.DnatIp constlabels.STR_EMPTY
  |> Attr.UpdateAddIntValue constlabels.DnatPort (-1)
  |> Attr.UpdateAddStringValue constlabels.ContainerId (evt_containerId evt).

Definition natLabels (t : option NatTuple) (labels : AttributeMap) : AttributeMap :=
  match t with
  | Some n =>
      labels
      |> Attr.UpdateAddStringValue constlabels.DnatIp (ReplSrcIP n)
      |> Attr.UpdateAddIntValue constlabels.DnatPort (ReplSrcPort n)
  | None => labels
  end.

(** [// If no protocol error found, we check other errors] *)
Definition noResponseLabels (hasResponse : bool) (labels : AttributeMap) : AttributeMap :=
  if negb (Attr.GetBoolValue constlabels.IsError labels) && negb hasResponse then
    labels
    |> Attr.AddBoolValue constlabels.IsError true
    |> Attr.AddIntValue constlabels.ErrorType constlabels.NoResponse
  else labels.

Definition getConnectFailRecords (na : NetworkAnalyzer) (σ : State)
    (mps : messagePairs) : result (State * list DataGroup) :=
  match connects mps with
  | None => Panic
  | Some conns =>
      let evt := event conns in
      let labels :=
        Labels poolGet
        |> Attr.UpdateAddIntValue constlabels.Pid (evt_pid evt)
        |> Attr.UpdateAddIntValue constlabels.RequestTid 0
        |> Attr.UpdateAddIntValue constlabels.ResponseTid 0
        |> eventLabels evt
        |> Attr.UpdateAddBoolValue constlabels.IsError true
        |> Attr.UpdateAddIntValue constlabels.ErrorType constlabels.ConnectFail
        |> Attr.UpdateAddBoolValue constlabels.IsSlow false
        |> Attr.UpdateAddBoolValue constlabels.IsServer (evt_role evt) in
      let metrics :=
        Metrics poolGet
        |> insert constvalues.ConnectTime (GoLib.to_int64 (Events.getDuration conns))
        |> insert constvalues.RequestTotalTime (GoLib.to_int64 (Events.getDuration conns)) in
      Records (σ, [ {| Labels := labels; Metrics := metrics;
                       Timestamp := evt_startTime evt |} ])
  end.

Definition hasHttpContinue (attributes : option AttributeMap) : bool :=
  match attributes with
  | Some a => Attr.HasAttribute constlabels.HttpContinue a
  | None => false
  end.

Definition getRecords (na : NetworkAnalyzer) (σ : State) (mps : messagePairs)
    (protocol : string) (attributes : option AttributeMap)
    : result (State * list DataGroup) :=
  match requests mps with
  | None => Panic
  | Some reqs =>
      let evt := event reqs in
      if hasHttpContinue attributes then
        match requestMonitor σ !! getMessagePairKey evt with
        | Some q =>
            Records
              (set_heap
                 (alter (λ oldPairs, Pairs.putRequestBack oldPairs (requests mps)) q) σ,
               [])
        | None => Records (σ, [])
        end
      else
        let slow :=
          match responses mps with
          | Some _ => isSlow na (Pairs.getDuration mps) protocol
          | None => false
          end in
        let cap := maxPayloadLength mps in
        let labels :=
          Labels poolGet
          |> Attr.UpdateAddIntValue constlabels.Pid (evt_pid evt)
          |> addMessagePairsTid mps
          |> eventLabels evt
          |> Attr.UpdateAddBoolValue constlabels.IsError false
          |> Attr.UpdateAddIntValue constlabels.ErrorType constlabels.NoError
          |> Attr.UpdateAddBoolValue constlabels.IsSlow slow
          |> Attr.UpdateAddBoolValue constlabels.IsServer (evt_role evt)
          |> Attr.UpdateAddStringValue constlabels.Protocol protocol
          |> Attr.Merge attributes
          |> (match responses mps with
              | Some r =>
                  Attr.UpdateAddIntValue constlabels.EndTimestamp
                    (GoLib.to_int64 (Events.getLastTimestamp r))
              | None => id
              end)
          |> addProtocolPayload na protocol (Events.getData reqs cap)
               ((λ r, Events.getData r cap) <$> responses mps)
          |> noResponseLabels (bool_decide (is_Some (responses mps)))
          |> natLabels (natTuple mps) in
        let metrics :=
          Metrics poolGet
          |> insert constvalues.ConnectTime (GoLib.to_int64 (Pairs.getConnectDuration mps))
          |> insert constvalues.RequestSentTime (Pairs.getSentTime mps)
          |> insert constvalues.WaitingTtfbTime (Pairs.getWaitingTime mps)
          |> insert constvalues.ContentDownloadTime (Pairs.getDownloadTime mps)
          |> insert constvalues.RequestTotalTime
               (GoLib.to_int64 (Pairs.getConnectDuration mps + Pairs.getDuration mps))
          |> insert constvalues.RequestIo (GoLib.to_int64 (Pairs.getRquestSize mps))
          |> insert constvalues.ResponseIo (GoLib.to_int64 (Pairs.getResponseSize mps)) in
        Records (σ, [ {| Labels := labels; Metrics := metrics;
                         Timestamp := evt_startTime evt |} ])
  end.

Definition getRecordWithSinglePair (na : NetworkAnalyzer) (mp : messagePair)
    (protocol : string) (attributes : AttributeMap) : DataGroup :=
  let evt := request mp in
  let slow := isSlow na (Pair.getDuration mp) protocol in
  let labels :=
    Labels poolGet
    |> Attr.UpdateAddIntValue constlabels.Pid (evt_pid evt)
    |> addMessagePairTid mp
    |> eventLabels evt
    |> Attr.UpdateAddBoolValue constlabels.IsError false
    |> Attr.UpdateAddIntValue constlabels.ErrorType constlabels.NoError
    |> Attr.UpdateAddBoolValue constlabels.IsSlow slow
    |> Attr.UpdateAddBoolValue constlabels.IsServer (evt_role evt)
    |> Attr.UpdateAddStringValue constlabels.Protocol protocol
    |> Attr.Merge (Some attributes)
    |> (match response mp with
        | Some r => Attr.UpdateAddIntValue constlabels.EndTimestamp
                      (GoLib.to_int64 (evt_timestamp r))
        | None => id
        end)
    |> addProtocolPayload na protocol (evt_data evt) (evt_data <$> response mp)
    |> noResponseLabels (bool_decide (is_Some (response mp)))
    |> natLabels (mp_natTuple mp) in
  let metrics :=
    Metrics poolGet
    |> insert constvalues.ConnectTime 0
    |> insert constvalues.RequestSentTime (Pair.getSentTime mp)
    |> insert constvalues.WaitingTtfbTime (Pair.getWaitingTime mp)
    |> insert constvalues.ContentDownloadTime (Pair.getDownloadTime mp)
    |> insert constvalues.RequestTotalTime (GoLib.to_int64 (Pair.getDuration mp))
    |> insert constvalues.RequestIo (GoLib.to_int64 (Pair.getRquestSize mp))
    |> insert constvalues.ResponseIo (GoLib.to_int64 (Pair.getResponseSize mp)) in
  {| Labels := labels; Metrics := metrics; Timestamp := evt_startTime evt |}.

(* ===================================================================== *)
(** ** Protocol resolution (network_analyzer.go) *)
(* ===================================================================== *)

(** The response loop of [parseMultipleRequests]: each response is parsed
    with a fresh attribute map and matched to a request by [PairMatch];
    [matched] is [matchedRequestIdx], [acc] the pairs built so far with the
    attributes their record is given. *)
Fixpoint matchResponses (parser : ProtocolParser) (reqs : events)
    (parsedReqMsgs : list AttributeMap) (nt : option NatTuple)
    (resps : list KindlingEvent) (matched : gset nat)
    (acc : list (messagePair * AttributeMap))
    : result (gset nat * list (messagePair * AttributeMap)) :=
  match resps with
  | [] => Records (matched, acc)
  | resp :: rest =>
      match ParseResponse parser (evt_data resp) ∅ with
      | None => Nil                                   (* Parse failure *)
      | Some responseAttrs =>
          let matchIdx := PairMatch parser parsedReqMsgs responseAttrs in
          if matchIdx =? -1 then Nil
          else if matchIdx <? 0 then Panic
          else
            match Events.getEvent reqs (Z.to_nat matchIdx) with
            | None => Panic
            | Some req =>
                matchResponses parser reqs parsedReqMsgs nt rest
                  ({[ Z.to_nat matchIdx ]} ∪ matched)
                  (acc ++ [ ({| request := req; response := Some resp;
                                mp_natTuple := nt |}, responseAttrs) ])
            end
      end
  end.

(** The "498 case" loop: the requests whose index was never matched, each
    with its own parsed attributes and no response. *)
Definition unmatchedPairs (reqs : events) (parsedReqMsgs : list AttributeMap)
    (nt : option NatTuple) (matched : gset nat)
    : list (messagePair * AttributeMap) :=
  omap (λ '(i, (req, attrs)),
          if bool_decide (i ∈ matched) then None
          else Some ({| request := req; response := None; mp_natTuple := nt |}, attrs))
       (imap (λ i x, (i, x)) (zip (Events.all reqs) parsedReqMsgs)).

(** The pairs [parseMultipleRequests] builds, before each is turned into a
    record by [getRecordWithSinglePair]. *)
Definition parseMultiplePairs (mps : messagePairs) (parser : ProtocolParser)
    : result (list (messagePair * AttributeMap)) :=
  match requests mps with
  | None => Panic
  | Some reqs =>
      match mapM (λ req, ParseRequest parser (evt_data req)) (Events.all reqs) with
      | None => Nil                                   (* Parse failure *)
      | Some parsedReqMsgs =>
          match responses mps with
          | None =>
              Records (unmatchedPairs reqs parsedReqMsgs (natTuple mps) ∅)
          | Some resps =>
              match matchResponses parser reqs parsedReqMsgs (natTuple mps)
                      (Events.all resps) ∅ [] with
              | Panic => Panic
              | Nil => Nil
              | Records (matched, paired) =>
                  Records (paired ++
                           unmatchedPairs reqs parsedReqMsgs (natTuple mps) matched)
              end
          end
      end
  end.

Definition parseMultipleRequests (na : NetworkAnalyzer) (mps : messagePairs)
    (parser : ProtocolParser) : result (list DataGroup) :=
  match parseMultiplePairs mps parser with
  | Panic => Panic
  | Nil => Nil
  | Records pairs =>
      Records
        ((λ '(mp, attrs), getRecordWithSinglePair na mp (GetProtocol parser) attrs)
           <$> pairs)
  end.

Definition parseProtocol (na : NetworkAnalyzer) (σ : State) (mps : messagePairs)
    (parser : ProtocolParser) : result (State * list DataGroup) :=
  if MultiRequests parser then
    (* Not mergable requests *)
    match parseMultipleRequests na mps parser with
    | Panic => Panic
    | Nil => Nil
    | Records records => Records (σ, records)
    end
  else
    (* Mergable Data *)
    match requests mps with
    | None => Panic
    | Some reqs =>
        match ParseRequest parser (Events.getData reqs (maxPayloadLength mps)) with
        | None => Nil                                 (* Parse failure *)
        | Some requestAttrs =>
            match responses mps with
            | None =>
                if Attr.GetBoolValue constlabels.Oneway requestAttrs then
                  Records (σ, [])
                else getRecords na σ mps (GetProtocol parser) (Some requestAttrs)
            | Some resps =>
                match ParseResponse parser
                        (Events.getData resps (maxPayloadLength mps)) requestAttrs with
                | None => Nil                         (* Parse failure *)
                | Some responseAttrs =>
                    getRecords na σ mps (GetProtocol parser) (Some responseAttrs)
                end
            end
        end
    end.

(** Step 2 of [parseProtocols]: the loop over the cached parsers of the
    port.  [Nil] when no cached parser yields records. *)
Fixpoint tryCachedParsers (na : NetworkAnalyzer) (σ : State) (mps : messagePairs)
    (port : Z) (cacheParsers : list ProtocolParser)
    : result (State * list DataGroup) :=
  match cacheParsers with
  | [] => Nil
  | parser :: rest =>
      match parseProtocol na σ mps parser with
      | Panic => Panic
      | Records (σ1, records) =>
          if String.eqb protocol.NOSUPPORT (GetProtocol parser) then
            (* Reset mapping for generic and port when exceed threshold *)
            let '(count, σ2) := Registry.AddPortCount parser port σ1 in
            if count =? CACHE_RESET_THRESHOLD then
              Records (Registry.RemoveCachedParser port parser
                         (Registry.ResetPort parser port σ2), records)
            else Records (σ2, records)
          else Records (σ1, records)
      | Nil => tryCachedParsers na σ mps port rest
      end
  end.

(** Step 3 of [parseProtocols]: the loop over all parsers. *)
Fixpoint scanParsers (na : NetworkAnalyzer) (σ : State) (mps : messagePairs)
    (port : Z) (ps : list ProtocolParser) : result (State * list DataGroup) :=
  match ps with
  | [] => Nil
  | parser :: rest =>
      match parseProtocol na σ mps parser with
      | Panic => Panic
      | Records (σ1, records) =>
          (* Add mapping for port and protocol when exceed threshold *)
          let '(count, σ2) := Registry.AddPortCount parser port σ1 in
          if count =? CACHE_ADD_THRESHOLD then
            Records (Registry.AddCachedParser port parser σ2, records)
          else Records (σ2, records)
      | Nil => scanParsers na σ mps port rest
      end
  end.

Definition parseProtocols (na : NetworkAnalyzer) (σ : State) (mps : messagePairs)
    : result (State * list DataGroup) :=
  (* Step 1: Static Config for port and protocol set in config file *)
  let port := Pairs.getPort mps in
  match staticPortMap na !! port with
  | Some staticProtocol =>
      match requests mps with
      | None => getConnectFailRecords na σ mps          (* Connect Timeout *)
      | Some _ =>
          let protocolOnly := getRecords na σ mps staticProtocol None in
          match protocolMap na !! staticProtocol with
          | Some parser =>
              match parseProtocol na σ mps parser with
              | Panic => Panic
              | Records r => Records r
              | Nil => protocolOnly
              end
          | None => protocolOnly
          end
      end
  | None =>
      match requests mps with
      | None => getConnectFailRecords na σ mps          (* Connect Timeout *)
      | Some _ =>
          (* Step 2: Cache protocol and port *)
          let step2 :=
            match Registry.GetCachedParsersByPort port σ with
            | Some cacheParsers => tryCachedParsers na σ mps port cacheParsers
            | None => Nil
            end in
          match step2 with
          | Panic => Panic
          | Records r => Records r
          | Nil =>
              (* Step 3: Loop all protocols *)
              match scanParsers na σ mps port (parsers na) with
              | Panic => Panic
              | Records r => Records r
              | Nil => getRecords na σ mps protocol.NOSUPPORT None
              end
          end
      end
  end.

(* ===================================================================== *)
(** ** The record emitter and the handlers (network_analyzer.go) *)
(* ===================================================================== *)

(** [distributeRecords] hands every record to the consumers; the records
    themselves stand for the emission. *)
Definition distributeRecords (records : list DataGroup) : list DataGroup := records.

(** [// Relate conntrack] *)
Definition relateConntrack (na : NetworkAnalyzer) (queryEvt : KindlingEvent)
    (oldPairs : messagePairs) : messagePairs :=
  if EnableConntrack (cfg na) then
    match GetDNATTuple na (evt_sip queryEvt) (evt_dip queryEvt)
            (evt_sport queryEvt mod 2 ^ 16) (evt_dport queryEvt mod 2 ^ 16)
            (evt_isUdp queryEvt) with
    | Some natTuple => Pairs.setNatTuple oldPairs natTuple
    | None => oldPairs
    end
  else oldPairs.

(** [distributeTraceMetric(oldPairs, newPairs)], the two arguments being
    pointers.  [Nil]: the call returned before the emission (a state with
    neither connects nor requests, or the latch already set) and changed
    nothing; [Records (σ', records)]: [records] were distributed. *)
Definition distributeTraceMetric (na : NetworkAnalyzer) (σ : State)
    (oldp : ptr) (newp : option ptr) : result (State * list DataGroup) :=
  match heap σ !! oldp with
  | None => Panic
  | Some oldPairs =>
      match Pairs.keyEvent oldPairs with
      | None => Nil
      | Some queryEvt =>
          let '(first, latched) := Pairs.checkSend oldPairs in
          if negb first then
            (* FIX send twice for request/response with 15s delay. *)
            Nil
          else
            let σ1 := set_heap <[oldp := latched]> σ in
            let stored :=
              match newp with
              | Some q =>
                  match heap σ1 !! q with
                  | Some newPairs =>
                      Some (set_requestMonitor <[Pairs.getKey newPairs := q]> σ1)
                  | None => None
                  end
              | None =>
                  Some (set_requestMonitor (delete (Pairs.getKey latched))
                          (recordMessagePairSize queryEvt (-1) σ1))
              end in
            match stored with
            | None => Panic
            | Some σ2 =>
                let oldPairs' := relateConntrack na queryEvt latched in
                let σ3 := set_heap <[oldp := oldPairs']> σ2 in
                match parseProtocols na σ3 oldPairs' with
                | Panic => Panic
                | Nil => Records (σ3, distributeRecords [])
                | Records (σ4, records) => Records (σ4, distributeRecords records)
                end
            end
      end
  end.

(** An emission: the flushed state and the records distributed for it. *)
Abbreviation emission := (ptr * list DataGroup)%type (only parsing).

(** A flush seen from a handler: the state after and the emission, if any. *)
Definition flush (na : NetworkAnalyzer) (σ : State) (oldp : ptr) (newp : option ptr)
    : option (State * list emission) :=
  match distributeTraceMetric na σ oldp newp with
  | Panic => None
  | Nil => Some (σ, [])
  | Records (σ', records) => Some (σ', [(oldp, records)])
  end.

Definition analyseConnect (na : NetworkAnalyzer) (σ : State) (evt : KindlingEvent)
    : option (State * list emission) :=
  let mps := {| connects := Some (Events.newEvents evt (snaplen na));
                requests := None; responses := None; natTuple := None;
                sent_once := false; maxPayloadLength := snaplen na |} in
  let '(p, σ1) := alloc mps σ in
  match requestMonitor σ1 !! Pairs.getKey mps with
  | Some oldp =>
      (* There is an old message pair *)
      oldPairs ← heap σ1 !! oldp;
      match requests oldPairs, connects oldPairs with
      | None, Some conns =>
          if Events.IsTimeout conns evt (GetConnectTimeout (cfg na)) then
            flush na σ1 oldp (Some p)
          else
            Some (set_heap <[oldp := Pairs.mergeConnect oldPairs evt]> σ1, [])
      | _, _ => flush na σ1 oldp (Some p)
      end
  | None =>
      Some (recordMessagePairSize evt 1
              (set_requestMonitor <[Pairs.getKey mps := p]> σ1), [])
  end.

Definition analyseRequest (na : NetworkAnalyzer) (σ : State) (evt : KindlingEvent)
    : option (State * list emission) :=
  let mps := {| connects := None;
                requests := Some (Events.newEvents evt (snaplen na));
                responses := None; natTuple := None;
                sent_once := false; maxPayloadLength := snaplen na |} in
  let '(p, σ1) := alloc mps σ in
  match requestMonitor σ1 !! Pairs.getKey mps with
  | Some oldp =>
      (* There is an old message pair *)
      oldPairs ← heap σ1 !! oldp;
      match requests oldPairs with
      | None =>
          match connects oldPairs with
          | None =>
              (* empty message pair, store new one *)
              Some (set_requestMonitor <[Pairs.getKey mps := p]> σ1, [])
          | Some _ =>
              (* there is a connect event, update it *)
              let merged := Pairs.mergeRequest oldPairs evt in
              Some (set_requestMonitor <[Pairs.getKey merged := oldp]>
                      (set_heap <[oldp := merged]> σ1), [])
          end
      | Some oldReqs =>
          if bool_decide (is_Some (responses oldPairs))
             || Events.IsSportChanged oldReqs evt then
            flush na σ1 oldp (Some p)
          else
            Some (set_heap <[oldp := Pairs.mergeRequest oldPairs evt]> σ1, [])
      end
  | None =>
      Some (recordMessagePairSize evt 1
              (set_requestMonitor <[Pairs.getKey mps := p]> σ1), [])
  end.

Definition analyseResponse (na : NetworkAnalyzer) (σ : State) (evt : KindlingEvent)
    : option (State * list emission) :=
  match requestMonitor σ !! getMessagePairKey evt with
  | None => Some (σ, [])
  | Some oldp =>
      oldPairs ← heap σ !! oldp;
      match requests oldPairs with
      | None => Some (σ, [])          (* empty request, not a valid state *)
      | Some _ =>
          let merged := Pairs.mergeResponse oldPairs evt in
          Some (set_requestMonitor <[Pairs.getKey merged := oldp]>
                  (set_heap <[oldp := merged]> σ), [])
      end
  end.

(* ===================================================================== *)
(** ** The timeout sweeper ([consumerFdNoReusingTrace]) *)
(* ===================================================================== *)

(** [time.Now().UnixNano()/1000000000 - int64(timeoutTs)/1000000000], with
    [now] the clock reading in nanoseconds. *)
Definition idleSeconds (now : Z) (timeoutTs : Z) : Z :=
  GoLib.to_int64 (now ÷ 1000000000 - GoLib.to_int64 timeoutTs ÷ 1000000000).

(** The callback of [requestMonitor.Range] on one entry. *)
Definition sweepEntry (na : NetworkAnalyzer) (now : Z) (σ : State) (p : ptr)
    : option (State * list emission) :=
  mps ← heap σ !! p;
  let timeoutTs := Pairs.getTimeoutTs mps in
  if negb (timeoutTs =? 0) then
    let duration := idleSeconds now timeoutTs in
    if bool_decide (is_Some (responses mps))
       && (GetFdReuseTimeout (cfg na) <=? duration) then
      (* No FdReuse Request *)
      flush na σ p None
    else if getNoResponseThreshold (cfg na) <=? duration then
      (* No Response Request *)
      flush na σ p None
    else Some (σ, [])
  else Some (σ, []).

(** One tick: the callback on every entry of the map as it was when the
    range started. *)
Fixpoint sweepEntries (na : NetworkAnalyzer) (now : Z) (σ : State) (ps : list ptr)
    : option (State * list emission) :=
  match ps with
  | [] => Some (σ, [])
  | p :: rest =>
      '(σ1, es1) ← sweepEntry na now σ p;
      '(σ2, es2) ← sweepEntries na now σ1 rest;
      Some (σ2, es1 ++ es2)
  end.

Definition sweep (na : NetworkAnalyzer) (now : Z) (σ : State)
    : option (State * list emission) :=
  sweepEntries na now σ (snd <$> map_to_list (requestMonitor σ)).

(* ===================================================================== *)
(** ** The DNS parser (dns_parser.go, dns_response.go) *)
(* ===================================================================== *)

Module Dns.

Definition DNSHeaderSize : Z := 12.
Definition TypeA : Z := 1.
Definition TypeAAAA : Z := 28.

(** [protocol.PayloadMessage]: a byte slice, the current offset and the
    attribute map. *)
Record PayloadMessage := mkMessage {
  Data : bytes;
  Offset : Z;
  attributeMap : AttributeMap
}.

Definition NewRequestMessage (data : bytes) : PayloadMessage :=
  {| Data := data; Offset := 0; attributeMap := ∅ |}.

Definition NewResponseMessage (data : bytes) (attrs : AttributeMap) : PayloadMessage :=
  {| Data := data; Offset := 0; attributeMap := attrs |}.

Definition setOffset (message : PayloadMessage) (offset : Z) : PayloadMessage :=
  {| Data := Data message; Offset := offset; attributeMap := attributeMap message |}.

Definition setAttributes (message : PayloadMessage) (f : AttributeMap → AttributeMap)
    : PayloadMessage :=
  {| Data := Data message; Offset := Offset message;
     attributeMap := f (attributeMap message) |}.

Definition byteZ (b : Byte.byte) : Z := Z.of_N (Byte.to_N b).

Definition len (message : PayloadMessage) : Z := Z.of_nat (length (Data message)).

(** Modelled from the spec: the read methods of [PayloadMessage] (package
    [protocol] is not among the sources).  The message owns a byte slice and
    an offset; a 16-bit field is read in network byte order, and a read past
    the end of the slice is an error ([None]). *)
Definition ReadUInt16 (message : PayloadMessage) (offset : Z) : option Z :=
  if (offset <? 0) || (len message <? offset + 2) then None
  else
    match Data message !! Z.to_nat offset, Data message !! Z.to_nat (offset + 1) with
    | Some hi, Some lo => Some (Z.lor (Z.shiftl (byteZ hi) 8) (byteZ lo))
    | _, _ => None
    end.

(** [v, _ := message.ReadUInt16(offset)]: the zero value on an error. *)
Definition ReadUInt16' (message : PayloadMessage) (offset : Z) : Z :=
  default 0 (ReadUInt16 message offset).

(** Modelled from the spec: [ReadBytes] gives the offset after the bytes and
    the bytes, or [-1] and an error. *)
Definition ReadBytes (message : PayloadMessage) (offset length : Z)
    : Z * option bytes :=
  if (offset <? 0) || (length <? 0) || (len message <? offset + length)
  then (-1, None)
  else (offset + length,
        Some (take (Z.to_nat length) (drop (Z.to_nat offset) (Data message)))).

(** Modelled from the spec: a message is complete when its offset is at or
    past the end of its data. *)
Definition IsComplete (message : PayloadMessage) : bool :=
  len message <=? Offset message.

(** The two functions the DNS parser takes from elsewhere: the domain name
    decoder [unpackDomainName] (its file is not among the sources) and the
    textual form of an address ([net.IP.String]). *)
Record Helpers := mkHelpers {
  unpackDomainName : bytes → Z → option (string * Z);
  ipString : bytes → string
}.

(** The loop of [readQuery]; [n] questions are left to read. *)
Fixpoint readQueryLoop (h : Helpers) (message : PayloadMessage) (n : nat)
    (offset : Z) (domain : string) : option (Z * string) :=
  match n with
  | O => Some (offset, domain)
  | S n' =>
      if IsComplete message then None                              (* ErrEof *)
      else
        match unpackDomainName h (Data message) offset with
        | None => None                                             (* ErrMessageInvalid *)
        | Some (name, offset1) =>
            if len message <=? offset1 then None                   (* ErrMessageInvalid *)
            else
              let domain1 := if (String.length domain =? 0)%nat then name else domain in
              readQueryLoop h message n' (offset1 + 4) domain1
        end
  end.

Definition readQuery (h : Helpers) (message : PayloadMessage) (queryCount : Z)
    : option (PayloadMessage * string) :=
  match readQueryLoop h message (Z.to_nat queryCount) (Offset message + 12) "" with
  | Some (offset, domain) => Some (setOffset message offset, domain)
  | None => None
  end.

(** The loop of [readIpV4Answer]; gives the offset and the addresses at the
    end of the loop or at the [break]. *)
Fixpoint readIpV4Loop (h : Helpers) (message : PayloadMessage) (n : nat)
    (offset : Z) (ips : list string) : Z * list string :=
  match n with
  | O => (offset, ips)
  | S n' =>
      let offset1 := offset + 2 in
      match ReadUInt16 message offset1 with
      | None => (offset1, ips)
      | Some aType =>
          let offset2 := offset1 + 8 in
          match ReadUInt16 message offset2 with
          | None => (offset2, ips)
          | Some length =>
              let offset3 := offset2 + 2 in
              if aType =? TypeA then
                match ReadBytes message offset3 length with
                | (offset4, None) => (offset4, ips)
                | (offset4, Some ip) =>
                    readIpV4Loop h message n' (offset4 + length) (ips ++ [ipString h ip])
                end
              else readIpV4Loop h message n' (offset3 + length) ips
          end
      end
  end.

(** [strings.Join(ips, ",")]. *)
Fixpoint joinComma (ips : list string) : string :=
  match ips with
  | [] => ""
  | [ip] => ip
  | ip :: rest => ip +:+ "," +:+ joinComma rest
  end.

Definition readIpV4Answer (h : Helpers) (message : PayloadMessage) (answerCount : Z)
    : PayloadMessage * string :=
  let '(offset, ips) :=
    readIpV4Loop h message (Z.to_nat answerCount) (Offset message) [] in
  (setOffset message offset, joinComma ips).

(** [parseDnsResponse]: the message after the parse and the pair
    [(success, done)]. *)
Definition parseDnsResponse (h : Helpers) (message : PayloadMessage)
    : PayloadMessage * (bool * bool) :=
  let offset := Offset message in
  let id := ReadUInt16' message offset in
  let flags := ReadUInt16' message (offset + 2) in
  let rcode := Z.land flags 15 in
  let numOfQuestions := ReadUInt16' message (offset + 4) in
  let numOfAnswers := ReadUInt16' message (offset + 6) in
  if numOfQuestions =? 0 then (message, (false, true))
  else
    match readQuery h message numOfQuestions with
    | None => (message, (false, true))
    | Some (message1, domain) =>
        let '(message2, ip) := readIpV4Answer h message1 numOfAnswers in
        let attrs :=
          (λ m,
            m
            |> Attr.AddStringValue constlabels.DnsDomain domain
            |> (if (0 <? String.length ip)%nat
                then Attr.AddStringValue constlabels.DnsIp ip else (λ m', m'))
            |> Attr.AddIntValue constlabels.DnsId id
            |> Attr.AddIntValue constlabels.DnsRcode rcode
            |> (if 0 <? rcode
                then (λ m',
                       m'
                       |> Attr.AddBoolValue constlabels.IsError true
                       |> Attr.AddIntValue constlabels.ErrorType
                            constlabels.ProtocolError)
                else (λ m', m'))) in
        (setAttributes message2 attrs, (true, true))
    end.

Definition parseTcpDnsResponse (h : Helpers) (message : PayloadMessage) :=
  parseDnsResponse h (setOffset message (Offset message + 2)).

Definition parseUdpDnsResponse (h : Helpers) (message : PayloadMessage) :=
  parseDnsResponse h message.

Definition fastfailDnsResponse (message : PayloadMessage) : bool :=
  len message <=? DNSHeaderSize.

Definition fastfailDnsRequest (message : PayloadMessage) : bool :=
  len message <=? DNSHeaderSize.

Definition parseDnsRequest (h : Helpers) (message : PayloadMessage)
    : PayloadMessage * (bool * bool) :=
  let offset := Offset message in
  let id := ReadUInt16' message offset in
  let numOfQuestions := ReadUInt16' message (offset + 4) in
  if numOfQuestions =? 0 then (message, (false, true))
  else
    match readQuery h message numOfQuestions with
    | None => (message, (false, true))
    | Some (message1, domain) =>
        (setAttributes message1
           (λ m, m |> Attr.AddIntValue constlabels.DnsId id
                   |> Attr.AddStringValue constlabels.DnsDomain domain),
         (true, true))
    end.

Definition parseTcpDnsRequest (h : Helpers) (message : PayloadMessage) :=
  parseDnsRequest h (setOffset message (Offset message + 2)).

Definition parseUdpDnsRequest (h : Helpers) (message : PayloadMessage) :=
  parseDnsRequest h message.

(** [dnsPair]: the index of the first request whose id and domain equal the
    response's, [-1] when there is none. *)
Fixpoint dnsPairFrom (i : Z) (requests : list AttributeMap) (response : AttributeMap) : Z :=
  match requests with
  | [] => -1
  | request :: rest =>
      if (Attr.GetIntValue constlabels.DnsId request
            =? Attr.GetIntValue constlabels.DnsId response)
         && String.eqb (Attr.GetStringValue constlabels.DnsDomain request)
                       (Attr.GetStringValue constlabels.DnsDomain response)
      then i
      else dnsPairFrom (i + 1) rest response
  end.

Definition dnsPair (requests : list AttributeMap) (response : AttributeMap) : Z :=
  dnsPairFrom 0 requests response.

(** Modelled from the spec: [protocol.CreatePkgParser] with
    [ParseRequest]/[ParseResponse] (section 6): a message is rejected when
    [fast_fail] holds, else it is claimed when [parse_pkg] reports success,
    and its attributes are then the parsed ones. *)
Definition runPkgParser (fastFail : PayloadMessage → bool)
    (parsePkg : PayloadMessage → PayloadMessage * (bool * bool))
    (message : PayloadMessage) : option AttributeMap :=
  if fastFail message then None
  else
    let '(message', (success, _)) := parsePkg message in
    if success then Some (attributeMap message') else None.

Definition NewTcpDnsParser (id : nat) (h : Helpers) : ProtocolParser :=
  {| parser_id := id;
     GetProtocol := protocol.DNS;
     MultiRequests := true;
     ParseRequest := λ data,
       runPkgParser fastfailDnsRequest (parseTcpDnsRequest h) (NewRequestMessage data);
     ParseResponse := λ data attrs,
       runPkgParser fastfailDnsResponse (parseTcpDnsResponse h)
         (NewResponseMessage data attrs);
     PairMatch := dnsPair |}.

End Dns.

(* ===================================================================== *)
(** ** Construction and runs of the analyzer *)
(* ===================================================================== *)

(** [NewNetworkAnalyzer] followed by [Start]: the maps [Start] fills from the
    configuration are given, the snaplen is read from the environment. *)
Definition NewNetworkAnalyzer (env : gmap string string) (config : Config)
    (conntrack : string → string → Z → Z → bool → option NatTuple)
    (formatter : bytes → string → string)
    (static : gmap Z string) (slow : gmap string Z)
    (named : gmap string ProtocolParser) (active : list ProtocolParser)
    : NetworkAnalyzer :=
  {| cfg := config; GetDNATTuple := conntrack; GetPayloadString := formatter;
     staticPortMap := static; slowThresholdMap := slow;
     protocolMap := named; parsers := active;
     snaplen := getSnaplenEnv env |}.

Definition initialState : State :=
  {| requestMonitor := ∅; heap := ∅; cachedParsersMap := ∅; portCounts := ∅;
     tcpMessagePairSize := 0; udpMessagePairSize := 0 |}.

(** What can happen to the flow state map: the router hands an event to one
    of the three handlers, the sweeper ticks, or a task that still holds a
    pointer to a state flushes it (the race between router and sweeper,
    interleaved at the granularity of [distributeTraceMetric]). *)
Inductive action :=
| Connect (evt : KindlingEvent)
| Request (evt : KindlingEvent)
| Response (evt : KindlingEvent)
| Sweep (now : Z)
| Flush (oldp : ptr) (newp : option ptr).

Definition step (na : NetworkAnalyzer) (σ : State) (a : action)
    : option (State * list emission) :=
  match a with
  | Connect evt => analyseConnect na σ evt
  | Request evt => analyseRequest na σ evt
  | Response evt => analyseResponse na σ evt
  | Sweep now => sweep na now σ
  | Flush oldp newp => flush na σ oldp newp
  end.

Fixpoint run (na : NetworkAnalyzer) (σ : State) (acts : list action)
    : option (State * list emission) :=
  match acts with
  | [] => Some (σ, [])
  | a :: rest =>
      '(σ1, es1) ← step na σ a;
      '(σ2, es2) ← run na σ1 rest;
      Some (σ2, es1 ++ es2)
  end.

(** The actions of the sequential program: handlers and sweeper ticks. *)
Definition sequential (a : action) : bool :=
  match a with Flush _ _ => false | _ => true end.

(** The states the sequential program reaches from the empty one. *)
Definition reachable (na : NetworkAnalyzer) (σ : State) : Prop :=
  ∃ acts es, forallb sequential acts = true ∧ run na initialState acts = Some (σ, es).

(** The latch of the state at [p]. *)
Definition latched (σ : State) (p : ptr) : bool :=
  match heap σ !! p with
  | Some mps => sent_once mps
  | None => false
  end.

(** The number of emissions of the state at [p] in a log. *)
Definition emissionsOf (p : ptr) (es : list emission) : nat :=
  length (filter (λ e, e.1 = p) es).


(* ===================================================================== *)
(** ** [distributeTraceMetric] interleaved with another goroutine *)
(* ===================================================================== *)

(** The sweeper and the event consumer are two goroutines, and
    [distributeTraceMetric] takes no lock over its whole body: the other
    goroutine can run between its [checkSend] and its update of the map.
    [distributeTraceMetric_latch] is the call up to and including
    [checkSend]: [Nil] when the call returns there, else the state in which
    the latch of [oldp] is set and nothing else has been done. *)
Definition distributeTraceMetric_latch (σ : State) (oldp : ptr) : result State :=
  match heap σ !! oldp with
  | None => Panic
  | Some oldPairs =>
      match Pairs.keyEvent oldPairs with
      | None => Nil
      | Some _ =>
          let '(first, latched) := Pairs.checkSend oldPairs in
          if negb first then Nil
          else Records (set_heap <[oldp := latched]> σ)
      end
  end.

(** The rest of the call, from the update of the map on, resumed in the
    state [σ] the other goroutine left; [queryEvt] is the local variable the
    call set before [checkSend]. *)
Definition distributeTraceMetric_resume (na : NetworkAnalyzer) (σ : State)
    (oldp : ptr) (newp : option ptr) (queryEvt : KindlingEvent)
    : result (State * list DataGroup) :=
  match heap σ !! oldp with
  | None => Panic
  | Some latched =>
      let stored :=
        match newp with
        | Some q =>
            match heap σ !! q with
            | Some newPairs =>
                Some (set_requestMonitor <[Pairs.getKey newPairs := q]> σ)
            | None => None
            end
        | None =>
            Some (set_requestMonitor (delete (Pairs.getKey latched))
                    (recordMessagePairSize queryEvt (-1) σ))
        end in
      match stored with
      | None => Panic
      | Some σ2 =>
          let oldPairs' := relateConntrack na queryEvt latched in
          let σ3 := set_heap <[oldp := oldPairs']> σ2 in
          match parseProtocols na σ3 oldPairs' with
          | Panic => Panic
          | Nil => Records (σ3, distributeRecords [])
          | Records (σ4, records) => Records (σ4, distributeRecords records)
          end
      end
  end.

(* ===================================================================== *)
(** ** [Start]: the maps built from the configuration *)
(* ===================================================================== *)

(** Modelled from the spec: an entry of [Config.ProtocolConfigs] (config.go
    is not among the sources), with the fields [Start] reads; a port is a
    [uint32]. *)
Record ProtocolConfig := mkProtocolConfig {
  Key : string;
  Ports : list Z;
  PayloadLength : Z;
  DisableDiscern : bool;
  Threshold : Z
}.

(** Modelled from the spec: the parser factory [Start] takes its parsers
    from; [GetParser] gives nil for a name it does not know. *)
Record ParserFactory := mkFactory {
  GetParser : string → option ProtocolParser;
  GetGenericParser : ProtocolParser
}.

(** [na.staticPortMap[port] = config.Key], for every port of every entry in
    the order of the configuration. *)
Definition Start_staticPortMap (configs : list ProtocolConfig) : gmap Z string :=
  foldl (λ m config, foldl (λ m' port, <[port := Key config]> m') m (Ports config))
        ∅ configs.

(** [na.slowThresholdMap[config.Key] = config.Threshold]. *)
Definition Start_slowThresholdMap (configs : list ProtocolConfig) : gmap string Z :=
  foldl (λ m config, <[Key config := Threshold config]> m) ∅ configs.

(** [disableDisernProtocols[config.Key] = config.DisableDiscern]. *)
Definition Start_disableDisernProtocols (configs : list ProtocolConfig)
    : gmap string bool :=
  foldl (λ m config, <[Key config := DisableDiscern config]> m) ∅ configs.

(** The body of the loop over [cfg.ProtocolParser]: [acc] is the protocol
    map and the parser list built so far. *)
Definition Start_addParser (factory : ParserFactory) (disabled : gmap string bool)
    (acc : gmap string ProtocolParser * list ProtocolParser) (protocolName : string)
    : gmap string ProtocolParser * list ProtocolParser :=
  match GetParser factory protocolName with
  | Some protocolParser =>
      (<[protocolName := protocolParser]> acc.1,
       match disabled !! protocolName with
       | Some true => acc.2
       | _ => acc.2 ++ [protocolParser]
       end)
  | None => acc
  end.

Definition Start_parsers (factory : ParserFactory) (configs : list ProtocolConfig)
    (names : list string) : gmap string ProtocolParser * list ProtocolParser :=
  let '(named, parsers) :=
    foldl (Start_addParser factory (Start_disableDisernProtocols configs))
          (∅, []) names in
  (* Add Generic Last *)
  (named, parsers ++ [GetGenericParser factory]).

(** [NewNetworkAnalyzer] followed by [Start], [configs] being
    [cfg.ProtocolConfigs] and [names] being [cfg.ProtocolParser]. *)
Definition Start (env : gmap string string) (config : Config)
    (conntrack : string → string → Z → Z → bool → option NatTuple)
    (formatter : bytes → string → string)
    (factory : ParserFactory) (configs : list ProtocolConfig) (names : list string)
    : NetworkAnalyzer :=
  NewNetworkAnalyzer env config conntrack formatter
    (Start_staticPortMap configs) (Start_slowThresholdMap configs)
    (Start_parsers factory configs names).1
    (Start_parsers factory configs names).2.
(* ===================================================================== *)
(** ** Notions used to state the properties *)
(* ===================================================================== *)

(** The error classification of a record: its [isError] and [errorType]
    labels. *)
Definition classification (r : DataGroup) : bool * Z :=
  (Attr.GetBoolValue constlabels.IsError (Labels r),
   Attr.GetIntValue constlabels.ErrorType (Labels r)).

(** The spec's first-match-wins classification of a record built from parsed
    [attributes] for a state that has a response or not. *)
Definition expectedClass (attributes : option AttributeMap) (hasResponse : bool)
    : bool * Z :=
  let a := default ∅ attributes in
  if Attr.GetBoolValue constlabels.IsError a then
    (true, Attr.GetIntValue constlabels.ErrorType a)
  else if hasResponse then (false, Attr.GetIntValue constlabels.ErrorType a)
  else (true, constlabels.NoResponse).

(** The labels the record builder sets by itself, whatever was parsed. *)
Definition builderLabels : list string :=
  [ constlabels.Pid; constlabels.RequestTid; constlabels.ResponseTid;
    constlabels.Comm; constlabels.SrcIp; constlabels.DstIp;
    constlabels.SrcPort; constlabels.DstPort; constlabels.DnatIp;
    constlabels.DnatPort; constlabels.ContainerId; constlabels.IsError;
    constlabels.ErrorType; constlabels.IsSlow; constlabels.IsServer;
    constlabels.Protocol; constlabels.EndTimestamp;
    constlabels.RequestPayload; constlabels.ResponsePayload ].

(** The spec's DNS matching condition: equal id and equal domain. *)
Definition dnsMatch (request response : AttributeMap) : bool :=
  (Attr.GetIntValue constlabels.DnsId request
     =? Attr.GetIntValue constlabels.DnsId response)
  && String.eqb (Attr.GetStringValue constlabels.DnsDomain request)
                (Attr.GetStringValue constlabels.DnsDomain response).

(** The lowest index of a request that matches the response. *)
Definition firstMatch (requests : list AttributeMap) (response : AttributeMap)
    : option nat :=
  fst <$> list_find (λ request, dnsMatch request response = true) requests.

(** [pr] is the pair of response [resp] with the request of index [i]: the
    response parses, [i] is the first request it matches, and the pair
    carries the response's attributes. *)
Definition pairsWith (parser : ProtocolParser) (reqs : events)
    (parsedReqMsgs : list AttributeMap) (nt : option NatTuple)
    (resp : KindlingEvent) (i : nat) (pr : messagePair * AttributeMap) : Prop :=
  ∃ responseAttrs req,
    ParseResponse parser (evt_data resp) ∅ = Some responseAttrs ∧
    firstMatch parsedReqMsgs responseAttrs = Some i ∧
    Events.all reqs !! i = Some req ∧
    pr = ({| request := req; response := Some resp; mp_natTuple := nt |},
          responseAttrs).

(* ===================================================================== *)
(** ** Concrete data for the examples *)
(* ===================================================================== *)

Module Sample.

Definition bs (l : list N) : bytes := omap Byte.of_N l.

(** A decoder of uncompressed domain names (length-prefixed labels ended by
    a zero byte), to instantiate [unpackDomainName] in the examples. *)
Fixpoint plainName (fuel : nat) (data : bytes) (offset : nat) : option (string * Z) :=
  match fuel with
  | O => None
  | S fuel' =>
      match data !! offset with
      | None => None
      | Some c =>
          let n := N.to_nat (Byte.to_N c) in
          if (n =? 0)%nat then Some ("", Z.of_nat (offset + 1))
          else if (63 <? n)%nat then None
          else
            let label := take n (drop (offset + 1) data) in
            if (length label <? n)%nat then None
            else
              match plainName fuel' data (offset + 1 + n) with
              | Some (rest, off) =>
                  Some (string_of_list_byte label +:+ "." +:+ rest, off)
              | None => None
              end
      end
  end.

Definition helpers : Dns.Helpers :=
  {| Dns.unpackDomainName := λ data offset,
       if offset <? 0 then None else plainName 128 data (Z.to_nat offset);
     Dns.ipString := string_of_list_byte |}.

Definition tcpDns : ProtocolParser := Dns.NewTcpDnsParser 1 helpers.

Definition evt (pid fd tid sport dport ts : Z) (data : bytes) : KindlingEvent :=
  {| evt_name := "write"; evt_pid := pid; evt_tid := tid; evt_fd := fd;
     evt_comm := "app"; evt_containerId := ""; evt_sip := "10.0.0.1";
     evt_dip := "10.0.0.2"; evt_sport := sport; evt_dport := dport;
     evt_role := false; evt_isUdp := false;
     evt_timestamp := ts; evt_startTime := ts; evt_data := data |}.

(** A DNS-over-TCP query for the name [x] with the given id: the two-byte
    length, the header with one question, the question. *)
Definition dnsQuery (id : N) : bytes :=
  bs [0; 19;  0; id;  1; 0;  0; 1;  0; 0;  0; 0;  0; 0;
      1; 120; 0;  0; 1;  0; 1]%N.

(** The answer to it, with the given RCODE and no answer record. *)
Definition dnsAnswer (id rcode : N) : bytes :=
  bs [0; 19;  0; id;  129; 128 + rcode;  0; 1;  0; 0;  0; 0;  0; 0;
      1; 120; 0;  0; 1;  0; 1]%N.

Definition config : Config :=
  {| EnableConntrack := false; EnableTimeoutCheck := true;
     GetConnectTimeout := 100; GetFdReuseTimeout := 15;
     getNoResponseThreshold := 120; cfg_getResponseSlowThreshold := 500 |}.

Definition analyzer (static : gmap Z string) (named : gmap string ProtocolParser)
    (active : list ProtocolParser) : NetworkAnalyzer :=
  NewNetworkAnalyzer ∅ config (λ _ _ _ _ _, None) (λ _ _, "")
    static ∅ named active.

Definition state (conns reqs resps : option events) : messagePairs :=
  {| connects := conns; requests := reqs; responses := resps;
     natTuple := None; sent_once := false; maxPayloadLength := 1000 |}.

(** Scenario S5: two DNS queries on one connection, answered in the opposite
    order. *)
Definition s5_requests : events :=
  {| event := evt 1 10 1 40000 53 100 (dnsQuery 1);
     mergedEvents := [evt 1 10 1 40000 53 200 (dnsQuery 2)] |}.

Definition s5_responses : events :=
  {| event := evt 1 10 1 40000 53 300 (dnsAnswer 2 0);
     mergedEvents := [evt 1 10 1 40000 53 400 (dnsAnswer 1 0)] |}.

Definition s5 : messagePairs := state None (Some s5_requests) (Some s5_responses).

Definition s5_parsed : list AttributeMap :=
  [default ∅ (ParseRequest tcpDns (dnsQuery 1));
   default ∅ (ParseRequest tcpDns (dnsQuery 2))].

(** A single-request parser that accepts every request and labels it as an
    HTTP request waiting for [100 Continue]. *)
Definition continueParser : ProtocolParser :=
  {| parser_id := 2; GetProtocol := "http"; MultiRequests := false;
     ParseRequest := λ _, Some {[ constlabels.HttpContinue := BoolV true ]};
     ParseResponse := λ _ attrs, Some attrs;
     PairMatch := λ _ _, -1 |}.

(** A state map with one flow: the state [mps] at location [0] under the
    key of process 1, descriptor 10. *)
Definition oneFlow (mps : messagePairs) : State :=
  {| requestMonitor := {[ (1, 10) := 0%nat ]}; heap := {[ 0%nat := mps ]};
     cachedParsersMap := ∅; portCounts := ∅;
     tcpMessagePairSize := 1; udpMessagePairSize := 0 |}.

(** The generic parser: accepts everything, labels it NOSUPPORT. *)
Definition genericParser : ProtocolParser :=
  {| parser_id := 3; GetProtocol := protocol.NOSUPPORT; MultiRequests := false;
     ParseRequest := λ _, Some ∅;
     ParseResponse := λ _ attrs, Some attrs;
     PairMatch := λ _ _, -1 |}.

(** One request to port 8080, not yet answered. *)
Definition plainRequest : messagePairs :=
  state None (Some (Events.newEvents (evt 1 10 1 40000 8080 100 (bs [1; 2; 3]%N)) 1000))
    None.

(** A registry state: the cache of port 8080 and the generic parser's
    counter for it. *)
Definition registry (cache : gmap Z (list ProtocolParser)) (count : Z) : State :=
  {| requestMonitor := ∅; heap := ∅;
     cachedParsersMap := cache; portCounts := {[ (3%nat, 8080) := count ]};
     tcpMessagePairSize := 0; udpMessagePairSize := 0 |}.

(** A configuration whose no-response threshold (10 s) is below its fd-reuse
    timeout (15 s), and a flow with a request and its response. *)
Definition eagerConfig : Config :=
  {| EnableConntrack := false; EnableTimeoutCheck := true;
     GetConnectTimeout := 100; GetFdReuseTimeout := 15;
     getNoResponseThreshold := 10; cfg_getResponseSlowThreshold := 500 |}.

Definition eagerAnalyzer : NetworkAnalyzer :=
  NewNetworkAnalyzer ∅ eagerConfig (λ _ _ _ _ _, None) (λ _ _, "") ∅ ∅ ∅ [].

Definition answered : messagePairs :=
  state None
    (Some (Events.newEvents (evt 1 10 1 40000 8080 100000000000 (bs [1]%N)) 1000))
    (Some (Events.newEvents (evt 1 10 1 40000 8080 101000000000 (bs [2]%N)) 1000)).

End Sample.

(** The latch only ever goes from unset to set. *)
Definition latch_le (σ σ' : State) : Prop :=
  ∀ p, latched σ p = true → latched σ' p = true.

(** What a step may do to the latches, [es] being what it emitted: a state
    whose latch is set emits nothing and keeps its latch; a state emits at
    most once, and its emission is the transition of its latch. *)
Definition once (σ σ' : State) (es : list emission) : Prop :=
  ∀ p,
    (latched σ p = true → latched σ' p = true ∧ emissionsOf p es = 0%nat) ∧
    (emissionsOf p es ≤ 1)%nat ∧
    (emissionsOf p es = 1%nat → latched σ p = false ∧ latched σ' p = true).

(** The state [m] belongs under the key [k]: its first connect and its first
    request, when present, are events of that flow, and it has one of them. *)
Definition keyed (k : messagePairKey) (m : messagePairs) : Prop :=
  (∀ c, connects m = Some c → getMessagePairKey (event c) = k) ∧
  (∀ r, requests m = Some r → getMessagePairKey (event r) = k) ∧
  is_Some (Pairs.keyEvent m).

(** The invariant of the flow state map in the sequential program: every
    entry points to a live state of its key whose latch is unset. *)
Definition wf (σ : State) : Prop :=
  ∀ k p, requestMonitor σ !! k = Some p →
    ∃ m, heap σ !! p = Some m ∧ sent_once m = false ∧ keyed k m.

(** The state in which [distributeTraceMetric] parses the flushed state:
    latch set, map entry replaced or deleted, conntrack result recorded. *)
Definition flushing (na : NetworkAnalyzer) (σ : State) (oldp : ptr)
    (newp : option ptr) (old : messagePairs) (queryEvt : KindlingEvent)
    : option (State * messagePairs) :=
  let old1 := (Pairs.checkSend old).2 in
  let old' := relateConntrack na queryEvt old1 in
  let σ1 := set_heap <[oldp := old1]> σ in
  match newp with
  | Some q =>
      newPairs ← heap σ1 !! q;
      Some (set_heap <[oldp := old']>
              (set_requestMonitor <[Pairs.getKey newPairs := q]> σ1), old')
  | None =>
      Some (set_heap <[oldp := old']>
              (set_requestMonitor (delete (Pairs.getKey old1))
                 (recordMessagePairSize queryEvt (-1) σ1)), old')
  end.

(** The only effect of a parse attempt on the state: possibly one request
    buffer put back into the state the map stores under the key of [mps]. *)
Definition reinserted (mps : messagePairs) (σ σ' : State) : Prop :=
  σ' = σ ∨
  ∃ reqs q,
    requests mps = Some reqs ∧
    requestMonitor σ !! getMessagePairKey (event reqs) = Some q ∧
    σ' = set_heap (alter (λ oldPairs, Pairs.putRequestBack oldPairs (requests mps)) q) σ.

(** The claim as the spec words it: a request and a response are paired in
    an emitted record if and only if their id and domain are equal. *)
Definition dns_paired_iff_match : Prop :=
  ∀ parser mps reqs resps parsedReqMsgs pairs,
    PairMatch parser = Dns.dnsPair →
    requests mps = Some reqs → responses mps = Some resps →
    mapM (λ req, ParseRequest parser (evt_data req)) (Events.all reqs)
      = Some parsedReqMsgs →
    parseMultiplePairs mps parser = Records pairs →
    ∀ i j req resp qa ra,
      Events.all reqs !! i = Some req → Events.all resps !! j = Some resp →
      parsedReqMsgs !! i = Some qa →
      ParseResponse parser (evt_data resp) ∅ = Some ra →
      ((({| request := req; response := Some resp; mp_natTuple := natTuple mps |}, ra)
          ∈ pairs)
       ↔ dnsMatch qa ra = true).

(** The claim as the spec words it: a state with responses is flushed by the
    sweeper only when idle for at least the fd-reuse timeout, a state without
    responses only when idle for at least the no-response threshold. *)
Definition sweeper_waits_fd_reuse_for_responses : Prop :=
  ∀ na now σ p mps σ' es,
    heap σ !! p = Some mps →
    sweepEntry na now σ p = Some (σ', es) → es ≠ [] →
    let idle := idleSeconds now (Pairs.getTimeoutTs mps) in
    (is_Some (responses mps) → GetFdReuseTimeout (cfg na) ≤ idle) ∧
    (responses mps = None → getNoResponseThreshold (cfg na) ≤ idle).

(** The claim as the spec words it: whenever the variable is set and some key
    of the map equals its value, the server listens on the mapped value. *)
Definition StartServer_listens_whenever_key_found : Prop :=
  ∀ serve (env ports : gmap string string) modnum port,
    env !! "kindling_mod_number" = Some modnum →
    ports !! modnum = Some port →
    ∃ err, Otel.StartServer serve env ports = Otel.Returned port err.


(** The two flow gauges add up, as 64-bit numbers, to the number of states
    in the map. *)
Definition gauges_agree (σ : State) : Prop :=
  (tcpMessagePairSize σ + udpMessagePairSize σ) mod 2 ^ 64
  = Z.of_nat (size (requestMonitor σ)) mod 2 ^ 64.

(** The sweeper flushes the state [mps] at the clock reading [now]. *)
Definition due (na : NetworkAnalyzer) (now : Z) (mps : messagePairs) : bool :=
  let timeoutTs := Pairs.getTimeoutTs mps in
  negb (timeoutTs =? 0)
  && ((bool_decide (is_Some (responses mps))
       && (GetFdReuseTimeout (cfg na) <=? idleSeconds now timeoutTs))
      || (getNoResponseThreshold (cfg na) <=? idleSeconds now timeoutTs)).

(** The configuration entries that list [port], and those of key [key]. *)
Definition listing (port : Z) (configs : list ProtocolConfig) : list ProtocolConfig :=
  filter (λ config, port ∈ Ports config) configs.

Definition entriesOf (key : string) (configs : list ProtocolConfig)
    : list ProtocolConfig :=
  filter (λ config, Key config = key) configs.

(** The claim as the spec words it, for the records [getRecords] builds: the
    parser's classification when it set [isError]; else [NoResponse]
    without a response; else [NoError]. *)
Definition classification_as_stated : Prop :=
  ∀ na σ mps reqs protocolName attributes r,
    requests mps = Some reqs →
    getRecords na σ mps protocolName attributes = Records (σ, [r]) →
    classification r =
      let a := default ∅ attributes in
      if Attr.GetBoolValue constlabels.IsError a then
        (true, Attr.GetIntValue constlabels.ErrorType a)
      else if bool_decide (responses mps = None) then
        (true, constlabels.NoResponse)
      else (false, constlabels.NoError).
(* ===================================================================== *)
(** * Properties *)
(* ===================================================================== *)

(** ** The snaplen read from the environment *)

Example Atoi_examples :
  GoLib.Atoi "1000" = Some 1000 ∧ GoLib.Atoi "0" = Some 0 ∧
  GoLib.Atoi "-5" = Some (-5) ∧ GoLib.Atoi "+7" = Some 7 ∧
  GoLib.Atoi "" = None ∧ GoLib.Atoi "-" = None ∧ GoLib.Atoi "12a" = None ∧
  GoLib.Atoi " 12" = None ∧ GoLib.Atoi "1_000" = None ∧
  GoLib.Atoi "9223372036854775807" = Some (2 ^ 63 - 1) ∧
  GoLib.Atoi "9223372036854775808" = None ∧
  GoLib.Atoi "-9223372036854775808" = Some (- 2 ^ 63).
Proof. repeat split; reflexivity. Qed.

Lemma Getenv_unset (env : gmap string string) name :
  env !! name = None → GoLib.Getenv env name = "".
Proof. intros H. unfold GoLib.Getenv. by rewrite H. Qed.

Lemma Getenv_set (env : gmap string string) name s :
  env !! name = Some s → GoLib.Getenv env name = s.
Proof. intros H. unfold GoLib.Getenv. by rewrite H. Qed.

(** C9.  [getSnaplenEnv] falls back to 1000 when SNAPLEN is unset or is not
    accepted by [strconv.Atoi]; every value [Atoi] accepts is returned as it
    is, zero and negative values included, and is the snaplen of the analyzer
    built from that environment, hence the payload cap of the states its
    handlers create.  So a result of 1000 means: unset, not an integer, or
    the integer 1000 itself. *)
Theorem getSnaplenEnv_default_only_on_error (env : gmap string string) :
  (env !! "SNAPLEN" = None → getSnaplenEnv env = 1000) ∧
  (∀ s, env !! "SNAPLEN" = Some s → GoLib.Atoi s = None → getSnaplenEnv env = 1000) ∧
  (∀ s n, env !! "SNAPLEN" = Some s → GoLib.Atoi s = Some n →
     getSnaplenEnv env = n ∧
     ∀ config ct fmt st sl nm ac evt,
       let na := NewNetworkAnalyzer env config ct fmt st sl nm ac in
       snaplen na = n ∧
       ∃ σ' p mps,
         analyseRequest na initialState evt = Some (σ', []) ∧
         requestMonitor σ' !! getMessagePairKey evt = Some p ∧
         heap σ' !! p = Some mps ∧ maxPayloadLength mps = n) ∧
  (getSnaplenEnv env = 1000 →
     env !! "SNAPLEN" = None ∨
     ∃ s, env !! "SNAPLEN" = Some s ∧
          (GoLib.Atoi s = None ∨ GoLib.Atoi s = Some 1000)) ∧
  getSnaplenEnv (<["SNAPLEN" := "0"]> env) = 0 ∧
  getSnaplenEnv (<["SNAPLEN" := "-5"]> env) = -5.
Proof.
  unfold getSnaplenEnv. repeat split.
  - intros H. by rewrite (Getenv_unset _ _ H).
  - intros s H Hs. by rewrite (Getenv_set _ _ _ H), Hs.
  - rewrite (Getenv_set _ _ _ H). by rewrite H0.
  - simpl. unfold getSnaplenEnv. rewrite (Getenv_set _ _ _ H). by rewrite H0.
  - simpl. unfold analyseRequest, alloc. simpl.
    rewrite lookup_empty. simpl.
    eexists _, _, _. split; [reflexivity|]. simpl.
    split; [apply lookup_insert_eq|].
    split; [apply lookup_insert_eq|].
    simpl. unfold getSnaplenEnv. rewrite (Getenv_set _ _ _ H). by rewrite H0.
  - intros H. destruct (env !! "SNAPLEN") as [s|] eqn:E; [right|by left].
    exists s. split; [done|].
    rewrite (Getenv_set _ _ _ E) in H.
    destruct (GoLib.Atoi s); [right; by f_equal | by left].
  - rewrite (Getenv_set _ _ "0"); [reflexivity | apply lookup_insert_eq].
  - rewrite (Getenv_set _ _ "-5"); [reflexivity | apply lookup_insert_eq].
Qed.

(** ** The Prometheus endpoint *)

Lemma findPort_absent kvs modnum port :
  (∀ v, (modnum, v) ∉ kvs) → Otel.findPort kvs modnum port = port.
Proof.
  induction kvs as [|[k v] kvs IH]; intros Hno; simpl; [done|].
  destruct (String.eqb_spec k modnum) as [->|Hne].
  - exfalso. apply (Hno v). left.
  - apply IH. intros v' Hin. apply (Hno v'). by right.
Qed.

Lemma findPort_present kvs modnum port v :
  NoDup kvs.*1 → (modnum, v) ∈ kvs → Otel.findPort kvs modnum port = v.
Proof.
  induction kvs as [|[k w] kvs IH]; intros Hnd Hin; simpl.
  - by apply elem_of_nil in Hin.
  - apply NoDup_cons in Hnd as [Hk Hnd].
    apply elem_of_cons in Hin as [Heq|Hin].
    + inversion Heq; subst. by rewrite String.eqb_refl.
    + destruct (String.eqb_spec k modnum) as [->|Hne]; [|by apply IH].
      exfalso. apply Hk. simpl.
      apply list_elem_of_fmap. by exists (modnum, v).
Qed.

(** The range loop finds exactly the value the map binds to the key. *)
Lemma findPort_lookup (ports : gmap string string) modnum :
  Otel.findPort (map_to_list ports) modnum "" = default "" (ports !! modnum).
Proof.
  destruct (ports !! modnum) as [v|] eqn:E; simpl.
  - apply findPort_present; [apply NoDup_fst_map_to_list|].
    by apply elem_of_map_to_list.
  - apply findPort_absent. intros v Hin.
    apply elem_of_map_to_list in Hin. congruence.
Qed.

Lemma is_empty_true s : Otel.is_empty s = true ↔ s = "".
Proof. destruct s; simpl; split; congruence. Qed.

Lemma is_empty_false s : Otel.is_empty s = false ↔ s ≠ "".
Proof. destruct s; simpl; split; congruence. Qed.

(** A key that equals the variable's value but is mapped to the empty string
    ends in the second panic. *)
Lemma StartServer_empty_port_panics :
  ¬ StartServer_listens_whenever_key_found.
Proof.
  intros H.
  destruct (H (λ _, None) {["kindling_mod_number" := "1"]} {["1" := ""]} "1" "")
    as [err Herr]; [reflexivity | reflexivity |].
  vm_compute in Herr. discriminate Herr.
Qed.

(** C10 (amended).  [StartServer] panics when kindling_mod_number is unset or
    empty, and when the ports map binds no non-empty value to the variable's
    value (no such key, or a key mapped to the empty string); otherwise it
    listens on the mapped value and returns nil when the server stops with
    [http.ErrServerClosed], or the error otherwise. *)
Theorem StartServer_outcome serve (env ports : gmap string string) :
  let modnum := GoLib.Getenv env "kindling_mod_number" in
  (env !! "kindling_mod_number" = None →
     Otel.StartServer serve env ports
     = Otel.Panicked "kindling_mod_number environment variable is not set") ∧
  (modnum = "" →
     Otel.StartServer serve env ports
     = Otel.Panicked "kindling_mod_number environment variable is not set") ∧
  (modnum ≠ "" → ports !! modnum = None →
     Otel.StartServer serve env ports
     = Otel.Panicked "Can't find prometheus metric prot") ∧
  (modnum ≠ "" → ports !! modnum = Some "" →
     Otel.StartServer serve env ports
     = Otel.Panicked "Can't find prometheus metric prot") ∧
  (∀ port, modnum ≠ "" → ports !! modnum = Some port → port ≠ "" →
     (serve port = Some Otel.ErrServerClosed ∨ serve port = None →
        Otel.StartServer serve env ports = Otel.Returned port None) ∧
     (∀ msg, serve port = Some (Otel.ErrOther msg) →
        Otel.StartServer serve env ports
        = Otel.Returned port (Some (Otel.ErrOther msg)))).
Proof.
  intros modnum. unfold Otel.StartServer. fold modnum.
  rewrite findPort_lookup.
  repeat split.
  - intros H. subst modnum. by rewrite (Getenv_unset _ _ H).
  - intros ->. done.
  - intros Hm Hp. apply is_empty_false in Hm. rewrite Hm, Hp. done.
  - intros Hm Hp. apply is_empty_false in Hm. rewrite Hm, Hp. done.
  - intros Hs. apply is_empty_false in H. apply is_empty_false in H1.
    rewrite H, H0. simpl. rewrite H1. by destruct Hs as [-> | ->].
  - intros msg Hs. apply is_empty_false in H. apply is_empty_false in H1.
    rewrite H, H0. simpl. rewrite H1. by rewrite Hs.
Qed.
Ltac unfold_labels :=
  unfold eventLabels, addMessagePairsTid, addMessagePairTid, addProtocolPayload,
    natLabels, noResponseLabels,
    Attr.AddBoolValue, Attr.AddIntValue, Attr.AddStringValue,
    Attr.UpdateAddBoolValue, Attr.UpdateAddIntValue, Attr.UpdateAddStringValue,
    constlabels.Pid, constlabels.RequestTid, constlabels.ResponseTid,
    constlabels.Comm, constlabels.SrcIp, constlabels.DstIp, constlabels.SrcPort,
    constlabels.DstPort, constlabels.DnatIp, constlabels.DnatPort,
    constlabels.ContainerId, constlabels.IsError, constlabels.ErrorType,
    constlabels.IsSlow, constlabels.IsServer, constlabels.Protocol,
    constlabels.EndTimestamp, constlabels.RequestPayload,
    constlabels.ResponsePayload in *.

Lemma connectFail_class na σ mps conns :
  connects mps = Some conns →
  ∃ r, getConnectFailRecords na σ mps = Records (σ, [r]) ∧
       classification r = (true, constlabels.ConnectFail).
Proof.
  intros H. unfold getConnectFailRecords. rewrite H.
  eexists. split; [reflexivity|].
  unfold classification, Attr.GetBoolValue, Attr.GetIntValue. cbn [Labels].
  unfold_labels. unfold constlabels.ConnectFail.
  repeat (rewrite ?lookup_insert_eq; rewrite ?lookup_insert_ne by done). done.
Qed.

Lemma lookup_merge (attributes : option AttributeMap) (m : AttributeMap) k :
  Attr.Merge attributes m !! k =
  match default ∅ attributes !! k with
  | Some v => Some v
  | None => m !! k
  end.
Proof.
  destruct attributes as [a|]; simpl.
  - rewrite lookup_union. destruct (a !! k), (m !! k); done.
  - by rewrite lookup_empty.
Qed.

Ltac labels_lookup Hm E1 E2 :=
  repeat (rewrite ?lookup_insert_eq, ?Hm, ?E1, ?E2;
          rewrite ?lookup_insert_ne by done; cbn [negb andb id]).

Lemma getRecords_class na σ mps reqs protocol attributes :
  requests mps = Some reqs → hasHttpContinue attributes = false →
  ∃ r, getRecords na σ mps protocol attributes = Records (σ, [r]) ∧
       classification r
       = expectedClass attributes (bool_decide (is_Some (responses mps))).
Proof.
  intros Hr Hc. unfold getRecords. rewrite Hr, Hc.
  eexists. split; [reflexivity|].
  unfold classification, expectedClass. cbn [Labels].
  pose proof (lookup_merge attributes) as Hm.
  set (a := default ∅ attributes) in *.
  unfold_labels. unfold Attr.GetBoolValue, Attr.GetIntValue, constlabels.NoResponse.
  destruct (a !! "is_error") as [[?|?|[]]|] eqn:E1;
    destruct (natTuple mps), (responses mps);
    cbn [fmap option_fmap option_map bool_decide decide_rel is_Some_dec];
    labels_lookup Hm E1 E1;
    by destruct (a !! "error_type") as [[?|?|?]|].

Qed.

Lemma getRecordWithSinglePair_class na mp protocol attributes :
  classification (getRecordWithSinglePair na mp protocol attributes)
  = expectedClass (Some attributes) (bool_decide (is_Some (response mp))).
Proof.
  unfold getRecordWithSinglePair, classification, expectedClass. cbn [Labels].
  pose proof (lookup_merge (Some attributes)) as Hm.
  set (a := default ∅ (Some attributes)) in *.
  unfold_labels. unfold Attr.GetBoolValue, Attr.GetIntValue, constlabels.NoResponse.
  destruct (a !! "is_error") as [[?|?|[]]|] eqn:E1;
    destruct (mp_natTuple mp), (response mp);
    cbn [fmap option_fmap option_map bool_decide decide_rel is_Some_dec];
    labels_lookup Hm E1 E1;
    by destruct (a !! "error_type") as [[?|?|?]|].
Qed.

Lemma ReadUInt16'_range message offset :
  0 ≤ Dns.ReadUInt16' message offset.
Proof.
  unfold Dns.ReadUInt16', Dns.ReadUInt16.
  destruct (_ || _); simpl; [lia|].
  destruct (_ !! _); simpl; [|lia]. destruct (_ !! _); simpl; [|lia].
  apply Z.lor_nonneg. split.
  - apply Z.shiftl_nonneg. unfold Dns.byteZ. lia.
  - unfold Dns.byteZ. lia.
Qed.

Lemma parseDnsResponse_rcode h message message' done :
  Dns.parseDnsResponse h message = (message', (true, done)) →
  let rcode := Z.land (Dns.ReadUInt16' message (Dns.Offset message + 2)) 15 in
  0 ≤ rcode ∧
  Attr.GetIntValue constlabels.DnsRcode (Dns.attributeMap message') = rcode ∧
  (0 < rcode →
     Attr.GetBoolValue constlabels.IsError (Dns.attributeMap message') = true ∧
     Attr.GetIntValue constlabels.ErrorType (Dns.attributeMap message')
     = constlabels.ProtocolError) ∧
  (rcode = 0 →
     Dns.attributeMap message' !! constlabels.IsError
     = Dns.attributeMap message !! constlabels.IsError ∧
     Dns.attributeMap message' !! constlabels.ErrorType
     = Dns.attributeMap message !! constlabels.ErrorType).
Proof.
  intros H rcode.
  assert (0 ≤ rcode) as Hr.
  { apply Z.land_nonneg. left. apply ReadUInt16'_range. }
  split; [done|].
  unfold Dns.parseDnsResponse in H. fold rcode in H.
  destruct (_ =? 0); [discriminate|].
  destruct (Dns.readQuery _ _ _) as [[message1 domain]|] eqn:Eq; [|discriminate].
  destruct (Dns.readIpV4Answer _ _ _) as [message2 ip] eqn:Ea.
  injection H as <- _.
  assert (Dns.attributeMap message2 = Dns.attributeMap message) as Hattr.
  { unfold Dns.readIpV4Answer in Ea. destruct (Dns.readIpV4Loop _ _ _ _ _).
    injection Ea as <- _. simpl.
    unfold Dns.readQuery in Eq. destruct (Dns.readQueryLoop _ _ _ _ _) as [[? ?]|]; [|done].
    by injection Eq as <- _. }
  cbn [Dns.setAttributes Dns.attributeMap]. rewrite Hattr.
  unfold Attr.GetIntValue, Attr.GetBoolValue, Attr.AddIntValue, Attr.AddBoolValue,
    Attr.AddStringValue, Attr.UpdateAddIntValue, Attr.UpdateAddBoolValue,
    Attr.UpdateAddStringValue, constlabels.DnsRcode, constlabels.IsError,
    constlabels.ErrorType, constlabels.DnsId, constlabels.DnsDomain, constlabels.DnsIp,
    constlabels.ProtocolError.
  destruct (0 <? rcode) eqn:Epos; destruct (0 <? String.length ip)%nat;
    repeat split; intros; try lia;
    repeat (rewrite ?lookup_insert_eq; rewrite ?lookup_insert_ne by done); done.
Qed.

(** A record of [getRecords] comes from the path that is not the interim
    one. *)
Lemma getRecords_one_record na σ mps reqs protocol attributes σ' r :
  requests mps = Some reqs →
  getRecords na σ mps protocol attributes = Records (σ', [r]) →
  hasHttpContinue attributes = false.
Proof.
  intros Hr. unfold getRecords. rewrite Hr.
  destruct (hasHttpContinue attributes); [|done].
  by destruct (requestMonitor σ !! _).
Qed.

(** The classification the builders give is ConnectFail only when the
    parser's attributes carry it. *)
Lemma expectedClass_ConnectFail attributes hasResponse :
  (expectedClass attributes hasResponse).2 = constlabels.ConnectFail →
  Attr.GetIntValue constlabels.ErrorType (default ∅ attributes)
  = constlabels.ConnectFail.
Proof.
  unfold expectedClass. cbv zeta.
  destruct (Attr.GetBoolValue _ _); [done|].
  by destruct hasResponse.
Qed.

(** The claim as stated fails for a parser that sets an error type without
    flagging an error: for a flow with a request and its response and the
    parsed attributes [error_type = 3], the record is not an error and has
    error type 3, not [NoError].  And a parser that flags an error with the
    error type 1 gives a ConnectFail record outside the connect-fail path. *)
Lemma parser_error_type_reaches_record :
  ¬ classification_as_stated ∧
  ∃ r, getRecords (Sample.analyzer ∅ ∅ []) initialState Sample.answered "http"
         (Some {[ "is_error" := BoolV true; "error_type" := IntV 1 ]})
       = Records (initialState, [r]) ∧
       classification r = (true, constlabels.ConnectFail).
Proof.
  split.
  - intros H.
    destruct (getRecords_class (Sample.analyzer ∅ ∅ []) initialState Sample.answered
                (Events.newEvents
                   (Sample.evt 1 10 1 40000 8080 100000000000 (Sample.bs [1]%N)) 1000)
                "http" (Some {[ "error_type" := IntV 3 ]}) eq_refl)
      as (r & Hrec & Hclass); [by vm_compute|].
    specialize (H _ _ Sample.answered _ _ _ r eq_refl Hrec).
    rewrite Hclass in H. by vm_compute in H.
  - destruct (getRecords_class (Sample.analyzer ∅ ∅ []) initialState Sample.answered
                (Events.newEvents
                   (Sample.evt 1 10 1 40000 8080 100000000000 (Sample.bs [1]%N)) 1000)
                "http" (Some {[ "is_error" := BoolV true; "error_type" := IntV 1 ]})
                eq_refl)
      as (r & Hrec & Hclass); [by vm_compute|].
    exists r. split; [done|]. rewrite Hclass. by vm_compute.
Qed.

(** C6.  The error classification of a record is first-match-wins, with the
    parser's own error type.  The connect-fail path gives [isError = true]
    with [ConnectFail].  Both record builders keep the [isError] and the
    error type of the parsed attributes when the parser set [isError]; else,
    without a response, they set [isError = true] with [NoResponse]; else
    the record is not an error and its error type is the one the parser set,
    [NoError] when it set none.  So the builders give ConnectFail only for a
    parser whose attributes carry it.  For the DNS parser, the one parser
    among the sources, this is the classification of the claim: a response
    with a positive RCODE (the low four bits of the flags) gives
    [isError = true] with [ProtocolError]; with RCODE 0 the record of a pair
    without response is [NoResponse] and that of a pair with response is not
    an error, with [NoError]. *)
Theorem error_classification_first_match na σ :
  (∀ mps conns, connects mps = Some conns →
     ∃ r, getConnectFailRecords na σ mps = Records (σ, [r]) ∧
          classification r = (true, constlabels.ConnectFail)) ∧
  (∀ mps reqs protocol attributes,
     requests mps = Some reqs → hasHttpContinue attributes = false →
     ∃ r, getRecords na σ mps protocol attributes = Records (σ, [r]) ∧
          classification r =
          let a := default ∅ attributes in
          if Attr.GetBoolValue constlabels.IsError a then
            (true, Attr.GetIntValue constlabels.ErrorType a)
          else if bool_decide (responses mps = None) then
            (true, constlabels.NoResponse)
          else (false, Attr.GetIntValue constlabels.ErrorType a)) ∧
  (∀ mp protocol a,
     classification (getRecordWithSinglePair na mp protocol a) =
     if Attr.GetBoolValue constlabels.IsError a then
       (true, Attr.GetIntValue constlabels.ErrorType a)
     else if bool_decide (response mp = None) then
       (true, constlabels.NoResponse)
     else (false, Attr.GetIntValue constlabels.ErrorType a)) ∧
  (∀ mps reqs protocol attributes σ' r,
     requests mps = Some reqs →
     getRecords na σ mps protocol attributes = Records (σ', [r]) →
     (classification r).2 = constlabels.ConnectFail →
     Attr.GetIntValue constlabels.ErrorType (default ∅ attributes)
     = constlabels.ConnectFail) ∧
  (∀ mp protocol a,
     (classification (getRecordWithSinglePair na mp protocol a)).2
     = constlabels.ConnectFail →
     Attr.GetIntValue constlabels.ErrorType a = constlabels.ConnectFail) ∧
  (∀ id h data a mp,
     ParseResponse (Dns.NewTcpDnsParser id h) data ∅ = Some a →
     classification (getRecordWithSinglePair na mp protocol.DNS a) =
     if 0 <? Z.land (Dns.ReadUInt16' (Dns.NewResponseMessage data ∅) 4) 15 then
       (true, constlabels.ProtocolError)
     else if bool_decide (response mp = None) then
       (true, constlabels.NoResponse)
     else (false, constlabels.NoError)) ∧
  (∀ h message message' done,
     Dns.parseDnsResponse h message = (message', (true, done)) →
     let rcode := Z.land (Dns.ReadUInt16' message (Dns.Offset message + 2)) 15 in
     0 ≤ rcode ∧
     (0 < rcode →
        Attr.GetBoolValue constlabels.IsError (Dns.attributeMap message') = true ∧
        Attr.GetIntValue constlabels.ErrorType (Dns.attributeMap message')
        = constlabels.ProtocolError) ∧
     (rcode = 0 →
        Dns.attributeMap message' !! constlabels.IsError
        = Dns.attributeMap message !! constlabels.IsError ∧
        Dns.attributeMap message' !! constlabels.ErrorType
        = Dns.attributeMap message !! constlabels.ErrorType)).
Proof.
  split; [|split; [|split; [|split; [|split; [|split]]]]].
  - intros mps conns H. by eapply connectFail_class.
  - intros mps reqs protocol attributes Hr Hc.
    destruct (getRecords_class na σ mps reqs protocol attributes Hr Hc) as (r & -> & Hcl).
    exists r. split; [done|]. rewrite Hcl. unfold expectedClass. simpl.
    destruct (Attr.GetBoolValue _ _); [done|]. by destruct (responses mps).
  - intros mp protocol a. rewrite getRecordWithSinglePair_class.
    unfold expectedClass. simpl.
    destruct (Attr.GetBoolValue _ _); [done|]. by destruct (response mp).
  - intros mps reqs protocol attributes σ' r Hr Hrec.
    pose proof (getRecords_one_record _ _ _ _ _ _ _ _ Hr Hrec) as Hc.
    destruct (getRecords_class na σ mps reqs protocol attributes Hr Hc)
      as (r' & Hrec' & Hcl).
    rewrite Hrec in Hrec'. injection Hrec' as _ <-.
    rewrite Hcl. apply expectedClass_ConnectFail.
  - intros mp protocol a. rewrite getRecordWithSinglePair_class.
    apply (expectedClass_ConnectFail (Some a)).
  - intros id h data a mp.
    cbn [ParseResponse Dns.NewTcpDnsParser]. unfold Dns.runPkgParser.
    destruct (Dns.fastfailDnsResponse _); [done|].
    destruct (Dns.parseTcpDnsResponse h _) as [message' [success done]] eqn:Ep.
    destruct success; [|done]. intros [= <-].
    unfold Dns.parseTcpDnsResponse in Ep.
    destruct (parseDnsResponse_rcode h _ message' done Ep) as (H0 & _ & Hpos & Hzero).
    cbn [Dns.Offset Dns.setOffset Dns.NewResponseMessage Dns.attributeMap] in *.
    change (Dns.ReadUInt16' _ (0 + 2 + 2))
      with (Dns.ReadUInt16' (Dns.NewResponseMessage data ∅) 4) in *.
    set (rcode := Z.land (Dns.ReadUInt16' (Dns.NewResponseMessage data ∅) 4) 15) in *.
    set (a := Dns.attributeMap message') in *.
    rewrite getRecordWithSinglePair_class. unfold expectedClass. cbv zeta.
    change (default ∅ (Some a)) with a.
    destruct (0 <? rcode) eqn:Epos.
    + apply Z.ltb_lt in Epos. destruct (Hpos Epos) as [-> ->]. done.
    + apply Z.ltb_ge in Epos. assert (rcode = 0) as Hz by lia.
      destruct (Hzero Hz) as [Hie Het]. rewrite lookup_empty in Hie, Het.
      unfold Attr.GetBoolValue, Attr.GetIntValue. rewrite Hie, Het.
      by destruct (response mp).
  - intros h message message' done H rcode.
    destruct (parseDnsResponse_rcode h message message' done H) as (H0 & _ & H1 & H2).
    done.
Qed.

(** The DNS parser on an answer with RCODE 3 (name error) and on one with
    RCODE 0, and the records built for them. *)
Example dns_rcode_classified :
  ∃ bad good,
    ParseResponse Sample.tcpDns (Sample.dnsAnswer 1 3) ∅ = Some bad ∧
    ParseResponse Sample.tcpDns (Sample.dnsAnswer 1 0) ∅ = Some good ∧
    ∀ na mp,
      classification (getRecordWithSinglePair na mp protocol.DNS bad)
      = (true, constlabels.ProtocolError) ∧
      (is_Some (response mp) →
       classification (getRecordWithSinglePair na mp protocol.DNS good)
       = (false, constlabels.NoError)) ∧
      (response mp = None →
       classification (getRecordWithSinglePair na mp protocol.DNS good)
       = (true, constlabels.NoResponse)).
Proof.
  exists (default ∅ (ParseResponse Sample.tcpDns (Sample.dnsAnswer 1 3) ∅)),
         (default ∅ (ParseResponse Sample.tcpDns (Sample.dnsAnswer 1 0) ∅)).
  split; [vm_compute; reflexivity|]. split; [vm_compute; reflexivity|].
  intros na mp. rewrite !getRecordWithSinglePair_class.
  split; [reflexivity|]. split.
  - intros [r ->]. reflexivity.
  - intros ->. reflexivity.
Qed.

(** ** What a parse attempt changes *)

Lemma Records_inj_state {A} (σ1 σ2 : State) (r1 r2 : A) :
  Records (σ1, r1) = Records (σ2, r2) → σ1 = σ2.
Proof. by intros [= -> _]. Qed.

Lemma getConnectFailRecords_frame na σ mps σ' records :
  getConnectFailRecords na σ mps = Records (σ', records) → σ' = σ.
Proof.
  unfold getConnectFailRecords. destruct (connects mps); [|done].
  intros H. by apply Records_inj_state in H.
Qed.

Lemma getRecords_frame na σ mps protocol attributes σ' records :
  getRecords na σ mps protocol attributes = Records (σ', records) →
  reinserted mps σ σ'.
Proof.
  unfold getRecords. destruct (requests mps) as [reqs|] eqn:Hr; [|done].
  destruct (hasHttpContinue attributes).
  - destruct (requestMonitor σ !! _) as [q|] eqn:Eq.
    + intros [= <- _]. right. rewrite Hr. by exists reqs, q.
    + intros [= <- _]. by left.
  - intros H. apply Records_inj_state in H. subst. by left.
Qed.

Lemma parseProtocol_frame na σ mps parser σ' records :
  parseProtocol na σ mps parser = Records (σ', records) →
  reinserted mps σ σ'.
Proof.
  unfold parseProtocol. destruct (MultiRequests parser).
  - destruct (parseMultipleRequests na mps parser); [done..|].
    intros [= <- _]. by left.
  - destruct (requests mps) as [reqs|] eqn:Hr; [|done].
    destruct (ParseRequest parser _) as [qa|]; [|done].
    destruct (responses mps) as [resps|].
    + destruct (ParseResponse parser _ _); [|done]. apply getRecords_frame.
    + destruct (Attr.GetBoolValue _ _).
      * intros [= <- _]. by left.
      * apply getRecords_frame.
Qed.

Lemma reinserted_registry mps σ σ' :
  reinserted mps σ σ' →
  requestMonitor σ' = requestMonitor σ ∧
  cachedParsersMap σ' = cachedParsersMap σ ∧ portCounts σ' = portCounts σ ∧
  tcpMessagePairSize σ' = tcpMessagePairSize σ ∧
  udpMessagePairSize σ' = udpMessagePairSize σ.
Proof. intros [-> | (reqs & q & _ & _ & ->)]; done. Qed.

(** Both loops skip the parsers that fail and stop at the first that yields
    records. *)
Lemma tryCachedParsers_skip na σ mps port before rest :
  Forall (λ q, parseProtocol na σ mps q = Nil) before →
  tryCachedParsers na σ mps port (before ++ rest)
  = tryCachedParsers na σ mps port rest.
Proof.
  induction 1 as [|q before Hq _ IH]; [done|]. simpl. by rewrite Hq.
Qed.

Lemma scanParsers_skip na σ mps port before rest :
  Forall (λ q, parseProtocol na σ mps q = Nil) before →
  scanParsers na σ mps port (before ++ rest)
  = scanParsers na σ mps port rest.
Proof.
  induction 1 as [|q before Hq _ IH]; [done|]. simpl. by rewrite Hq.
Qed.

Lemma tryCachedParsers_all_fail na σ mps port cs :
  Forall (λ q, parseProtocol na σ mps q = Nil) cs →
  tryCachedParsers na σ mps port cs = Nil.
Proof.
  intros H. rewrite <- (app_nil_r cs). by rewrite tryCachedParsers_skip.
Qed.

(** ** Static port mapping *)

Lemma insert_keys (l : list string) i (x : AttrValue) (m : AttributeMap) :
  i ∈ l → (∀ k, is_Some (m !! k) → k ∈ l) →
  ∀ k, is_Some (<[i:=x]> m !! k) → k ∈ l.
Proof.
  intros Hi Hm k Hk. destruct (decide (i = k)) as [<-|Hne]; [done|].
  rewrite lookup_insert_ne in Hk by done. by apply Hm.
Qed.

Ltac builder_label :=
  apply list_elem_of_In; cbv; tauto.

(** The record for a static protocol whose parser is missing or failed:
    labelled with the protocol, and with no label besides the builder's. *)
Lemma getRecords_protocol_only na σ mps reqs staticProtocol :
  requests mps = Some reqs →
  ∃ r, getRecords na σ mps staticProtocol None = Records (σ, [r]) ∧
       Labels r !! constlabels.Protocol = Some (StrV staticProtocol) ∧
       ∀ k, is_Some (Labels r !! k) → k ∈ builderLabels.
Proof.
  intros Hr. unfold getRecords. rewrite Hr. cbn [hasHttpContinue].
  eexists. split; [reflexivity|]. cbn [Labels].
  unfold_labels. unfold Attr.Merge, Attr.GetBoolValue.
  split.
  - destruct (natTuple mps), (responses mps);
      cbn [fmap option_fmap option_map bool_decide decide_rel is_Some_dec].
      all: repeat (rewrite ?lookup_insert_eq; rewrite ?lookup_insert_ne by done; cbn [negb andb id]).
      all: done.
  - destruct (natTuple mps), (responses mps);
      cbn [fmap option_fmap option_map bool_decide decide_rel is_Some_dec].
      all: repeat (rewrite ?lookup_insert_eq; rewrite ?lookup_insert_ne by done; cbn [negb andb id]).
      all: repeat (apply insert_keys; [builder_label|]).
      all: intros k [v Hv]; unfold poolGet in Hv; cbn [Labels] in Hv;
        by rewrite lookup_empty in Hv.
Qed.

Lemma parseProtocols_static na σ mps staticProtocol :
  staticPortMap na !! Pairs.getPort mps = Some staticProtocol →
  parseProtocols na σ mps =
  match requests mps with
  | None => getConnectFailRecords na σ mps
  | Some _ =>
      match protocolMap na !! staticProtocol with
      | Some parser =>
          match parseProtocol na σ mps parser with
          | Panic => Panic
          | Records r => Records r
          | Nil => getRecords na σ mps staticProtocol None
          end
      | None => getRecords na σ mps staticProtocol None
      end
  end.
Proof. intros H. unfold parseProtocols. by rewrite H. Qed.

(** C7.  When the destination port has a statically configured protocol, a
    flushed state (one with connects or requests) is resolved by that
    mapping alone: without requests it yields the single ConnectFail record;
    with requests, the records of the protocol's parser when it yields
    records, and otherwise (the parser fails or is not registered) one record
    labelled with the static protocol and carrying no label besides the
    builder's own.  The port cache and the per-port counters are never
    touched. *)
Theorem static_port_mapping_first na σ mps staticProtocol :
  staticPortMap na !! Pairs.getPort mps = Some staticProtocol →
  connects mps ≠ None ∨ requests mps ≠ None →
  (requests mps = None →
     ∃ r, parseProtocols na σ mps = Records (σ, [r]) ∧
          classification r = (true, constlabels.ConnectFail)) ∧
  (∀ reqs parser,
     requests mps = Some reqs → protocolMap na !! staticProtocol = Some parser →
     match parseProtocol na σ mps parser with
     | Records (σ', records) => parseProtocols na σ mps = Records (σ', records)
     | Nil =>
         ∃ r, parseProtocols na σ mps = Records (σ, [r]) ∧
              Labels r !! constlabels.Protocol = Some (StrV staticProtocol) ∧
              ∀ k, is_Some (Labels r !! k) → k ∈ builderLabels
     | Panic => parseProtocols na σ mps = Panic
     end) ∧
  (∀ reqs,
     requests mps = Some reqs → protocolMap na !! staticProtocol = None →
     ∃ r, parseProtocols na σ mps = Records (σ, [r]) ∧
          Labels r !! constlabels.Protocol = Some (StrV staticProtocol) ∧
          ∀ k, is_Some (Labels r !! k) → k ∈ builderLabels) ∧
  (∀ σ' records,
     parseProtocols na σ mps = Records (σ', records) →
     cachedParsersMap σ' = cachedParsersMap σ ∧ portCounts σ' = portCounts σ).
Proof.
  intros Hstatic Hguard. rewrite (parseProtocols_static _ _ _ _ Hstatic).
  split; [|split; [|split]].
  - intros Hr. rewrite Hr.
    destruct (connects mps) as [conns|] eqn:Hc; [|by destruct Hguard].
    by eapply connectFail_class.
  - intros reqs parser Hr Hp. rewrite Hr, Hp.
    destruct (parseProtocol na σ mps parser) as [| |[σ' records]]; [done| |done].
    by eapply getRecords_protocol_only.
  - intros reqs Hr Hp. rewrite Hr, Hp. by eapply getRecords_protocol_only.
  - intros σ' records.
    destruct (requests mps) as [reqs|] eqn:Hr.
    + assert (∀ x, getRecords na σ mps staticProtocol None = Records x →
                   cachedParsersMap x.1 = cachedParsersMap σ ∧
                   portCounts x.1 = portCounts σ) as Hg.
      { intros [σ1 r1] H1. apply getRecords_frame, reinserted_registry in H1.
        simpl. tauto. }
      destruct (protocolMap na !! staticProtocol) as [parser|].
      * destruct (parseProtocol na σ mps parser) as [| |[σ1 r1]] eqn:Ep; [done| |].
        -- intros H. apply (Hg _ H).
        -- intros [= <- <-]. apply parseProtocol_frame, reinserted_registry in Ep.
           tauto.
      * intros H. apply (Hg _ H).
    + intros H. apply getConnectFailRecords_frame in H. by subst.
Qed.

(** Port 53 is statically mapped to DNS: the two queries of scenario S5 are
    resolved by the DNS parser, with no use of the port cache. *)
Lemma static_port_mapping_first_witness :
  let na := Sample.analyzer {[ 53 := "dns" ]} {[ "dns" := Sample.tcpDns ]} [] in
  ∃ σ' records,
    parseProtocols na initialState Sample.s5 = Records (σ', records) ∧
    length records = 2%nat ∧
    cachedParsersMap σ' = ∅ ∧ portCounts σ' = ∅.
Proof.
  intros na.
  assert (∃ x, parseProtocols na initialState Sample.s5 = Records x ∧
               length x.2 = 2%nat) as ([σ' records] & E & Hl).
  { vm_compute. eexists (_, _). split; reflexivity. }
  exists σ', records. split; [done|]. split; [exact Hl|].
  assert (staticPortMap na !! Pairs.getPort Sample.s5 = Some "dns") as Hs
    by (vm_compute; reflexivity).
  assert (connects Sample.s5 ≠ None ∨ requests Sample.s5 ≠ None) as Hg
    by (right; discriminate).
  destruct (static_port_mapping_first na initialState Sample.s5 "dns" Hs Hg)
    as (_ & _ & _ & Hreg).
  destruct (Hreg σ' records E) as [-> ->]. done.
Defined.

(** ** Port-cache feedback *)

Lemma not_cached_after_remove port parser σ :
  ¬ Registry.cached port parser (Registry.RemoveCachedParser port parser σ).
Proof.
  intros (l & q & Hl & Hq & Hid).
  unfold Registry.RemoveCachedParser in Hl. simpl in Hl.
  rewrite lookup_alter_eq in Hl.
  destruct (cachedParsersMap σ !! port) as [l0|]; [|done].
  injection Hl as <-. apply list_elem_of_filter in Hq as [Hne _]. done.
Qed.

Lemma cached_after_add port parser σ :
  Registry.cached port parser (Registry.AddCachedParser port parser σ).
Proof.
  exists (default [] (cachedParsersMap σ !! port) ++ [parser]), parser.
  split; [apply lookup_insert_eq|]. split; [|done].
  apply elem_of_app. right. apply list_elem_of_singleton. done.
Qed.

(** C5.  For a flushed state with requests on a port without static
    mapping.  Full-scan step (no cached parser yields records): the first
    parser of the list that yields records has its per-port counter
    incremented, and it is installed into the port cache exactly when the
    incremented counter equals CACHE_ADD_THRESHOLD; otherwise the cache is
    left as it is.  Cached-parsers step: when the first cached parser that
    yields records is the no-support sentinel, its per-port counter is
    incremented, and exactly when the incremented counter equals
    CACHE_RESET_THRESHOLD the counter is reset and the sentinel evicted from
    the cache of the port; a hit of any other cached parser changes neither
    counter nor cache. *)
Theorem port_cache_thresholds na σ mps reqs :
  let port := Pairs.getPort mps in
  staticPortMap na !! port = None →
  requests mps = Some reqs →
  (∀ before parser after σ1 records,
     parsers na = before ++ parser :: after →
     match Registry.GetCachedParsersByPort port σ with
     | Some cs => Forall (λ q, parseProtocol na σ mps q = Nil) cs
     | None => True
     end →
     Forall (λ q, parseProtocol na σ mps q = Nil) before →
     parseProtocol na σ mps parser = Records (σ1, records) →
     let count := GoLib.to_uint32 (Registry.portCount parser port σ + 1) in
     ∃ σ', parseProtocols na σ mps = Records (σ', records) ∧
           heap σ' = heap σ1 ∧ requestMonitor σ' = requestMonitor σ ∧
           Registry.portCount parser port σ' = count ∧
           (count = CACHE_ADD_THRESHOLD →
              Registry.cached port parser σ' ∧
              cachedParsersMap σ' =
              <[port := default [] (cachedParsersMap σ !! port) ++ [parser]]>
                (cachedParsersMap σ)) ∧
           (count ≠ CACHE_ADD_THRESHOLD →
              cachedParsersMap σ' = cachedParsersMap σ)) ∧
  (∀ before parser after σ1 records,
     Registry.GetCachedParsersByPort port σ = Some (before ++ parser :: after) →
     Forall (λ q, parseProtocol na σ mps q = Nil) before →
     parseProtocol na σ mps parser = Records (σ1, records) →
     let count := GoLib.to_uint32 (Registry.portCount parser port σ + 1) in
     ∃ σ', parseProtocols na σ mps = Records (σ', records) ∧
           heap σ' = heap σ1 ∧ requestMonitor σ' = requestMonitor σ ∧
           (GetProtocol parser = protocol.NOSUPPORT → count = CACHE_RESET_THRESHOLD →
              portCounts σ' !! (parser_id parser, port) = None ∧
              ¬ Registry.cached port parser σ' ∧
              cachedParsersMap σ' =
              alter (filter (λ q, parser_id q ≠ parser_id parser)) port
                (cachedParsersMap σ)) ∧
           (GetProtocol parser = protocol.NOSUPPORT → count ≠ CACHE_RESET_THRESHOLD →
              Registry.portCount parser port σ' = count ∧
              cachedParsersMap σ' = cachedParsersMap σ ∧
              Registry.cached port parser σ') ∧
           (GetProtocol parser ≠ protocol.NOSUPPORT →
              portCounts σ' = portCounts σ ∧
              cachedParsersMap σ' = cachedParsersMap σ)).
Proof.
  intros port Hstatic Hr. split.
  - intros before parser after σ1 records Hps Hcache Hbefore Hp count.
    pose proof (reinserted_registry _ _ _ (parseProtocol_frame _ _ _ _ _ _ Hp))
      as (Hrm & Hcm & Hpc & _).
    assert (Registry.portCount parser port σ1 = Registry.portCount parser port σ) as Hcnt
      by (unfold Registry.portCount; by rewrite Hpc).
    unfold parseProtocols. fold port. rewrite Hstatic, Hr.
    assert (match Registry.GetCachedParsersByPort port σ with
            | Some cacheParsers => tryCachedParsers na σ mps port cacheParsers
            | None => Nil
            end = Nil) as ->.
    { destruct (Registry.GetCachedParsersByPort port σ); [|done].
      by apply tryCachedParsers_all_fail. }
    rewrite Hps, (scanParsers_skip _ _ _ _ _ _ Hbefore).
    cbn [scanParsers]. rewrite Hp.
    unfold Registry.AddPortCount. rewrite Hcnt. fold count.
    destruct (count =? CACHE_ADD_THRESHOLD) eqn:Ec.
    + apply Z.eqb_eq in Ec. eexists. split; [reflexivity|].
      split; [done|]. split; [done|]. split.
      { unfold Registry.portCount. simpl. by rewrite lookup_insert_eq. }
      split; [|done]. intros _. split; [apply cached_after_add|].
      simpl. by rewrite Hcm.
    + apply Z.eqb_neq in Ec. eexists. split; [reflexivity|].
      split; [done|]. split; [done|]. split.
      { unfold Registry.portCount. simpl. by rewrite lookup_insert_eq. }
      split; [done|]. intros _. done.
  - intros before parser after σ1 records Hcs Hbefore Hp count.
    pose proof (reinserted_registry _ _ _ (parseProtocol_frame _ _ _ _ _ _ Hp))
      as (Hrm & Hcm & Hpc & _).
    assert (Registry.portCount parser port σ1 = Registry.portCount parser port σ) as Hcnt
      by (unfold Registry.portCount; by rewrite Hpc).
    unfold parseProtocols. fold port. rewrite Hstatic, Hr, Hcs.
    rewrite (tryCachedParsers_skip _ _ _ _ _ _ Hbefore).
    cbn [tryCachedParsers]. rewrite Hp.
    destruct (String.eqb_spec protocol.NOSUPPORT (GetProtocol parser)) as [Hn|Hn].
    + unfold Registry.AddPortCount. rewrite Hcnt. fold count.
      destruct (count =? CACHE_RESET_THRESHOLD) eqn:Ec.
      * apply Z.eqb_eq in Ec. eexists. split; [reflexivity|].
        split; [done|]. split; [done|].
        split; [|split; [done|done]]. intros _ _.
        split; [simpl; apply lookup_delete_eq|].
        split; [apply not_cached_after_remove|].
        simpl. by rewrite Hcm.
      * apply Z.eqb_neq in Ec. eexists. split; [reflexivity|].
        split; [done|]. split; [done|].
        split; [done|]. split; [|done]. intros _ _.
        split; [unfold Registry.portCount; simpl; by rewrite lookup_insert_eq|].
        split; [done|].
        exists (before ++ parser :: after), parser. simpl. rewrite Hcm.
        split; [done|]. split; [|done].
        apply elem_of_app. right. left.
    + eexists. split; [reflexivity|].
      split; [done|]. split; [done|].
      split; [done|]. split; [done|]. done.
Qed.

(** The 50th success of the generic parser on port 8080 installs it; its
    5000th hit from the cache evicts it and clears the counter. *)
Lemma port_cache_thresholds_witness :
  let na := Sample.analyzer ∅ ∅ [Sample.genericParser] in
  (∃ σ' records,
     parseProtocols na (Sample.registry ∅ 49) Sample.plainRequest
       = Records (σ', records) ∧
     Registry.portCount Sample.genericParser 8080 σ' = 50 ∧
     Registry.cached 8080 Sample.genericParser σ') ∧
  (∃ σ' records,
     parseProtocols na
       (Sample.registry {[ 8080 := [Sample.genericParser] ]} 4999) Sample.plainRequest
       = Records (σ', records) ∧
     portCounts σ' !! (3%nat, 8080) = None ∧
     ¬ Registry.cached 8080 Sample.genericParser σ').
Proof.
  intros na. split.
  - destruct (parseProtocol na (Sample.registry ∅ 49) Sample.plainRequest
                Sample.genericParser) as [| |[σ1 records]] eqn:Ep;
      [discriminate Ep .. |].
    destruct (port_cache_thresholds na (Sample.registry ∅ 49) Sample.plainRequest _
                eq_refl eq_refl) as [Hscan _].
    destruct (Hscan [] Sample.genericParser [] σ1 records eq_refl I (Forall_nil_2 _) Ep)
      as (σ' & Hpp & _ & _ & Hcount & Hadd & _).
    exists σ', records. split; [exact Hpp|]. split; [exact Hcount|].
    apply Hadd. reflexivity.
  - destruct (parseProtocol na (Sample.registry {[ 8080 := [Sample.genericParser] ]} 4999)
                Sample.plainRequest Sample.genericParser) as [| |[σ1 records]] eqn:Ep;
      [discriminate Ep .. |].
    destruct (port_cache_thresholds na
                (Sample.registry {[ 8080 := [Sample.genericParser] ]} 4999)
                Sample.plainRequest _ eq_refl eq_refl) as [_ Hcached].
    destruct (Hcached [] Sample.genericParser [] σ1 records eq_refl (Forall_nil_2 _) Ep)
      as (σ' & Hpp & _ & _ & Hevict & _).
    exists σ', records. split; [exact Hpp|].
    destruct (Hevict eq_refl eq_refl) as (Hc & Hn & _). done.
Defined.

(** ** The timeout sweeper *)

Lemma flush_nothing na σ p newp σ' :
  flush na σ p newp = Some (σ', []) → σ' = σ.
Proof.
  unfold flush. destruct (distributeTraceMetric na σ p newp) as [| |[σ1 r]]; [done| |done].
  by intros [= <-].
Qed.

(** With a no-response threshold of 10 s below an fd-reuse timeout of 15 s,
    a state whose response is 12 s old is flushed. *)
Lemma sweeper_flushes_response_before_fd_reuse :
  ¬ sweeper_waits_fd_reuse_for_responses.
Proof.
  intros H.
  destruct (sweepEntry Sample.eagerAnalyzer 113000000000
              (Sample.oneFlow Sample.answered) 0%nat) as [[σ' es]|] eqn:E;
    [|vm_compute in E; discriminate E].
  assert (es ≠ []) as Hes.
  { intros ->. vm_compute in E. discriminate E. }
  destruct (H Sample.eagerAnalyzer 113000000000 (Sample.oneFlow Sample.answered)
              0%nat Sample.answered σ' es eq_refl E Hes) as [Hfd _].
  specialize (Hfd (ex_intro _ _ eq_refl)).
  vm_compute in Hfd. by apply Hfd.
Qed.

(** C2 (amended).  The sweeper's callback flushes a state (changes the
    state map or emits) only if the state has a last-event timestamp other
    than 0 and its idle time, the difference between the clock and that
    timestamp in whole seconds, satisfies: for a state with responses, at
    least fdReuseTimeout or at least noResponseThreshold (so at least
    fdReuseTimeout whenever noResponseThreshold is not below it); for a state
    without responses, at least noResponseThreshold.  Whenever that condition
    holds the callback is the flush of the state with no replacement. *)
Theorem sweeper_timeout_classification na now σ p mps :
  heap σ !! p = Some mps →
  let idle := idleSeconds now (Pairs.getTimeoutTs mps) in
  let fd := GetFdReuseTimeout (cfg na) in
  let nr := getNoResponseThreshold (cfg na) in
  (∀ σ' es,
     sweepEntry na now σ p = Some (σ', es) → σ' ≠ σ ∨ es ≠ [] →
     Pairs.getTimeoutTs mps ≠ 0 ∧
     (is_Some (responses mps) → fd ≤ idle ∨ nr ≤ idle) ∧
     (is_Some (responses mps) → fd ≤ nr → fd ≤ idle) ∧
     (responses mps = None → nr ≤ idle)) ∧
  (Pairs.getTimeoutTs mps ≠ 0 →
   (is_Some (responses mps) ∧ fd ≤ idle) ∨ nr ≤ idle →
   sweepEntry na now σ p = flush na σ p None).
Proof.
  intros Hp idle fd nr. unfold sweepEntry. rewrite Hp. simpl.
  fold idle fd nr.
  destruct (Z.eqb_spec (Pairs.getTimeoutTs mps) 0) as [Hz|Hz]; simpl.
  { split; [|done]. intros σ' es [= <- <-] [?|?]; done. }
  destruct (Z.leb_spec fd idle) as [Hfd|Hfd];
    destruct (Z.leb_spec nr idle) as [Hnr|Hnr];
    destruct (responses mps) as [resps|] eqn:Hresp; simpl.
  all: split;
    [ intros σ' es Hs Hch;
      first [ injection Hs as <- <-; by destruct Hch
            | split; [done|]; split; [intros _; by auto|];
              split; [intros _ ?; lia|]; (intros ?; by try lia) ]
    | intros _ Hc; first [ done | exfalso; destruct Hc as [[[? ?] ?]|?]; by try lia ] ].
Qed.

(** At the default thresholds (15 s and 120 s) a response 20 s old is
    flushed, its state's idle time being at least the fd-reuse timeout. *)
Lemma sweeper_timeout_classification_witness :
  let na := Sample.analyzer ∅ ∅ [] in
  let σ := Sample.oneFlow Sample.answered in
  ∃ σ' es,
    sweepEntry na 121000000000 σ 0%nat = Some (σ', es) ∧ es ≠ [] ∧
    GetFdReuseTimeout (cfg na)
      ≤ idleSeconds 121000000000 (Pairs.getTimeoutTs Sample.answered).
Proof.
  intros na σ.
  destruct (sweeper_timeout_classification na 121000000000 σ 0%nat Sample.answered
              eq_refl) as [Honly _].
  destruct (sweepEntry na 121000000000 σ 0%nat) as [[σ' es]|] eqn:E;
    [|vm_compute in E; discriminate E].
  assert (es ≠ []) as Hes.
  { intros ->. vm_compute in E. discriminate E. }
  exists σ', es. split; [done|]. split; [done|].
  destruct (Honly σ' es eq_refl (or_intror Hes)) as (_ & _ & Hfd & _).
  apply Hfd; [by eexists | vm_compute; discriminate].
Defined.

(** ** At-most-once emission *)

Lemma emissionsOf_nil p : emissionsOf p [] = 0%nat.
Proof. reflexivity. Qed.

Lemma emissionsOf_app p es1 es2 :
  emissionsOf p (es1 ++ es2) = (emissionsOf p es1 + emissionsOf p es2)%nat.
Proof. unfold emissionsOf. by rewrite filter_app, length_app. Qed.

Lemma emissionsOf_one p q (records : list DataGroup) :
  emissionsOf p [(q, records)] = if decide (q = p) then 1%nat else 0%nat.
Proof.
  unfold emissionsOf. rewrite filter_cons. simpl.
  destruct (decide (q = p)); reflexivity.
Qed.

Lemma latch_le_refl σ : latch_le σ σ.
Proof. by intros p. Qed.

Lemma latch_le_trans σ1 σ2 σ3 : latch_le σ1 σ2 → latch_le σ2 σ3 → latch_le σ1 σ3.
Proof. intros H1 H2 p Hp. by apply H2, H1. Qed.

Lemma latch_le_heap σ σ' : heap σ' = heap σ → latch_le σ σ'.
Proof. intros H p. unfold latched. by rewrite H. Qed.

Lemma latch_le_insert σ p m' :
  (∀ m, heap σ !! p = Some m → sent_once m = true → sent_once m' = true) →
  latch_le σ (set_heap <[p := m']> σ).
Proof.
  intros H q. unfold latched. simpl.
  destruct (decide (p = q)) as [<-|Hne].
  - rewrite lookup_insert_eq. destruct (heap σ !! p) as [m|]; [|done]. by apply H.
  - by rewrite lookup_insert_ne.
Qed.

Lemma latch_le_alter σ q f :
  (∀ m, sent_once (f m) = sent_once m) →
  latch_le σ (set_heap (alter f q) σ).
Proof.
  intros H p. unfold latched. simpl.
  destruct (decide (q = p)) as [<-|Hne].
  - rewrite lookup_alter_eq. destruct (heap σ !! q) as [m|]; simpl; [|done].
    by rewrite H.
  - by rewrite lookup_alter_ne.
Qed.

Lemma latch_le_alloc mps σ : latch_le σ (alloc mps σ).2.
Proof.
  unfold alloc. simpl. apply latch_le_insert.
  intros m Hm. exfalso.
  pose proof (is_fresh (dom (heap σ))) as Hf.
  apply Hf, elem_of_dom. by eexists.
Qed.

Lemma latch_le_reinserted mps σ σ' : reinserted mps σ σ' → latch_le σ σ'.
Proof.
  intros [-> | (reqs & q & _ & _ & ->)]; [apply latch_le_refl|].
  by apply latch_le_alter.
Qed.

Lemma once_quiet σ σ' : latch_le σ σ' → once σ σ' [].
Proof.
  intros H p. rewrite emissionsOf_nil. split; [|split]; [|lia|done].
  intros Hp. split; [by apply H | done].
Qed.

Lemma once_seq σ σ1 σ2 es1 es2 :
  once σ σ1 es1 → once σ1 σ2 es2 → once σ σ2 (es1 ++ es2).
Proof.
  intros H1 H2 p. rewrite emissionsOf_app.
  destruct (H1 p) as (H1a & H1b & H1c), (H2 p) as (H2a & H2b & H2c).
  split; [|split].
  - intros Hp. destruct (H1a Hp) as [Hl1 ->]. destruct (H2a Hl1) as [Hl2 ->]. done.
  - destruct (emissionsOf p es1) as [|[|n]] eqn:E1; [lia| |lia].
    destruct (H1c eq_refl) as [_ Hl1]. destruct (H2a Hl1) as [_ ->]. lia.
  - intros Hsum.
    destruct (emissionsOf p es1) as [|[|n]] eqn:E1.
    + destruct (H2c Hsum) as [Hf Ht]. split; [|done].
      destruct (latched σ p) eqn:El; [|done].
      destruct (H1a eq_refl) as [Hl1 _]. congruence.
    + destruct (H1c eq_refl) as [Hf Hl1]. split; [done|].
      by destruct (H2a Hl1).
    + lia.
Qed.

Lemma parseProtocols_frame_heap na σ mps σ' records :
  parseProtocols na σ mps = Records (σ', records) →
  heap σ' = heap σ ∨
  ∃ reqs q,
    requests mps = Some reqs ∧
    requestMonitor σ !! getMessagePairKey (event reqs) = Some q ∧
    heap σ' = alter (λ oldPairs, Pairs.putRequestBack oldPairs (requests mps)) q (heap σ).
Proof.
  assert (∀ σ0 σ1, reinserted mps σ0 σ1 → heap σ0 = heap σ →
                   requestMonitor σ0 = requestMonitor σ →
          heap σ1 = heap σ ∨
          ∃ reqs q,
            requests mps = Some reqs ∧
            requestMonitor σ !! getMessagePairKey (event reqs) = Some q ∧
            heap σ1 = alter (λ oldPairs, Pairs.putRequestBack oldPairs (requests mps)) q
                        (heap σ)) as Hre.
  { intros σ0 σ1 [-> | (reqs & q & Hr & Hq & ->)] Hh Hm; [by left|].
    right. exists reqs, q. simpl. by rewrite <- Hh, <- Hm. }
  assert (∀ port cs, tryCachedParsers na σ mps port cs = Records (σ', records) →
                     ∃ σ1, reinserted mps σ σ1 ∧ heap σ' = heap σ1) as Hcached.
  { intros port cs. induction cs as [|c cs IH]; [done|]. cbn [tryCachedParsers].
    destruct (parseProtocol na σ mps c) as [| |[σ1 r1]] eqn:Ep; [done|done|].
    apply parseProtocol_frame in Ep.
    destruct (String.eqb protocol.NOSUPPORT (GetProtocol c)).
    - unfold Registry.AddPortCount. cbv beta iota.
      destruct (Z.eqb _ CACHE_RESET_THRESHOLD); intros [= <- _]; by exists σ1.
    - intros [= <- _]. by exists σ1. }
  assert (∀ port cs, scanParsers na σ mps port cs = Records (σ', records) →
                     ∃ σ1, reinserted mps σ σ1 ∧ heap σ' = heap σ1) as Hscan.
  { intros port cs. induction cs as [|c cs IH]; [done|]. cbn [scanParsers].
    destruct (parseProtocol na σ mps c) as [| |[σ1 r1]] eqn:Ep; [done|done|].
    apply parseProtocol_frame in Ep.
    unfold Registry.AddPortCount. cbv beta iota.
    destruct (Z.eqb _ CACHE_ADD_THRESHOLD); intros [= <- _]; by exists σ1. }
  unfold parseProtocols.
  destruct (staticPortMap na !! Pairs.getPort mps) as [sp|].
  - destruct (requests mps) as [reqs|] eqn:Hr.
    + destruct (protocolMap na !! sp) as [parser|].
      * destruct (parseProtocol na σ mps parser) as [| |[σ1 r1]] eqn:Ep; [done| |].
        -- intros H. apply getRecords_frame in H. by eapply Hre.
        -- intros [= <- <-]. apply parseProtocol_frame in Ep. by eapply Hre.
      * intros H. apply getRecords_frame in H. by eapply Hre.
    + intros H. apply getConnectFailRecords_frame in H. subst. by left.
  - destruct (requests mps) as [reqs|] eqn:Hr.
    + destruct (Registry.GetCachedParsersByPort _ σ) as [cs|].
      * destruct (tryCachedParsers na σ mps _ cs) as [| |[σ1 r1]] eqn:Ec; [done| |].
        -- destruct (scanParsers na σ mps _ (parsers na)) as [| |[σ1 r1]] eqn:Es; [done| |].
           ++ intros H. apply getRecords_frame in H. by eapply Hre.
           ++ intros [= <- <-]. destruct (Hscan _ _ Es) as (σ2 & H2 & ->). by eapply Hre.
        -- intros [= <- <-]. destruct (Hcached _ _ Ec) as (σ2 & H2 & ->). by eapply Hre.
      * destruct (scanParsers na σ mps _ (parsers na)) as [| |[σ1 r1]] eqn:Es; [done| |].
        -- intros H. apply getRecords_frame in H. by eapply Hre.
        -- intros [= <- <-]. destruct (Hscan _ _ Es) as (σ2 & H2 & ->). by eapply Hre.
    + intros H. apply getConnectFailRecords_frame in H. subst. by left.
Qed.

Lemma latched_heap σ σ' p : heap σ' = heap σ → latched σ' p = latched σ p.
Proof. intros H. unfold latched. by rewrite H. Qed.

(** A set latch makes every call of [distributeTraceMetric] return at once. *)
Lemma distributeTraceMetric_latched na σ p newp :
  latched σ p = true → distributeTraceMetric na σ p newp = Nil.
Proof.
  unfold latched, distributeTraceMetric.
  destruct (heap σ !! p) as [m|]; [|done]. intros Hs.
  destruct (Pairs.keyEvent m); [|done].
  unfold Pairs.checkSend. by rewrite Hs.
Qed.

(** A call that emits finds the latch unset and leaves it set; no other
    latch is cleared. *)
Lemma distributeTraceMetric_emits na σ p newp σ' records :
  distributeTraceMetric na σ p newp = Records (σ', records) →
  latched σ p = false ∧ latched σ' p = true ∧ latch_le σ σ'.
Proof.
  unfold distributeTraceMetric.
  destruct (heap σ !! p) as [m|] eqn:Hm; [|done].
  destruct (Pairs.keyEvent m) as [queryEvt|]; [|done].
  unfold Pairs.checkSend. cbv beta iota.
  destruct (sent_once m) eqn:Hs; [done|]. cbn [negb].
  set (m1 := {| connects := connects m; requests := requests m;
                responses := responses m; natTuple := natTuple m;
                sent_once := true; maxPayloadLength := maxPayloadLength m |}).
  set (σ1 := set_heap <[p := m1]> σ).
  intros H.
  assert (∃ σ2, heap σ2 = heap σ1 ∧
            match parseProtocols na
                    (set_heap <[p := relateConntrack na queryEvt m1]> σ2)
                    (relateConntrack na queryEvt m1) with
            | Panic => Panic
            | Nil => Records (set_heap <[p := relateConntrack na queryEvt m1]> σ2,
                              distributeRecords [])
            | Records (σ4, recs) => Records (σ4, distributeRecords recs)
            end = Records (σ', records)) as (σ2 & Hh2 & Hpp).
  { destruct newp as [q|].
    - destruct (heap σ1 !! q) as [newPairs|]; [|done].
      eexists. split; [|exact H]. reflexivity.
    - eexists. split; [|exact H]. reflexivity. }
  clear H.
  set (m2 := relateConntrack na queryEvt m1) in *.
  assert (sent_once m2 = true) as Hs2.
  { unfold m2, relateConntrack. destruct (EnableConntrack _); [|done].
    by destruct (GetDNATTuple _ _ _ _ _ _). }
  set (σ3 := set_heap <[p := m2]> σ2) in *.
  assert (latched σ3 p = true) as Hl3.
  { unfold latched, σ3. simpl. by rewrite lookup_insert_eq. }
  assert (latch_le σ σ3) as Hle3.
  { intros r Hr. unfold latched, σ3 in *. simpl. rewrite Hh2. unfold σ1. simpl.
    destruct (decide (p = r)) as [<-|Hne].
    - by rewrite lookup_insert_eq.
    - by rewrite !lookup_insert_ne. }
  assert (latch_le σ3 σ') as Hle'.
  { destruct (parseProtocols na σ3 m2) as [| |[σ4 recs]] eqn:Epp; [done| |].
    - injection Hpp as <- _. apply latch_le_refl.
    - injection Hpp as <- _.
      destruct (parseProtocols_frame_heap _ _ _ _ _ Epp) as [Hh | (reqs & q & _ & _ & Hh)].
      + by apply latch_le_heap.
      + intros r. unfold latched. rewrite Hh.
        destruct (decide (q = r)) as [<-|Hne].
        * rewrite lookup_alter_eq. by destruct (heap σ3 !! q).
        * by rewrite lookup_alter_ne. }
  split; [unfold latched; by rewrite Hm|].
  split; [by apply Hle'|].
  by eapply latch_le_trans.
Qed.

Lemma flush_once na σ p newp σ' es :
  flush na σ p newp = Some (σ', es) → once σ σ' es.
Proof.
  unfold flush.
  destruct (distributeTraceMetric na σ p newp) as [| |[σ1 records]] eqn:E; [done| |].
  - intros [= <- <-]. apply once_quiet, latch_le_refl.
  - intros [= <- <-].
    destruct (distributeTraceMetric_emits _ _ _ _ _ _ E) as (Hf & Ht & Hle).
    intros r. rewrite emissionsOf_one.
    destruct (decide (p = r)) as [<-|Hne].
    + split; [congruence|]. split; [lia|]. done.
    + split; [|split; [lia|done]]. intros Hr. split; [by apply Hle|done].
Qed.

Lemma once_prefix σ σ1 σ' es :
  latch_le σ σ1 → once σ1 σ' es → once σ σ' es.
Proof.
  intros Hle H. rewrite <- (app_nil_l es).
  eapply once_seq; [|exact H]. by apply once_quiet.
Qed.

Lemma latch_le_merge σ p m m' :
  heap σ !! p = Some m → sent_once m' = sent_once m →
  latch_le σ (set_heap <[p := m']> σ).
Proof.
  intros Hm Hs. apply latch_le_insert. intros m0 Hm0 Hs0. congruence.
Qed.

Lemma analyseConnect_once na σ evt σ' es :
  analyseConnect na σ evt = Some (σ', es) → once σ σ' es.
Proof.
  unfold analyseConnect.
  match goal with |- context [alloc ?m σ] =>
    pose proof (latch_le_alloc m σ) as Hle; destruct (alloc m σ) as [p σ1] end.
  cbn [snd] in Hle. intros H. apply (once_prefix _ _ _ _ Hle). revert H.
  destruct (requestMonitor σ1 !! _) as [oldp|].
  - destruct (heap σ1 !! oldp) as [oldPairs|] eqn:Hold; [|done]. cbn [mbind option_bind].
    destruct (requests oldPairs), (connects oldPairs) as [conns|];
      try apply flush_once.
    destruct (Events.IsTimeout _ _ _); [apply flush_once|].
    intros [= <- <-]. apply once_quiet. by eapply latch_le_merge.
  - intros [= <- <-]. apply once_quiet, latch_le_heap. done.
Qed.

Lemma analyseRequest_once na σ evt σ' es :
  analyseRequest na σ evt = Some (σ', es) → once σ σ' es.
Proof.
  unfold analyseRequest.
  match goal with |- context [alloc ?m σ] =>
    pose proof (latch_le_alloc m σ) as Hle; destruct (alloc m σ) as [p σ1] end.
  cbn [snd] in Hle. intros H. apply (once_prefix _ _ _ _ Hle). revert H.
  destruct (requestMonitor σ1 !! _) as [oldp|].
  - destruct (heap σ1 !! oldp) as [oldPairs|] eqn:Hold; [|done]. cbn [mbind option_bind].
    destruct (requests oldPairs) as [oldReqs|].
    + destruct (_ || _); [apply flush_once|].
      intros [= <- <-]. apply once_quiet. by eapply latch_le_merge.
    + destruct (connects oldPairs).
      * intros [= <- <-]. apply once_quiet.
        apply latch_le_trans with (set_heap <[oldp := Pairs.mergeRequest oldPairs evt]> σ1);
          [by eapply latch_le_merge | by apply latch_le_heap].
      * intros [= <- <-]. apply once_quiet, latch_le_heap. done.
  - intros [= <- <-]. apply once_quiet, latch_le_heap. done.
Qed.

Lemma analyseResponse_once na σ evt σ' es :
  analyseResponse na σ evt = Some (σ', es) → once σ σ' es.
Proof.
  unfold analyseResponse.
  destruct (requestMonitor σ !! _) as [oldp|].
  - destruct (heap σ !! oldp) as [oldPairs|] eqn:Hold; [|done]. simpl.
    destruct (requests oldPairs).
    + intros [= <- <-]. apply once_quiet.
      apply latch_le_trans with (set_heap <[oldp := Pairs.mergeResponse oldPairs evt]> σ);
        [by eapply latch_le_merge | by apply latch_le_heap].
    + intros [= <- <-]. apply once_quiet, latch_le_refl.
  - intros [= <- <-]. apply once_quiet, latch_le_refl.
Qed.

Lemma sweepEntry_once na now σ p σ' es :
  sweepEntry na now σ p = Some (σ', es) → once σ σ' es.
Proof.
  unfold sweepEntry. destruct (heap σ !! p) as [mps|]; [|done]. simpl.
  destruct (negb _); [|intros [= <- <-]; apply once_quiet, latch_le_refl].
  destruct (_ && _); [apply flush_once|].
  destruct (_ <=? _); [apply flush_once|].
  intros [= <- <-]. apply once_quiet, latch_le_refl.
Qed.

Lemma sweepEntries_once na now ps σ σ' es :
  sweepEntries na now σ ps = Some (σ', es) → once σ σ' es.
Proof.
  revert σ σ' es. induction ps as [|p ps IH]; intros σ σ' es.
  - intros [= <- <-]. apply once_quiet, latch_le_refl.
  - cbn [sweepEntries].
    destruct (sweepEntry na now σ p) as [[σ1 es1]|] eqn:E1; [|done]. simpl.
    destruct (sweepEntries na now σ1 ps) as [[σ2 es2]|] eqn:E2; [|done]. simpl.
    intros [= <- <-]. eapply once_seq; [by eapply sweepEntry_once | by eapply IH].
Qed.

Lemma step_once na σ a σ' es :
  step na σ a = Some (σ', es) → once σ σ' es.
Proof.
  destruct a; simpl.
  - apply analyseConnect_once.
  - apply analyseRequest_once.
  - apply analyseResponse_once.
  - apply sweepEntries_once.
  - apply flush_once.
Qed.

Lemma run_once na acts σ σ' es :
  run na σ acts = Some (σ', es) → once σ σ' es.
Proof.
  revert σ σ' es. induction acts as [|a acts IH]; intros σ σ' es.
  - intros [= <- <-]. apply once_quiet, latch_le_refl.
  - cbn [run].
    destruct (step na σ a) as [[σ1 es1]|] eqn:E1; [|done]. simpl.
    destruct (run na σ1 acts) as [[σ2 es2]|] eqn:E2; [|done]. simpl.
    intros [= <- <-]. eapply once_seq; [by eapply step_once | by eapply IH].
Qed.

(** C1.  In every run of the analyzer (router events, sweeper ticks, and
    flushes by a task that still holds a pointer to a state, in any order),
    every FlowState is emitted for at most once, and not at all when its
    latch was already set; the latch is never cleared, an emission is the
    call that turns it from unset to set, and once it is set every later
    [distributeTraceMetric] on the state returns before emitting. *)
Theorem at_most_once_emission na σ acts σ' es :
  run na σ acts = Some (σ', es) →
  ∀ p,
    (emissionsOf p es + (if latched σ p then 1 else 0) ≤ 1)%nat ∧
    (latched σ p = true → latched σ' p = true) ∧
    (emissionsOf p es = 1%nat → latched σ p = false ∧ latched σ' p = true) ∧
    (latched σ' p = true →
       ∀ newp, distributeTraceMetric na σ' p newp = Nil ∧
               flush na σ' p newp = Some (σ', [])).
Proof.
  intros Hrun p. destruct (run_once _ _ _ _ _ Hrun p) as (Ha & Hb & Hc).
  split; [|split; [|split]].
  - destruct (latched σ p); [|lia]. destruct (Ha eq_refl) as [_ ->]. lia.
  - intros Hp. by destruct (Ha Hp).
  - exact Hc.
  - intros Hl newp. pose proof (distributeTraceMetric_latched na σ' p newp Hl) as Hn.
    split; [done|]. unfold flush. by rewrite Hn.
Qed.

(** Scenario S6 with a race: a request, a request from another source port
    (the router flushes the first state), then the sweeper's flush of the
    first state, to which it still holds a pointer, and a tick.  The first
    state is emitted once. *)
Lemma at_most_once_emission_witness :
  let na := Sample.analyzer ∅ ∅ [] in
  let r1 := Sample.evt 1 10 1 40000 8080 100 (Sample.bs [1]%N) in
  let r2 := Sample.evt 1 10 1 40001 8080 200 (Sample.bs [2]%N) in
  let acts := [Request r1; Request r2; Flush 0%nat None; Sweep 500000000000] in
  ∃ σ' es,
    run na initialState acts = Some (σ', es) ∧
    emissionsOf 0%nat es = 1%nat ∧ length es = 2%nat ∧
    latched σ' 0%nat = true ∧
    ∀ newp, distributeTraceMetric na σ' 0%nat newp = Nil.
Proof.
  intros na r1 r2 acts.
  assert (∃ x, run na initialState acts = Some x ∧
               emissionsOf 0%nat x.2 = 1%nat ∧ length x.2 = 2%nat)
    as ([σ' es] & Hrun & He & Hl).
  { vm_compute. eexists (_, _). repeat split. }
  exists σ', es. split; [done|]. split; [done|]. split; [done|].
  destruct (at_most_once_emission na initialState acts σ' es Hrun 0%nat)
    as (_ & _ & Hc & Hd).
  destruct (Hc He) as [_ Ht]. split; [done|].
  intros newp. by destruct (Hd Ht newp).
Defined.

(** ** The invariant of the flow state map *)

Lemma keyed_getKey k m : keyed k m → Pairs.getKey m = k.
Proof.
  intros (Hc & Hr & Hk). unfold Pairs.getKey.
  unfold Pairs.keyEvent in *.
  destruct (connects m) as [c|]; [by apply Hc|].
  destruct (requests m) as [r|]; [by apply Hr|]. by destruct Hk.
Qed.

Lemma wf_unique σ k k' p :
  wf σ → requestMonitor σ !! k = Some p → requestMonitor σ !! k' = Some p → k = k'.
Proof.
  intros Hwf H1 H2.
  destruct (Hwf _ _ H1) as (m & Hm & _ & Hk).
  destruct (Hwf _ _ H2) as (m' & Hm' & _ & Hk').
  rewrite Hm in Hm'. injection Hm' as <-.
  by rewrite <- (keyed_getKey _ _ Hk), <- (keyed_getKey _ _ Hk').
Qed.

Lemma wf_initial : wf initialState.
Proof. intros k p H. cbn in H. by rewrite lookup_empty in H. Qed.

Lemma fresh_not_stored σ k :
  wf σ → requestMonitor σ !! k ≠ Some (fresh (dom (heap σ))).
Proof.
  intros Hwf H. destruct (Hwf _ _ H) as (m & Hm & _).
  apply (is_fresh (dom (heap σ))), elem_of_dom. by eexists.
Qed.

Lemma parseProtocols_not_nil na σ mps : parseProtocols na σ mps ≠ Nil.
Proof.
  assert (∀ sp a, getRecords na σ mps sp a ≠ Nil) as Hg.
  { intros sp a. unfold getRecords. destruct (requests mps); [|done].
    destruct (hasHttpContinue a); [|done]. by destruct (requestMonitor σ !! _). }
  assert (getConnectFailRecords na σ mps ≠ Nil) as Hc.
  { unfold getConnectFailRecords. by destruct (connects mps). }
  unfold parseProtocols.
  destruct (staticPortMap na !! _) as [sp|].
  - destruct (requests mps); [|done].
    destruct (protocolMap na !! sp) as [parser|]; [|done].
    by destruct (parseProtocol na σ mps parser).
  - destruct (requests mps); [|done].
    destruct (match Registry.GetCachedParsersByPort _ σ with
              | Some cs => tryCachedParsers na σ mps _ cs | None => Nil end); [done| |done].
    by destruct (scanParsers na σ mps _ (parsers na)).
Qed.

Lemma distributeTraceMetric_unsent na σ oldp newp old queryEvt :
  heap σ !! oldp = Some old → Pairs.keyEvent old = Some queryEvt →
  sent_once old = false →
  distributeTraceMetric na σ oldp newp =
  match flushing na σ oldp newp old queryEvt with
  | None => Panic
  | Some (σ3, old') =>
      match parseProtocols na σ3 old' with
      | Panic => Panic
      | Nil => Records (σ3, [])
      | Records (σ4, records) => Records (σ4, records)
      end
  end.
Proof.
  intros Hold Hk Hs. unfold distributeTraceMetric, flushing.
  rewrite Hold, Hk. unfold Pairs.checkSend. rewrite Hs. cbn [negb fst snd].
  cbv beta iota.
  destruct newp as [q|]; [|done].
  by destruct (heap (set_heap _ σ) !! q).
Qed.

Lemma parseProtocols_monitor na σ mps σ' records :
  parseProtocols na σ mps = Records (σ', records) →
  requestMonitor σ' = requestMonitor σ.
Proof.
  assert (∀ σ0 σ1, reinserted mps σ0 σ1 → requestMonitor σ1 = requestMonitor σ0) as Hre.
  { intros σ0 σ1 H. by apply reinserted_registry in H as (-> & _). }
  assert (∀ port cs, tryCachedParsers na σ mps port cs = Records (σ', records) →
                     requestMonitor σ' = requestMonitor σ) as Hcached.
  { intros port cs. induction cs as [|c cs IH]; [done|]. cbn [tryCachedParsers].
    destruct (parseProtocol na σ mps c) as [| |[σ1 r1]] eqn:Ep; [done|done|].
    apply parseProtocol_frame, Hre in Ep.
    destruct (String.eqb protocol.NOSUPPORT (GetProtocol c)).
    - unfold Registry.AddPortCount. cbv beta iota.
      destruct (Z.eqb _ CACHE_RESET_THRESHOLD); by intros [= <- _].
    - by intros [= <- _]. }
  assert (∀ port cs, scanParsers na σ mps port cs = Records (σ', records) →
                     requestMonitor σ' = requestMonitor σ) as Hscan.
  { intros port cs. induction cs as [|c cs IH]; [done|]. cbn [scanParsers].
    destruct (parseProtocol na σ mps c) as [| |[σ1 r1]] eqn:Ep; [done|done|].
    apply parseProtocol_frame, Hre in Ep.
    unfold Registry.AddPortCount. cbv beta iota.
    destruct (Z.eqb _ CACHE_ADD_THRESHOLD); by intros [= <- _]. }
  unfold parseProtocols.
  destruct (staticPortMap na !! Pairs.getPort mps) as [sp|].
  - destruct (requests mps) as [reqs|] eqn:Hr.
    + destruct (protocolMap na !! sp) as [parser|].
      * destruct (parseProtocol na σ mps parser) as [| |[σ1 r1]] eqn:Ep; [done| |].
        -- intros H. by apply getRecords_frame, Hre in H.
        -- intros [= <- <-]. by apply parseProtocol_frame, Hre in Ep.
      * intros H. by apply getRecords_frame, Hre in H.
    + intros H. apply getConnectFailRecords_frame in H. by subst.
  - destruct (requests mps) as [reqs|] eqn:Hr.
    + destruct (Registry.GetCachedParsersByPort _ σ) as [cs|].
      * destruct (tryCachedParsers na σ mps _ cs) as [| |[σ1 r1]] eqn:Ec; [done| |].
        -- destruct (scanParsers na σ mps _ (parsers na)) as [| |[σ1 r1]] eqn:Es; [done| |].
           ++ intros H. by apply getRecords_frame, Hre in H.
           ++ intros [= <- <-]. by eapply Hscan.
        -- intros [= <- <-]. by eapply Hcached.
      * destruct (scanParsers na σ mps _ (parsers na)) as [| |[σ1 r1]] eqn:Es; [done| |].
        -- intros H. by apply getRecords_frame, Hre in H.
        -- intros [= <- <-]. by eapply Hscan.
    + intros H. apply getConnectFailRecords_frame in H. by subst.
Qed.

Lemma wf_ext σ σ' :
  requestMonitor σ' = requestMonitor σ → heap σ' = heap σ → wf σ → wf σ'.
Proof. intros Hm Hh Hwf k p. rewrite Hm, Hh. apply Hwf. Qed.

Lemma keyed_putRequestBack k m origin :
  keyed k m → getMessagePairKey (event origin) = k →
  keyed k (Pairs.putRequestBack m (Some origin)).
Proof.
  intros (Hc & Hr & Hk) Ho. split; [|split].
  - exact Hc.
  - simpl. intros r. destruct (requests m); by intros [= <-].
  - unfold Pairs.keyEvent. simpl.
    destruct (connects m); [by eexists|]. destruct (requests m); by eexists.
Qed.

(** Putting a request buffer of the flow back into the state stored under
    the flow's key keeps the invariant. *)
Lemma wf_reinsert σ origin q :
  wf σ → requestMonitor σ !! getMessagePairKey (event origin) = Some q →
  wf (set_heap (alter (λ oldPairs, Pairs.putRequestBack oldPairs (Some origin)) q) σ).
Proof.
  intros Hwf Hq k p Hp. simpl in *.
  destruct (Hwf _ _ Hp) as (m & Hm & Hs & Hk).
  destruct (decide (q = p)) as [<-|Hne].
  - rewrite lookup_alter_eq, Hm. simpl. eexists. split; [done|]. split; [done|].
    apply keyed_putRequestBack; [done|]. by eapply wf_unique.
  - rewrite lookup_alter_ne by done. by exists m.
Qed.

Lemma wf_parseProtocols na σ mps σ' records k :
  wf σ → (∀ r, requests mps = Some r → getMessagePairKey (event r) = k) →
  parseProtocols na σ mps = Records (σ', records) → wf σ'.
Proof.
  intros Hwf Hk Hpp.
  pose proof (parseProtocols_monitor _ _ _ _ _ Hpp) as Hm.
  destruct (parseProtocols_frame_heap _ _ _ _ _ Hpp) as [Hh | (reqs & q & Hr & Hq & Hh)].
  - by eapply wf_ext.
  - eapply wf_ext; [| |by apply (wf_reinsert σ reqs q)]; [done|].
    simpl. by rewrite Hh, Hr.
Qed.

Lemma relateConntrack_fields na queryEvt m :
  connects (relateConntrack na queryEvt m) = connects m ∧
  requests (relateConntrack na queryEvt m) = requests m ∧
  responses (relateConntrack na queryEvt m) = responses m ∧
  sent_once (relateConntrack na queryEvt m) = sent_once m.
Proof.
  unfold relateConntrack. destruct (EnableConntrack _); [|done].
  by destruct (GetDNATTuple _ _ _ _ _ _).
Qed.

Lemma flushing_wf na σ K oldp newp old queryEvt σ3 old' :
  wf σ → requestMonitor σ !! K = Some oldp → heap σ !! oldp = Some old →
  match newp with
  | Some q =>
      ∃ new, heap σ !! q = Some new ∧ sent_once new = false ∧ keyed K new ∧
             ∀ k, requestMonitor σ !! k ≠ Some q
  | None => True
  end →
  flushing na σ oldp newp old queryEvt = Some (σ3, old') →
  wf σ3 ∧ requests old' = requests old ∧ connects old' = connects old ∧
  responses old' = responses old ∧
  heap σ3 !! oldp = Some old' ∧
  (∀ r, r ≠ oldp → heap σ3 !! r = heap σ !! r) ∧
  requestMonitor σ3 =
    match newp with
    | Some q => <[K := q]> (requestMonitor σ)
    | None => delete K (requestMonitor σ)
    end.
Proof.
  intros Hwf HK Hold Hnew. unfold flushing.
  destruct (Hwf _ _ HK) as (old0 & Hold0 & Hs & Hkeyed).
  rewrite Hold in Hold0. injection Hold0 as <-.
  pose proof (relateConntrack_fields na queryEvt (Pairs.checkSend old).2)
    as (Hc' & Hr' & Hp' & _).
  assert (∀ k p, k ≠ K → requestMonitor σ !! k = Some p → p ≠ oldp) as Hother.
  { intros k p Hne Hp ->. apply Hne. by eapply wf_unique. }
  destruct newp as [q|].
  - destruct Hnew as (new & Hq & Hsn & Hkn & Hfresh).
    assert (q ≠ oldp) as Hqo by (intros ->; by eapply Hfresh).
    cbn [heap set_heap]. rewrite lookup_insert_ne by done. rewrite Hq. cbn [mbind option_bind].
    intros [= <- <-]. rewrite (keyed_getKey _ _ Hkn).
    split; [|split; [done|split; [done|split; [done|split; [|split]]]]].
    + intros k p. cbn [requestMonitor heap set_heap set_requestMonitor].
      destruct (decide (K = k)) as [<-|Hne].
      * rewrite lookup_insert_eq. intros [= <-].
        rewrite !lookup_insert_ne by done. by exists new.
      * rewrite lookup_insert_ne by done. intros Hp.
        rewrite !lookup_insert_ne by (apply not_eq_sym; by eapply Hother).
        by apply Hwf.
    + cbn [requestMonitor heap set_heap set_requestMonitor]. apply lookup_insert_eq.
    + intros r Hr. cbn [requestMonitor heap set_heap set_requestMonitor].
      by rewrite !lookup_insert_ne.
    + done.
  - assert (Pairs.getKey (Pairs.checkSend old).2 = K) as ->.
    { apply keyed_getKey. destruct Hkeyed as (H1 & H2 & H3). by split. }
    intros [= <- <-].
    split; [|split; [done|split; [done|split; [done|split; [|split]]]]].
    + intros k p. cbn [requestMonitor heap set_heap set_requestMonitor recordMessagePairSize].
      destruct (decide (K = k)) as [<-|Hne].
      * by rewrite lookup_delete_eq.
      * rewrite lookup_delete_ne by done. intros Hp.
        rewrite !lookup_insert_ne by (apply not_eq_sym; by eapply Hother).
        by apply Hwf.
    + cbn [requestMonitor heap set_heap set_requestMonitor recordMessagePairSize].
      apply lookup_insert_eq.
    + intros r Hr. cbn [requestMonitor heap set_heap set_requestMonitor recordMessagePairSize].
      by rewrite !lookup_insert_ne.
    + done.
Qed.

(** A flush of a state of the map, with a fresh state of the same key as its
    replacement or with none, keeps the invariant. *)
Lemma flush_wf na σ K oldp newp σ' es :
  wf σ → requestMonitor σ !! K = Some oldp →
  match newp with
  | Some q =>
      ∃ new, heap σ !! q = Some new ∧ sent_once new = false ∧ keyed K new ∧
             ∀ k, requestMonitor σ !! k ≠ Some q
  | None => True
  end →
  flush na σ oldp newp = Some (σ', es) →
  wf σ' ∧
  requestMonitor σ' =
    match newp with
    | Some q => <[K := q]> (requestMonitor σ)
    | None => delete K (requestMonitor σ)
    end.
Proof.
  intros Hwf HK Hnew.
  destruct (Hwf _ _ HK) as (old & Hold & Hs & Hkeyed).
  destruct Hkeyed as (Hkc & Hkr & [queryEvt Hke]).
  unfold flush. rewrite (distributeTraceMetric_unsent _ _ _ _ _ _ Hold Hke Hs).
  destruct (flushing na σ oldp newp old queryEvt) as [[σ3 old']|] eqn:Ef; [|done].
  destruct (flushing_wf _ _ _ _ _ _ _ _ _ Hwf HK Hold Hnew Ef)
    as (Hwf3 & Hr3 & _ & _ & _ & _ & Hm3).
  destruct (parseProtocols na σ3 old') as [| |[σ4 records]] eqn:Epp; [done| |].
  - by destruct (parseProtocols_not_nil na σ3 old').
  - intros [= <- <-]. split.
    + eapply (wf_parseProtocols _ _ _ _ _ K); [done| |done].
      intros r Hr. apply Hkr. by rewrite <- Hr3.
    + by rewrite (parseProtocols_monitor _ _ _ _ _ Epp).
Qed.

Lemma wf_alloc mps σ :
  wf σ →
  let p := (alloc mps σ).1 in
  let σ1 := (alloc mps σ).2 in
  wf σ1 ∧ requestMonitor σ1 = requestMonitor σ ∧
  heap σ1 !! p = Some mps ∧ (∀ k, requestMonitor σ1 !! k ≠ Some p) ∧
  (∀ r, r ≠ p → heap σ1 !! r = heap σ !! r).
Proof.
  intros Hwf. unfold alloc. cbn [fst snd]. 
  cbn [requestMonitor heap set_heap].
  split; [|split; [done|split; [apply lookup_insert_eq|split]]].
  - intros k p Hp. cbn [requestMonitor heap set_heap] in *.
    rewrite lookup_insert_ne; [by apply Hwf|].
    intros Heq. apply (fresh_not_stored σ k Hwf). by rewrite Heq.
  - intros k. by apply fresh_not_stored.
  - intros r Hr. by rewrite lookup_insert_ne.
Qed.

Lemma wf_update σ k p m m' :
  wf σ → requestMonitor σ !! k = Some p → heap σ !! p = Some m →
  sent_once m' = false → keyed k m' →
  wf (set_heap <[p := m']> σ).
Proof.
  intros Hwf Hk Hm Hs Hkeyed k' p' Hp'. cbn [requestMonitor heap set_heap] in *.
  destruct (decide (p = p')) as [<-|Hne].
  - rewrite lookup_insert_eq. exists m'. split; [done|]. split; [done|].
    by rewrite <- (wf_unique _ _ _ _ Hwf Hk Hp').
  - rewrite lookup_insert_ne by done. by apply Hwf.
Qed.

Lemma wf_store_same σ k p :
  requestMonitor σ !! k = Some p → wf σ → wf (set_requestMonitor <[k := p]> σ).
Proof.
  intros Hk Hwf. eapply wf_ext; [| |exact Hwf]; [|done].
  simpl. by apply insert_id.
Qed.

Lemma wf_store_new σ k p m :
  wf σ → heap σ !! p = Some m → sent_once m = false → keyed k m →
  wf (set_requestMonitor <[k := p]> σ).
Proof.
  intros Hwf Hm Hs Hkeyed k' p'. cbn [requestMonitor heap set_requestMonitor].
  destruct (decide (k = k')) as [<-|Hne].
  - rewrite lookup_insert_eq. intros [= <-]. by exists m.
  - rewrite lookup_insert_ne by done. apply Hwf.
Qed.

Lemma keyed_mergeRequest k m evt :
  keyed k m → getMessagePairKey evt = k → keyed k (Pairs.mergeRequest m evt).
Proof.
  intros (Hc & Hr & Hk) He. split; [|split].
  - exact Hc.
  - simpl. intros r. destruct (requests m) as [r0|]; intros [= <-]; [simpl; by apply Hr | done].
  - unfold Pairs.keyEvent. simpl.
    destruct (connects m); [by eexists|]. destruct (requests m); by eexists.
Qed.

Lemma keyed_mergeConnect k m evt :
  keyed k m → getMessagePairKey evt = k → keyed k (Pairs.mergeConnect m evt).
Proof.
  intros (Hc & Hr & Hk) He. split; [|split].
  - simpl. intros c. destruct (connects m) as [c0|]; intros [= <-]; [simpl; by apply Hc | done].
  - exact Hr.
  - unfold Pairs.keyEvent. simpl. destruct (connects m); by eexists.
Qed.

Lemma keyed_mergeResponse k m evt :
  keyed k m → keyed k (Pairs.mergeResponse m evt).
Proof. intros (Hc & Hr & Hk). by split. Qed.

Lemma analyseRequest_wf na σ evt σ' es :
  wf σ → analyseRequest na σ evt = Some (σ', es) → wf σ'.
Proof.
  intros Hwf. unfold analyseRequest.
  set (mps := {| connects := None;
                 requests := Some (Events.newEvents evt (snaplen na));
                 responses := None; natTuple := None; sent_once := false;
                 maxPayloadLength := snaplen na |}).
  pose proof (wf_alloc mps σ Hwf) as (Hwf1 & Hm1 & Hp & Hfresh & _).
  destruct (alloc mps σ) as [p σ1]. cbn [fst snd] in *.
  assert (keyed (getMessagePairKey evt) mps) as Hkeyed.
  { split; [done|]. split; [by intros r [= <-] | by eexists]. }
  change (Pairs.getKey mps) with (getMessagePairKey evt).
  destruct (requestMonitor σ1 !! getMessagePairKey evt) as [oldp|] eqn:HK.
  - destruct (Hwf1 _ _ HK) as (old & Hold & Hs & Hko). rewrite Hold. cbn [mbind option_bind].
    destruct (requests old) as [oldReqs|] eqn:Hr.
    + destruct (_ || _).
      * intros Hf. eapply (flush_wf na σ1 _ oldp (Some p)); [done|done| |done].
        by exists mps.
      * intros [= <- <-]. eapply wf_update; [done..|]. by apply keyed_mergeRequest.
    + destruct (connects old) as [c|] eqn:Hc.
      * intros [= <- <-].
        assert (keyed (getMessagePairKey evt) (Pairs.mergeRequest old evt)) as Hkm
          by (by apply keyed_mergeRequest).
        rewrite (keyed_getKey _ _ Hkm).
        apply wf_store_same; [done|]. by eapply wf_update.
      * intros [= <- <-]. by eapply wf_store_new.
  - intros [= <- <-].
    eapply wf_ext; [| |by eapply (wf_store_new σ1 _ p mps)]; done.
Qed.

Lemma analyseConnect_wf na σ evt σ' es :
  wf σ → analyseConnect na σ evt = Some (σ', es) → wf σ'.
Proof.
  intros Hwf. unfold analyseConnect.
  set (mps := {| connects := Some (Events.newEvents evt (snaplen na));
                 requests := None;
                 responses := None; natTuple := None; sent_once := false;
                 maxPayloadLength := snaplen na |}).
  pose proof (wf_alloc mps σ Hwf) as (Hwf1 & Hm1 & Hp & Hfresh & _).
  destruct (alloc mps σ) as [p σ1]. cbn [fst snd] in *.
  assert (keyed (getMessagePairKey evt) mps) as Hkeyed.
  { split; [by intros r [= <-]|]. split; [done | by eexists]. }
  change (Pairs.getKey mps) with (getMessagePairKey evt).
  destruct (requestMonitor σ1 !! getMessagePairKey evt) as [oldp|] eqn:HK.
  - destruct (Hwf1 _ _ HK) as (old & Hold & Hs & Hko). rewrite Hold. cbn [mbind option_bind].
    assert (∀ σ' es, flush na σ1 oldp (Some p) = Some (σ', es) → wf σ') as Hflush.
    { intros σ2 es2 Hf. eapply (flush_wf na σ1 _ oldp (Some p)); [done|done| |done].
      by exists mps. }
    destruct (requests old), (connects old) as [conns|]; try apply Hflush.
    destruct (Events.IsTimeout _ _ _); [apply Hflush|].
    intros [= <- <-]. eapply wf_update; [done..|]. by apply keyed_mergeConnect.
  - intros [= <- <-].
    eapply wf_ext; [| |by eapply (wf_store_new σ1 _ p mps)]; done.
Qed.

Lemma analyseResponse_wf na σ evt σ' es :
  wf σ → analyseResponse na σ evt = Some (σ', es) → wf σ'.
Proof.
  intros Hwf. unfold analyseResponse.
  destruct (requestMonitor σ !! getMessagePairKey evt) as [oldp|] eqn:HK.
  - destruct (Hwf _ _ HK) as (old & Hold & Hs & Hko). rewrite Hold. cbn [mbind option_bind].
    destruct (requests old).
    + intros [= <- <-].
      assert (keyed (getMessagePairKey evt) (Pairs.mergeResponse old evt)) as Hkm
        by (by apply keyed_mergeResponse).
      rewrite (keyed_getKey _ _ Hkm).
      apply wf_store_same; [done|]. by eapply wf_update.
    + by intros [= <- <-].
  - by intros [= <- <-].
Qed.

Lemma sweepEntry_wf na now σ k p σ' es :
  wf σ → requestMonitor σ !! k = Some p →
  sweepEntry na now σ p = Some (σ', es) →
  wf σ' ∧ (requestMonitor σ' = requestMonitor σ ∨
           requestMonitor σ' = delete k (requestMonitor σ)).
Proof.
  intros Hwf HK. unfold sweepEntry.
  destruct (Hwf _ _ HK) as (old & Hold & _). rewrite Hold. cbn [mbind option_bind].
  assert (∀ σ' es, flush na σ p None = Some (σ', es) →
            wf σ' ∧ (requestMonitor σ' = requestMonitor σ ∨
                     requestMonitor σ' = delete k (requestMonitor σ))) as Hflush.
  { intros σ2 es2 Hf.
    destruct (flush_wf na σ k p None σ2 es2 Hwf HK I Hf) as [H1 H2]. split; [done|by right]. }
  destruct (negb _); [|intros [= <- <-]; split; [done|by left]].
  destruct (_ && _); [apply Hflush|].
  destruct (_ <=? _); [apply Hflush|].
  intros [= <- <-]; split; [done|by left].
Qed.

Lemma sweepEntries_wf na now ps σ σ' es :
  wf σ → NoDup ps → (∀ p, p ∈ ps → ∃ k, requestMonitor σ !! k = Some p) →
  sweepEntries na now σ ps = Some (σ', es) → wf σ'.
Proof.
  revert σ σ' es. induction ps as [|p ps IH]; intros σ σ' es Hwf Hnd Hin.
  - by intros [= <- <-].
  - cbn [sweepEntries].
    destruct (sweepEntry na now σ p) as [[σ1 es1]|] eqn:E1; [|done]. cbn [mbind option_bind].
    destruct (sweepEntries na now σ1 ps) as [[σ2 es2]|] eqn:E2; [|done]. cbn [mbind option_bind].
    intros [= <- <-].
    apply NoDup_cons in Hnd as [Hp Hnd].
    destruct (Hin p) as [k Hk]; [left|].
    destruct (sweepEntry_wf _ _ _ _ _ _ _ Hwf Hk E1) as [Hwf1 Hm1].
    eapply (IH σ1); [done|done| |done].
    intros q Hq. destruct (Hin q) as [kq Hkq]; [by right|].
    exists kq. destruct Hm1 as [-> | ->]; [done|].
    rewrite lookup_delete_ne; [done|]. intros <-.
    rewrite Hk in Hkq. injection Hkq as <-. done.
Qed.

Lemma sweep_wf na now σ σ' es :
  wf σ → sweep na now σ = Some (σ', es) → wf σ'.
Proof.
  intros Hwf. unfold sweep. apply sweepEntries_wf; [done| |].
  - apply NoDup_fmap_2_strong; [|apply NoDup_map_to_list].
    intros [k1 p1] [k2 p2] H1 H2 Heq. simpl in Heq. subst p2.
    apply elem_of_map_to_list in H1, H2.
    by rewrite (wf_unique _ _ _ _ Hwf H1 H2).
  - intros p Hp. apply list_elem_of_fmap in Hp as ([k p'] & -> & Hkp).
    exists k. by apply elem_of_map_to_list.
Qed.

(** Every state the sequential program reaches satisfies the invariant. *)
Lemma reachable_wf na σ : reachable na σ → wf σ.
Proof.
  intros (acts & es & Hseq & Hrun).
  assert (∀ σ0, wf σ0 → run na σ0 acts = Some (σ, es) → wf σ) as Hgen.
  { clear Hrun. revert es. induction acts as [|a acts IH]; intros es σ0 Hwf0.
    - by intros [= <- <-].
    - cbn [run]. cbn [forallb] in Hseq. apply andb_prop in Hseq as [Ha Hseq].
      destruct (step na σ0 a) as [[σ1 es1]|] eqn:E1; [|done]. cbn [mbind option_bind].
      destruct (run na σ1 acts) as [[σ2 es2]|] eqn:E2; [|done]. cbn [mbind option_bind].
      intros [= <- <-]. eapply (IH Hseq); [|done].
      destruct a; simpl in E1; try done.
      + by eapply analyseConnect_wf.
      + by eapply analyseRequest_wf.
      + by eapply analyseResponse_wf.
      + by eapply sweep_wf. }
  eapply Hgen; [apply wf_initial | done].
Qed.

(** ** FD reuse in the request handler *)

(** The two halves make up the call when nothing runs in between. *)
Lemma distributeTraceMetric_split na σ oldp newp :
  distributeTraceMetric na σ oldp newp =
  match distributeTraceMetric_latch σ oldp with
  | Panic => Panic
  | Nil => Nil
  | Records σ1 =>
      match heap σ !! oldp ≫= Pairs.keyEvent with
      | Some queryEvt => distributeTraceMetric_resume na σ1 oldp newp queryEvt
      | None => Panic
      end
  end.
Proof.
  unfold distributeTraceMetric, distributeTraceMetric_latch, distributeTraceMetric_resume.
  destruct (heap σ !! oldp) as [oldPairs|]; [|done]. cbn [mbind option_bind].
  destruct (Pairs.keyEvent oldPairs) as [queryEvt|]; [|done].
  unfold Pairs.checkSend. cbv beta iota.
  destruct (negb (negb (sent_once oldPairs))); [done|].
  cbn [heap set_heap]. by rewrite lookup_insert_eq.
Qed.

(** What [analyseRequest] does, in any state, when the map stores a state
    with requests under the event's key.  When that state also has responses
    or its recorded source port differs from the event's: if its latch is
    unset, it is flushed (latch set, then parsed and emitted) after the new
    state, holding only the new request, has been installed under the key;
    if its latch is already set, the call to [distributeTraceMetric] returns
    at [checkSend], before the new state is stored: nothing is emitted, the
    map is as before and the new state is dropped.  Otherwise the request is
    appended to the stored state's requests. *)
Lemma fd_reuse_flush_unless_latched na σ evt oldp oldPairs oldReqs :
  requestMonitor σ !! getMessagePairKey evt = Some oldp →
  heap σ !! oldp = Some oldPairs →
  requests oldPairs = Some oldReqs →
  let p := fresh (dom (heap σ)) in
  let new := {| connects := None;
                requests := Some (Events.newEvents evt (snaplen na));
                responses := None; natTuple := None; sent_once := false;
                maxPayloadLength := snaplen na |} in
  if bool_decide (is_Some (responses oldPairs)) || Events.IsSportChanged oldReqs evt
  then
    if sent_once oldPairs then
      analyseRequest na σ evt = Some (set_heap <[p := new]> σ, [])
    else
      ∃ σ3 old',
        connects old' = connects oldPairs ∧ requests old' = requests oldPairs ∧
        responses old' = responses oldPairs ∧
        requestMonitor σ3 = <[getMessagePairKey evt := p]> (requestMonitor σ) ∧
        heap σ3 !! p = Some new ∧ heap σ3 !! oldp = Some old' ∧
        latched σ3 oldp = true ∧
        (∀ r, r ≠ p → r ≠ oldp → heap σ3 !! r = heap σ !! r) ∧
        analyseRequest na σ evt =
        match parseProtocols na σ3 old' with
        | Panic => None
        | Nil => Some (σ3, [(oldp, [])])
        | Records (σ', records) => Some (σ', [(oldp, records)])
        end
  else
    ∃ σ',
      analyseRequest na σ evt = Some (σ', []) ∧
      requestMonitor σ' = requestMonitor σ ∧
      heap σ' !! oldp = Some (Pairs.mergeRequest oldPairs evt) ∧
      requests (Pairs.mergeRequest oldPairs evt)
      = Some (Events.mergeEvent oldReqs evt) ∧
      (∀ r, r ≠ p → r ≠ oldp → heap σ' !! r = heap σ !! r).
Proof.
  intros HK Hold Hr p new.
  assert (∃ queryEvt, Pairs.keyEvent oldPairs = Some queryEvt) as [queryEvt Hke].
  { unfold Pairs.keyEvent. rewrite Hr. destruct (connects oldPairs); by eexists. }
  assert (oldp ≠ p) as Hne.
  { intros ->. apply (is_fresh (dom (heap σ))), elem_of_dom. by eexists. }
  unfold analyseRequest, alloc. fold p new.
  change (Pairs.getKey new) with (getMessagePairKey evt).
  cbn [requestMonitor set_heap heap]. rewrite HK.
  rewrite lookup_insert_ne by done. rewrite Hold. cbn [mbind option_bind]. rewrite Hr.
  destruct (bool_decide (is_Some (responses oldPairs)) || Events.IsSportChanged oldReqs evt).
  - destruct (sent_once oldPairs) eqn:Hs.
    + unfold flush, distributeTraceMetric. cbn [heap set_heap].
      rewrite lookup_insert_ne by done. rewrite Hold, Hke.
      unfold Pairs.checkSend. rewrite Hs. done.
    + unfold flush.
      erewrite (distributeTraceMetric_unsent na _ oldp (Some p) oldPairs queryEvt);
        [|by cbn [heap set_heap]; rewrite lookup_insert_ne by done|done|done].
      unfold flushing. cbn [heap set_heap requestMonitor set_requestMonitor].
      rewrite lookup_insert_ne by done. rewrite lookup_insert_eq. cbn [mbind option_bind].
      change (Pairs.getKey new) with (getMessagePairKey evt).
      pose proof (relateConntrack_fields na queryEvt (Pairs.checkSend oldPairs).2)
        as (Hc' & Hr' & Hp' & Hs').
      set (old' := relateConntrack na queryEvt (Pairs.checkSend oldPairs).2) in *.
      exists (set_heap <[oldp := old']>
                (set_requestMonitor <[getMessagePairKey evt := p]>
                   (set_heap <[oldp := (Pairs.checkSend oldPairs).2]>
                      (set_heap <[p := new]> σ)))), old'.
      split; [exact Hc'|]. split; [rewrite Hr'; exact Hr|]. split; [exact Hp'|].
      split; [reflexivity|].
      split.
      { cbn [heap set_heap set_requestMonitor requestMonitor].
        rewrite !lookup_insert_ne by done. apply lookup_insert_eq. }
      split; [cbn [heap set_heap set_requestMonitor requestMonitor]; apply lookup_insert_eq|].
      split.
      { unfold latched. cbn [heap set_heap set_requestMonitor requestMonitor].
        rewrite lookup_insert_eq. by rewrite Hs'. }
      split.
      { intros r Hrp Hro. cbn [heap set_heap set_requestMonitor requestMonitor].
        by rewrite !lookup_insert_ne. }
      by destruct (parseProtocols _ _ _) as [| |[σ4 records]].
  - eexists. split; [reflexivity|]. split; [done|].
    split; [cbn [heap set_heap]; apply lookup_insert_eq|].
    split; [unfold Pairs.mergeRequest; simpl; by rewrite Hr|].
    intros r Hrp Hro. cbn [heap set_heap]. by rewrite !lookup_insert_ne.
Qed.

(** C3.  The claim fails when the sweeper and the event consumer interleave.
    A flow has a request and its response (first source port 40000).  The
    sweeper, at a tick where the state is due, has set the state's latch and
    not yet removed the key when a request on the same key, from source port
    40001, is handled.  The stored state has requests and responses, and its
    source port differs from the event's; yet the handler emits nothing and
    does not install the new state: the map still points to the old state.
    The sweeper then resumes, emits the old state and removes the key: the
    new request is in no state of the map and is never reported. *)
Theorem fd_reuse_request_lost_in_sweeper_race :
  let na := Sample.analyzer ∅ ∅ [Sample.genericParser] in
  let r1 := Sample.evt 1 10 1 40000 8080 100 (Sample.bs [1]%N) in
  let a1 := Sample.evt 1 10 1 40000 8080 150 (Sample.bs [2]%N) in
  let r2 := Sample.evt 1 10 1 40001 8080 200000000100 (Sample.bs [3]%N) in
  let now := 200000000000 in
  let σ0 := from_option fst initialState
              (run na initialState [Request r1; Response a1]) in
  ∃ oldPairs oldReqs σ1 σ2 σ3 records,
    reachable na σ0 ∧
    requestMonitor σ0 !! getMessagePairKey r2 = Some 0%nat ∧
    heap σ0 !! 0%nat = Some oldPairs ∧
    requests oldPairs = Some oldReqs ∧
    bool_decide (is_Some (responses oldPairs)) = true ∧
    Events.IsSportChanged oldReqs r2 = true ∧
    due na now oldPairs = true ∧
    distributeTraceMetric_latch σ0 0%nat = Records σ1 ∧
    analyseRequest na σ1 r2 = Some (σ2, []) ∧
    requestMonitor σ2 = requestMonitor σ0 ∧
    distributeTraceMetric_resume na σ2 0%nat None r1 = Records (σ3, records) ∧
    requestMonitor σ3 = ∅.
Proof.
  intros na r1 a1 r2 now σ0.
  assert (reachable na σ0) as Hreach.
  { exists [Request r1; Response a1], []. split; [done|]. vm_compute. reflexivity. }
  set (oldReqs := Events.newEvents r1 1000).
  set (oldPairs := Sample.state None (Some oldReqs) (Some (Events.newEvents a1 1000))).
  assert (requestMonitor σ0 !! getMessagePairKey r2 = Some 0%nat) as HK
    by (vm_compute; reflexivity).
  assert (heap σ0 !! 0%nat = Some oldPairs) as Hold by (vm_compute; reflexivity).
  set (latchedPairs := (Pairs.checkSend oldPairs).2).
  set (σ1 := set_heap <[0%nat := latchedPairs]> σ0).
  assert (distributeTraceMetric_latch σ0 0%nat = Records σ1) as Hlatch.
  { unfold distributeTraceMetric_latch. rewrite Hold. reflexivity. }
  assert (requestMonitor σ1 !! getMessagePairKey r2 = Some 0%nat) as HK1 by exact HK.
  assert (heap σ1 !! 0%nat = Some latchedPairs) as Hold1
    by (unfold σ1; cbn [heap set_heap]; apply lookup_insert_eq).
  pose proof (fd_reuse_flush_unless_latched na σ1 r2 0%nat latchedPairs oldReqs
                HK1 Hold1 eq_refl) as Hreq.
  cbv zeta in Hreq.
  change (bool_decide (is_Some (responses latchedPairs))
          || Events.IsSportChanged oldReqs r2) with true in Hreq.
  change (sent_once latchedPairs) with true in Hreq. cbv iota in Hreq.
  set (σ2 := set_heap _ σ1) in Hreq.
  destruct (distributeTraceMetric_resume na σ2 0%nat None r1)
    as [| |[σ3 records]] eqn:Hresume; [by vm_compute in Hresume..|].
  exists oldPairs, oldReqs, σ1, σ2, σ3, records.
  split; [done|]. split; [done|]. split; [done|]. split; [done|].
  split; [done|]. split; [done|]. split; [by vm_compute|].
  split; [done|]. split; [done|]. split; [done|]. split; [done|].
  revert Hresume. unfold distributeTraceMetric_resume.
  assert (heap σ2 !! 0%nat = Some latchedPairs) as ->.
  { unfold σ2. cbn [heap set_heap]. rewrite lookup_insert_ne; [done|].
    intros Heq. apply (is_fresh (dom (heap σ1))). rewrite Heq.
    apply elem_of_dom. by eexists. }
  cbv zeta.
  set (σ3' := set_heap _ (set_requestMonitor _ _)).
  destruct (parseProtocols na σ3' _) as [| |[σ4 records4]] eqn:Epp; [done| |].
  - intros [= <- _]. unfold σ3'. cbn [requestMonitor set_heap set_requestMonitor
      recordMessagePairSize]. by vm_compute.
  - intros [= <- _]. rewrite (parseProtocols_monitor _ _ _ _ _ Epp).
    unfold σ3'. cbn [requestMonitor set_heap set_requestMonitor recordMessagePairSize].
    by vm_compute.
Qed.
Lemma dnsPairFrom_spec requests response i :
  Dns.dnsPairFrom i requests response =
  match firstMatch requests response with
  | Some k => i + Z.of_nat k
  | None => -1
  end.
Proof.
  revert i. induction requests as [|r rs IH]; intros i; [done|].
  unfold firstMatch in *. cbn [Dns.dnsPairFrom list_find].
  fold (dnsMatch r response).
  destruct (decide (dnsMatch r response = true)) as [Hm|Hm].
  - rewrite Hm. simpl. lia.
  - apply not_true_is_false in Hm. rewrite Hm. rewrite IH.
    destruct (list_find _ rs) as [[k x]|]; simpl; [lia|done].
Qed.

Lemma dnsPair_spec requests response :
  Dns.dnsPair requests response =
  match firstMatch requests response with
  | Some k => Z.of_nat k
  | None => -1
  end.
Proof.
  unfold Dns.dnsPair. rewrite dnsPairFrom_spec.
  destruct (firstMatch _ _); [lia|done].
Qed.

Lemma firstMatch_Some requests response i :
  firstMatch requests response = Some i ↔
  ∃ request, requests !! i = Some request ∧ dnsMatch request response = true ∧
    ∀ k r, requests !! k = Some r → (k < i)%nat → dnsMatch r response = false.
Proof.
  unfold firstMatch. split.
  - intros H. destruct (list_find _ _) as [[k x]|] eqn:E; [|done].
    simpl in H. injection H as ->.
    apply list_find_Some in E as (Hl & Hm & Hlt).
    exists x. repeat split; [done..|].
    intros k r Hk Hki. apply not_true_is_false. by eapply Hlt.
  - intros (r & Hl & Hm & Hlt).
    assert (list_find (λ request, dnsMatch request response = true) requests
            = Some (i, r)) as ->; [|done].
    apply list_find_Some. repeat split; [done..|].
    intros k y Hk Hki. rewrite (Hlt k y Hk Hki). done.
Qed.

Lemma firstMatch_None requests response :
  firstMatch requests response = None ↔
  ∀ request, request ∈ requests → dnsMatch request response = false.
Proof.
  unfold firstMatch. rewrite fmap_None, list_find_None, Forall_forall.
  split; intros H r Hr.
  - apply not_true_is_false. by apply H.
  - rewrite (H r Hr). done.
Qed.

Lemma firstMatch_lt requests response i :
  firstMatch requests response = Some i → (i < length requests)%nat.
Proof.
  intros H. apply firstMatch_Some in H as (r & Hl & ?).
  by eapply lookup_lt_Some.
Qed.

Section multi_requests.

Context (parser : ProtocolParser) (reqs : events)
        (parsedReqMsgs : list AttributeMap) (nt : option NatTuple).
Hypothesis Hpair : PairMatch parser = Dns.dnsPair.
Hypothesis Hlen : length parsedReqMsgs = length (Events.all reqs).

(** The response loop with [dnsPair]: it never panics; it gives [nil]
    exactly because of a response that does not parse or matches no request;
    otherwise every response is paired with its first match, in order. *)
Lemma matchResponses_dns resps matched acc :
  match matchResponses parser reqs parsedReqMsgs nt resps matched acc with
  | Panic => False
  | Nil =>
      ∃ resp, resp ∈ resps ∧
        (ParseResponse parser (evt_data resp) ∅ = None ∨
         ∃ ra, ParseResponse parser (evt_data resp) ∅ = Some ra ∧
               firstMatch parsedReqMsgs ra = None)
  | Records (matched', out) =>
      ∃ idxs paired,
        out = acc ++ paired ∧
        matched' = list_to_set idxs ∪ matched ∧
        Forall3 (pairsWith parser reqs parsedReqMsgs nt) resps idxs paired
  end.
Proof.
  revert matched acc. induction resps as [|resp rest IH]; intros matched acc.
  - simpl. exists [], []. rewrite app_nil_r. split; [done|].
    split; [cbn [list_to_set foldr]; by rewrite (left_id_L ∅ (∪)) | constructor].
  - cbn [matchResponses].
    destruct (ParseResponse parser (evt_data resp) ∅) as [ra|] eqn:Ep.
    2:{ exists resp. split; [left | by left]. }
    rewrite Hpair, dnsPair_spec.
    destruct (firstMatch parsedReqMsgs ra) as [i|] eqn:Em.
    2:{ simpl. exists resp. split; [left | right; eauto]. }
    assert ((Z.of_nat i =? -1) = false) as -> by (apply Z.eqb_neq; lia).
    assert ((Z.of_nat i <? 0) = false) as -> by (apply Z.ltb_ge; lia).
    rewrite Nat2Z.id.
    pose proof (firstMatch_lt _ _ _ Em) as Hlt. rewrite Hlen in Hlt.
    destruct (lookup_lt_is_Some_2 _ _ Hlt) as [req Hreq].
    unfold Events.getEvent. rewrite Hreq.
    specialize (IH ({[i]} ∪ matched)
      (acc ++ [({| request := req; response := Some resp; mp_natTuple := nt |}, ra)])).
    destruct (matchResponses _ _ _ _ rest _ _) as [| |[matched' out]].
    + done.
    + destruct IH as (r & Hin & Hr). exists r. split; [by right | done].
    + destruct IH as (idxs & paired & -> & -> & HF).
      exists (i :: idxs),
        (({| request := req; response := Some resp; mp_natTuple := nt |}, ra) :: paired).
      split; [by rewrite <- app_assoc|].
      split.
      { cbn [list_to_set foldr]. rewrite (assoc_L (∪)). f_equal. apply (comm_L (∪)). }
      constructor; [|done]. exists ra, req. done.
Qed.

End multi_requests.

Lemma elem_of_unmatchedPairs reqs parsedReqMsgs nt (matched : gset nat) pr :
  pr ∈ unmatchedPairs reqs parsedReqMsgs nt matched ↔
  ∃ i req a,
    Events.all reqs !! i = Some req ∧ parsedReqMsgs !! i = Some a ∧
    (i ∉ matched) ∧
    pr = ({| request := req; response := None; mp_natTuple := nt |}, a).
Proof.
  unfold unmatchedPairs. rewrite list_elem_of_omap. split.
  - intros ([i [req a]] & Hin & Hf).
    apply elem_of_lookup_imap in Hin as (k & [req' a'] & Heq & Hz).
    injection Heq as -> -> ->.
    apply lookup_zip_with_Some in Hz as (x & y & Hxy & Hx & Hy).
    injection Hxy as <- <-.
    case_bool_decide; [done|]. injection Hf as <-.
    by exists k, req', a'.
  - intros (i & req & a & Hr & Ha & Hni & ->).
    exists (i, (req, a)). split.
    + apply elem_of_lookup_imap. exists i, (req, a). split; [done|].
      apply lookup_zip_with_Some. by exists req, a.
    + by rewrite bool_decide_eq_false_2.
Qed.

Lemma unmatchedPairs_empty reqs parsedReqMsgs nt :
  unmatchedPairs reqs parsedReqMsgs nt ∅ =
  (λ '(req, a), ({| request := req; response := None; mp_natTuple := nt |}, a))
    <$> zip (Events.all reqs) parsedReqMsgs.
Proof.
  unfold unmatchedPairs.
  generalize (zip (Events.all reqs) parsedReqMsgs) as l.
  assert (∀ (l : list (KindlingEvent * AttributeMap)) (k : nat),
    omap (λ '(i, (req, attrs)),
            if bool_decide (i ∈ (∅ : gset nat)) then None
            else Some ({| request := req; response := None; mp_natTuple := nt |}, attrs))
         (imap (λ i x, (k + i, x)%nat) l)
    = (λ '(req, a), ({| request := req; response := None; mp_natTuple := nt |}, a)) <$> l)
    as Hgen.
  { induction l as [|[req a] l IH]; intros k; [done|].
    rewrite imap_cons, fmap_cons.
    change (omap ?f (?x :: ?l')) with (match f x with Some y => y :: omap f l' | None => omap f l' end).
    cbv beta iota.
    rewrite bool_decide_eq_false_2 by set_solver. f_equal.
    rewrite <- (IH (S k)). f_equal. apply imap_ext. intros; simpl. f_equal. lia. }
  intros l. apply (Hgen l 0%nat).
Qed.

Lemma mapM_length_eq {A B} (f : A → option B) l k :
  mapM f l = Some k → length k = length l.
Proof. intros H. symmetry. by eapply length_mapM. Qed.

(** Two requests with the same id and domain (a query sent twice) and one
    response: the response is paired with the first request only, and the
    second request, which matches it as well, is emitted without a response. *)
Lemma dns_duplicate_request_unpaired :
  ¬ dns_paired_iff_match.
Proof.
  intros H.
  pose (req1 := Sample.evt 1 10 1 40000 53 100 (Sample.dnsQuery 7)).
  pose (req2 := Sample.evt 1 10 2 40000 53 200 (Sample.dnsQuery 7)).
  pose (resp := Sample.evt 1 10 1 40000 53 300 (Sample.dnsAnswer 7 0)).
  pose (mps := Sample.state None (Some (mkEvents req1 [req2]))
                 (Some (mkEvents resp []))).
  pose (qa := default ∅ (ParseRequest Sample.tcpDns (Sample.dnsQuery 7))).
  pose (ra := default ∅ (ParseResponse Sample.tcpDns (Sample.dnsAnswer 7 0) ∅)).
  assert (parseMultiplePairs mps Sample.tcpDns
          = Records [ ({| request := req1; response := Some resp; mp_natTuple := None |}, ra);
                      ({| request := req2; response := None; mp_natTuple := None |}, qa) ])
    as Hpairs by (vm_compute; reflexivity).
  assert (mapM (λ req, ParseRequest Sample.tcpDns (evt_data req))
            (Events.all (mkEvents req1 [req2])) = Some [qa; qa]) as HmapM
    by (vm_compute; reflexivity).
  assert (ParseResponse Sample.tcpDns (evt_data resp) ∅ = Some ra) as Er
    by (vm_compute; reflexivity).
  assert (dnsMatch qa ra = true) as Hm by (vm_compute; reflexivity).
  pose proof (H Sample.tcpDns mps (mkEvents req1 [req2]) (mkEvents resp []) [qa; qa]
                _ eq_refl eq_refl eq_refl HmapM Hpairs
                1%nat 0%nat req2 resp qa ra eq_refl eq_refl eq_refl Er) as Hiff.
  apply Hiff in Hm.
  apply elem_of_cons in Hm as [Hm|Hm].
  - injection Hm as Hm _. discriminate Hm.
  - apply elem_of_cons in Hm as [Hm|Hm]; [discriminate Hm|].
    by apply elem_of_nil in Hm.
Qed.

(** C4 (amended).  With the DNS pair matcher, the pairs a multi-request
    parser emits for requests R1..Rn (all parsed) and responses Rsp1..Rspm
    are, in this order: for every response Rspj, in arrival order, the pair
    of Rspj with the first request (lowest index) whose dnsId and dnsDomain
    equal the response's; then every request that is no response's first
    match, without a response (a no-response record).  When a response does
    not parse, or matches no request at all, the whole state is abandoned
    ([nil]); the parse never panics.  Without responses every request is
    emitted without a response. *)
Theorem dns_pairs_first_match parser mps reqs parsedReqMsgs :
  PairMatch parser = Dns.dnsPair →
  requests mps = Some reqs →
  mapM (λ req, ParseRequest parser (evt_data req)) (Events.all reqs)
    = Some parsedReqMsgs →
  let nt := natTuple mps in
  (responses mps = None →
     parseMultiplePairs mps parser =
     Records ((λ '(req, a),
                ({| request := req; response := None; mp_natTuple := nt |}, a))
              <$> zip (Events.all reqs) parsedReqMsgs)) ∧
  (∀ resps, responses mps = Some resps →
     parseMultiplePairs mps parser ≠ Panic ∧
     ((∃ resp, resp ∈ Events.all resps ∧
               ParseResponse parser (evt_data resp) ∅ = None) →
        parseMultiplePairs mps parser = Nil) ∧
     ((∃ resp ra, resp ∈ Events.all resps ∧
                  ParseResponse parser (evt_data resp) ∅ = Some ra ∧
                  firstMatch parsedReqMsgs ra = None) →
        parseMultiplePairs mps parser = Nil) ∧
     ((∀ resp, resp ∈ Events.all resps →
         ∃ ra i, ParseResponse parser (evt_data resp) ∅ = Some ra ∧
                 firstMatch parsedReqMsgs ra = Some i) →
        ∃ pairs, parseMultiplePairs mps parser = Records pairs) ∧
     (∀ pairs, parseMultiplePairs mps parser = Records pairs →
        ∃ idxs paired,
          pairs = paired ++ unmatchedPairs reqs parsedReqMsgs nt (list_to_set idxs) ∧
          length paired = length (Events.all resps) ∧
          (∀ j resp, Events.all resps !! j = Some resp →
             ∃ i pr, idxs !! j = Some i ∧ paired !! j = Some pr ∧
                     pairsWith parser reqs parsedReqMsgs nt resp i pr) ∧
          (∀ pr, pr ∈ unmatchedPairs reqs parsedReqMsgs nt (list_to_set idxs) ↔
             ∃ i req a,
               Events.all reqs !! i = Some req ∧ parsedReqMsgs !! i = Some a ∧
               (i ∉ idxs) ∧
               pr = ({| request := req; response := None; mp_natTuple := nt |}, a)))) ∧
  (∀ na,
     parseMultipleRequests na mps parser =
     match parseMultiplePairs mps parser with
     | Panic => Panic
     | Nil => Nil
     | Records pairs =>
         Records ((λ '(mp, attrs),
                    getRecordWithSinglePair na mp (GetProtocol parser) attrs) <$> pairs)
     end) ∧
  (∀ na req a,
     Attr.GetBoolValue constlabels.IsError a = false →
     classification
       (getRecordWithSinglePair na
          {| request := req; response := None; mp_natTuple := nt |}
          (GetProtocol parser) a)
     = (true, constlabels.NoResponse)).
Proof.
  intros Hpair Hreq HmapM nt.
  pose proof (mapM_length_eq _ _ _ HmapM) as Hlen.
  split; [|split; [|split]].
  - intros Hresp. unfold parseMultiplePairs. rewrite Hreq, HmapM, Hresp.
    by rewrite unmatchedPairs_empty.
  - intros resps Hresp.
    pose proof (matchResponses_dns parser reqs parsedReqMsgs nt Hpair Hlen
                  (Events.all resps) ∅ []) as Hloop.
    unfold parseMultiplePairs. rewrite Hreq, HmapM, Hresp. fold nt.
    destruct (matchResponses _ _ _ _ _ _ _) as [| |[matched out]]; [done| |].
    + destruct Hloop as (r & Hin & Hr).
      split; [done|]. split; [done|]. split; [done|]. split; [|done].
      intros Hall. destruct (Hall r Hin) as (ra & i & Hp & Hm).
      destruct Hr as [Hr | (ra' & Hr & Hn)]; congruence.
    + destruct Hloop as (idxs & paired & -> & -> & HF).
      split; [done|].
      split.
      { intros (r & Hin & Hr). exfalso.
        apply list_elem_of_lookup in Hin as [j Hj].
        destruct (Forall3_lookup_l _ _ _ _ _ _ HF Hj)
          as (i & pr & _ & _ & ra & req & Hp & _). congruence. }
      split.
      { intros (r & ra & Hin & Hr & Hn). exfalso.
        apply list_elem_of_lookup in Hin as [j Hj].
        destruct (Forall3_lookup_l _ _ _ _ _ _ HF Hj)
          as (i & pr & _ & _ & ra' & req & Hp & Hm & _). congruence. }
      split; [eauto|].
      intros pairs [= <-]. exists idxs, paired.
      rewrite (right_id_L ∅ (∪)). simpl.
      split; [done|].
      split; [symmetry; apply (Forall3_length_lr _ _ _ _ HF)|].
      split.
      { intros j resp Hj.
        destruct (Forall3_lookup_l _ _ _ _ _ _ HF Hj) as (i & pr & Hi & Hp & Hw).
        by exists i, pr. }
      intros pr. rewrite elem_of_unmatchedPairs.
      split; intros (i & req & a & Hr & Ha & Hni & ->); exists i, req, a;
        (split; [done|]); (split; [done|]); (split; [|done]);
        by rewrite ?elem_of_list_to_set in *.
  - intros na. unfold parseMultipleRequests. by destruct (parseMultiplePairs _ _).
  - intros na req a Ha. rewrite getRecordWithSinglePair_class.
    unfold expectedClass. simpl. by rewrite Ha.
Qed.

(** Scenario S5: two queries answered in the opposite order are paired by
    id. *)
Lemma dns_pairs_first_match_witness :
  (PairMatch Sample.tcpDns = Dns.dnsPair ∧
   requests Sample.s5 = Some Sample.s5_requests ∧
   mapM (λ req, ParseRequest Sample.tcpDns (evt_data req))
     (Events.all Sample.s5_requests) = Some Sample.s5_parsed) ∧
  ∃ b1 b2,
    parseMultiplePairs Sample.s5 Sample.tcpDns =
    Records
      [ ({| request := Sample.evt 1 10 1 40000 53 200 (Sample.dnsQuery 2);
            response := Some (Sample.evt 1 10 1 40000 53 300 (Sample.dnsAnswer 2 0));
            mp_natTuple := None |}, b2);
        ({| request := Sample.evt 1 10 1 40000 53 100 (Sample.dnsQuery 1);
            response := Some (Sample.evt 1 10 1 40000 53 400 (Sample.dnsAnswer 1 0));
            mp_natTuple := None |}, b1) ] ∧
    ∀ na,
      parseMultipleRequests na Sample.s5 Sample.tcpDns =
      Records
        [ getRecordWithSinglePair na
            {| request := Sample.evt 1 10 1 40000 53 200 (Sample.dnsQuery 2);
               response := Some (Sample.evt 1 10 1 40000 53 300 (Sample.dnsAnswer 2 0));
               mp_natTuple := None |} protocol.DNS b2;
          getRecordWithSinglePair na
            {| request := Sample.evt 1 10 1 40000 53 100 (Sample.dnsQuery 1);
               response := Some (Sample.evt 1 10 1 40000 53 400 (Sample.dnsAnswer 1 0));
               mp_natTuple := None |} protocol.DNS b1 ].
Proof.
  assert (mapM (λ req, ParseRequest Sample.tcpDns (evt_data req))
            (Events.all Sample.s5_requests) = Some Sample.s5_parsed) as HmapM
    by (vm_compute; reflexivity).
  split; [by repeat split|].
  exists (default ∅ (ParseResponse Sample.tcpDns (Sample.dnsAnswer 1 0) ∅)),
         (default ∅ (ParseResponse Sample.tcpDns (Sample.dnsAnswer 2 0) ∅)).
  assert (parseMultiplePairs Sample.s5 Sample.tcpDns = Records _) as Hpairs
    by (vm_compute; reflexivity).
  split; [exact Hpairs|].
  intros na.
  rewrite (proj1 (proj2 (proj2
             (dns_pairs_first_match Sample.tcpDns Sample.s5 _ _ eq_refl eq_refl HmapM))) na).
  rewrite Hpairs. reflexivity.
Defined.

(** ** HTTP continuation *)

Lemma putEventsBack_all cur origin :
  Events.all (Events.putEventsBack cur origin) = Events.all origin ++ Events.all cur.
Proof. reflexivity. Qed.

(** C8.  When the parsed attributes carry the HttpContinue label,
    [getRecords] returns an empty (non-nil) record list, and the request
    buffer is put back into the state that the map currently stores under
    the key of the request: that state, and no other, becomes
    [putRequestBack] of itself, its requests now being the re-inserted ones
    followed by its own, so that the next parse reads the continuation after
    the re-inserted request; when the map stores no state under the key,
    nothing changes.  A single-request parser whose request parse yields the
    label thus gives an empty record list for a state without responses. *)
Theorem http_continue_reinserts na σ mps reqs protocol a :
  requests mps = Some reqs →
  Attr.HasAttribute constlabels.HttpContinue a = true →
  ∃ σ',
    getRecords na σ mps protocol (Some a) = Records (σ', []) ∧
    requestMonitor σ' = requestMonitor σ ∧
    cachedParsersMap σ' = cachedParsersMap σ ∧ portCounts σ' = portCounts σ ∧
    match requestMonitor σ !! getMessagePairKey (event reqs) with
    | Some q =>
        (∀ p, p ≠ q → heap σ' !! p = heap σ !! p) ∧
        (heap σ !! q = None → heap σ' !! q = None) ∧
        (∀ cur, heap σ !! q = Some cur →
           heap σ' !! q = Some (Pairs.putRequestBack cur (Some reqs)) ∧
           ∃ reqs', requests (Pairs.putRequestBack cur (Some reqs)) = Some reqs' ∧
                    Events.all reqs' =
                    Events.all reqs ++ from_option Events.all [] (requests cur))
    | None => σ' = σ
    end ∧
    (∀ parser,
       MultiRequests parser = false →
       ParseRequest parser (Events.getData reqs (maxPayloadLength mps)) = Some a →
       responses mps = None →
       Attr.GetBoolValue constlabels.Oneway a = false →
       parseProtocol na σ mps parser = Records (σ', [])).
Proof.
  intros Hr Ha. unfold getRecords. rewrite Hr. cbn [hasHttpContinue]. rewrite Ha.
  destruct (requestMonitor σ !! getMessagePairKey (event reqs)) as [q|] eqn:Eq.
  - eexists. split; [reflexivity|]. simpl. repeat split.
    + intros p Hp. by rewrite lookup_alter_ne.
    + intros Hq. by rewrite lookup_alter_eq, Hq.
    + rewrite lookup_alter_eq, H. reflexivity.
    + unfold Pairs.putRequestBack. simpl.
      destruct (requests cur) as [c|]; eexists; (split; [reflexivity|]); simpl.
      * apply putEventsBack_all.
      * by rewrite app_nil_r.
    + intros parser Hm Hp Hresp Ho.
      unfold parseProtocol. rewrite Hm, Hr, Hp, Hresp, Ho.
      unfold getRecords. rewrite Hr. cbn [hasHttpContinue]. rewrite Ha, Eq. reflexivity.
  - exists σ. repeat split.
    intros parser Hm Hp Hresp Ho.
    unfold parseProtocol. rewrite Hm, Hr, Hp, Hresp, Ho.
    unfold getRecords. rewrite Hr. cbn [hasHttpContinue]. rewrite Ha, Eq. reflexivity.
Qed.

(** A request waiting for [100 Continue] is flushed by a request with its
    body on the same key (another source port): nothing is emitted, and the
    state installed for the new request holds the earlier request in front. *)
Lemma http_continue_reinserts_witness :
  let first := Sample.evt 1 10 1 40000 80 100 (Sample.bs [71; 69; 84]%N) in
  let body := Sample.evt 1 10 1 40001 80 200 (Sample.bs [98; 111; 100; 121]%N) in
  let old := Sample.state None (Some (Events.newEvents first 1000)) None in
  let new := Sample.state None (Some (Events.newEvents body 1000)) None in
  let na := Sample.analyzer {[ 80 := "http" ]} {[ "http" := Sample.continueParser ]} [] in
  let σ := Sample.oneFlow new in
  (∃ σ',
     getRecords na σ old "http" (Some {[ constlabels.HttpContinue := BoolV true ]})
       = Records (σ', []) ∧
     (heap σ' !! 0%nat ≫= requests) = Some {| event := first; mergedEvents := [body] |}) ∧
  (∃ σ' p,
     analyseRequest na (Sample.oneFlow old) body = Some (σ', [(0%nat, [])]) ∧
     requestMonitor σ' !! (1, 10) = Some p ∧
     (heap σ' !! p ≫= requests) = Some {| event := first; mergedEvents := [body] |}).
Proof.
  intros first body old new na σ. split.
  - assert (Attr.HasAttribute constlabels.HttpContinue
              ({[ constlabels.HttpContinue := BoolV true ]} : AttributeMap) = true) as Ha
      by (vm_compute; reflexivity).
    destruct (http_continue_reinserts na σ old (Events.newEvents first 1000) "http"
                {[ constlabels.HttpContinue := BoolV true ]} eq_refl Ha)
      as (σ' & Hrec & _ & _ & _ & Hheap & _).
    exists σ'. split; [exact Hrec|].
    change (requestMonitor σ !! getMessagePairKey (event (Events.newEvents first 1000)))
      with (Some 0%nat) in Hheap.
    destruct Hheap as (_ & _ & Hcur).
    destruct (Hcur new eq_refl) as (-> & _). reflexivity.
  - eexists _, _. split; [vm_compute; reflexivity|].
    split; vm_compute; reflexivity.
Defined.

(* ===================================================================== *)
(** * Further properties of the sources *)
(* ===================================================================== *)

(** ** [StartServer]: the range over the ports map *)

Lemma findPort_perm kvs1 kvs2 modnum port :
  NoDup kvs1.*1 → kvs1 ≡ₚ kvs2 →
  Otel.findPort kvs1 modnum port = Otel.findPort kvs2 modnum port.
Proof.
  intros Hnd Hp.
  assert (NoDup kvs2.*1) as Hnd2 by (by rewrite <- Hp).
  destruct ((list_to_map kvs1 : gmap string string) !! modnum) as [v|] eqn:E.
  - apply elem_of_list_to_map in E; [|done].
    rewrite (findPort_present kvs1 modnum port v Hnd E).
    symmetry. apply findPort_present; [done|]. by rewrite <- Hp.
  - assert (∀ v, (modnum, v) ∉ kvs1) as Hno.
    { intros v Hv. apply elem_of_list_to_map in Hv; [|done]. congruence. }
    rewrite !findPort_absent; [done| |done].
    intros v Hv. apply (Hno v). by rewrite Hp.
Qed.

(** X1.  Go ranges over a map in an unspecified order.  Whatever the order
    in which [StartServer]'s loop meets the entries of the ports map, the
    port it selects is the value the map binds to kindling_mod_number (the
    empty string when there is none), so the outcome of [StartServer] does
    not depend on the iteration order. *)
Theorem StartServer_order_independent (ports : gmap string string) kvs modnum :
  kvs ≡ₚ map_to_list ports →
  Otel.findPort kvs modnum "" = default "" (ports !! modnum).
Proof.
  intros Hp. rewrite <- findPort_lookup. apply findPort_perm; [|done].
  rewrite Hp. apply NoDup_fst_map_to_list.
Qed.

Lemma StartServer_order_independent_witness :
  let ports : gmap string string := {[ "0" := ":9500"; "1" := ":9501" ]} in
  Otel.findPort (reverse (map_to_list ports)) "1" "" = ":9501".
Proof.
  intros ports.
  rewrite (StartServer_order_independent ports (reverse (map_to_list ports)) "1").
  - reflexivity.
  - apply reverse_Permutation.
Defined.

(** ** [dnsPair] and the multi-request parse *)

(** X3.  [dnsPair] returns [-1] exactly when no request has the response's
    id and domain; otherwise it returns the index of a request that has
    them, no request before it having them.  The result is always [-1] or a
    valid index of the request slice. *)
Theorem dnsPair_lowest_matching_index requests response :
  -1 ≤ Dns.dnsPair requests response < Z.of_nat (length requests) ∧
  (Dns.dnsPair requests response = -1 ↔
   ∀ request, request ∈ requests →
     Attr.GetIntValue constlabels.DnsId request
       ≠ Attr.GetIntValue constlabels.DnsId response ∨
     Attr.GetStringValue constlabels.DnsDomain request
       ≠ Attr.GetStringValue constlabels.DnsDomain response) ∧
  (∀ i, Dns.dnsPair requests response = Z.of_nat i ↔
     ∃ request, requests !! i = Some request ∧ dnsMatch request response = true ∧
       ∀ k r, requests !! k = Some r → (k < i)%nat → dnsMatch r response = false).
Proof.
  rewrite dnsPair_spec.
  assert (∀ r, dnsMatch r response = false ↔
    Attr.GetIntValue constlabels.DnsId r ≠ Attr.GetIntValue constlabels.DnsId response ∨
    Attr.GetStringValue constlabels.DnsDomain r
      ≠ Attr.GetStringValue constlabels.DnsDomain response) as Hm.
  { intros r. unfold dnsMatch. rewrite andb_false_iff, Z.eqb_neq.
    by rewrite String.eqb_neq. }
  destruct (firstMatch requests response) as [k|] eqn:E.
  - split; [pose proof (firstMatch_lt _ _ _ E); lia|]. split.
    + split; [lia|]. intros Hall. exfalso.
      apply firstMatch_Some in E as (r & Hr & Hmr & _).
      assert (dnsMatch r response = false); [|congruence].
      apply Hm, Hall. by eapply list_elem_of_lookup_2.
    + intros i. rewrite <- firstMatch_Some. split.
      * intros Hi. apply Nat2Z.inj in Hi. by subst.
      * intros Hi. rewrite E in Hi. by injection Hi as ->.
  - split; [lia|]. split.
    + split; [|done]. intros _ r Hr. apply Hm.
      by apply (proj1 (firstMatch_None _ _) E).
    + intros i. split; [lia|]. rewrite <- firstMatch_Some. by rewrite E.
Qed.

Lemma omap_length_le {A B} (f : A → option B) l :
  (length (omap f l) ≤ length l)%nat.
Proof.
  induction l as [|x l IH]; [done|].
  change (omap f (x :: l)) with
    (match f x with Some y => y :: omap f l | None => omap f l end).
  destruct (f x); cbn [length]; lia.
Qed.

(** X4.  No request and no response is lost by a successful multi-request
    parse with the DNS matcher: the pairs start with one pair per response,
    in arrival order, each holding that response; the pairs after them hold
    no response; and every request of the state is the request of at least
    one pair. *)
Theorem multi_request_parse_keeps_every_event parser mps reqs resps pairs :
  PairMatch parser = Dns.dnsPair →
  requests mps = Some reqs → responses mps = Some resps →
  parseMultiplePairs mps parser = Records pairs →
  (length (Events.all resps) ≤ length pairs
     ≤ length (Events.all resps) + length (Events.all reqs))%nat ∧
  (∀ j resp, Events.all resps !! j = Some resp →
     ∃ pr, pairs !! j = Some pr ∧ response pr.1 = Some resp) ∧
  (∀ j pr, pairs !! j = Some pr → (length (Events.all resps) ≤ j)%nat →
     response pr.1 = None) ∧
  (∀ i req, Events.all reqs !! i = Some req →
     ∃ pr, pr ∈ pairs ∧ request pr.1 = req).
Proof.
  intros Hpair Hreq Hresp. unfold parseMultiplePairs. rewrite Hreq, Hresp.
  destruct (mapM _ (Events.all reqs)) as [parsedReqMsgs|] eqn:HmapM; [|done].
  pose proof (mapM_length_eq _ _ _ HmapM) as Hlen.
  pose proof (matchResponses_dns parser reqs parsedReqMsgs (natTuple mps) Hpair Hlen
                (Events.all resps) ∅ []) as Hloop.
  destruct (matchResponses _ _ _ _ _ _ _) as [| |[matched out]]; [done|done|].
  destruct Hloop as (idxs & paired & -> & -> & HF). intros [= <-].
  rewrite (right_id_L ∅ (∪)). cbn [app].
  pose proof (Forall3_length_lr _ _ _ _ HF) as Hlp.
  set (un := unmatchedPairs reqs parsedReqMsgs (natTuple mps) (list_to_set idxs)).
  assert (length un ≤ length (Events.all reqs))%nat as Hun.
  { unfold un, unmatchedPairs. etrans; [apply omap_length_le|].
    rewrite length_imap, length_zip_with. lia. }
  split; [rewrite length_app; lia|]. split; [|split].
  - intros j resp Hj.
    destruct (Forall3_lookup_l _ _ _ _ _ _ HF Hj) as (i & pr & _ & Hp & ra & req & _ & _ & _ & ->).
    exists ({| request := req; response := Some resp; mp_natTuple := natTuple mps |}, ra).
    split; [|done]. by apply lookup_app_l_Some.
  - intros j pr Hj Hge. rewrite lookup_app_r in Hj by lia.
    apply list_elem_of_lookup_2, elem_of_unmatchedPairs in Hj
      as (i & req & a & _ & _ & _ & ->). done.
  - intros i req Hi.
    destruct (decide (i ∈ idxs)) as [Hin|Hnin].
    + apply list_elem_of_lookup in Hin as [j Hj].
      destruct (Forall3_lookup_m _ _ _ _ _ _ HF Hj)
        as (resp & pr & _ & Hp & ra & req' & _ & _ & Hreq' & ->).
      rewrite Hi in Hreq'. injection Hreq' as Hreq'. subst req'.
      exists ({| request := req; response := Some resp;
                 mp_natTuple := natTuple mps |}, ra).
      split; [|done].
      apply elem_of_app. left. by eapply list_elem_of_lookup_2.
    + destruct (lookup_lt_is_Some_2 parsedReqMsgs i) as [a Ha].
      { rewrite Hlen. by eapply lookup_lt_Some. }
      exists ({| request := req; response := None; mp_natTuple := natTuple mps |}, a).
      split; [|done]. apply elem_of_app. right.
      apply elem_of_unmatchedPairs. exists i, req, a.
      split; [done|]. split; [done|]. split; [|done].
      by rewrite elem_of_list_to_set.
Qed.

Lemma multi_request_parse_keeps_every_event_witness :
  ∃ pairs,
    parseMultiplePairs Sample.s5 Sample.tcpDns = Records pairs ∧
    (length (Events.all Sample.s5_responses) ≤ length pairs)%nat ∧
    ∀ i req, Events.all Sample.s5_requests !! i = Some req →
      ∃ pr, pr ∈ pairs ∧ request pr.1 = req.
Proof.
  assert (∃ pairs, parseMultiplePairs Sample.s5 Sample.tcpDns = Records pairs)
    as [pairs Hp] by (vm_compute; by eexists).
  exists pairs. split; [done|].
  destruct (multi_request_parse_keeps_every_event Sample.tcpDns Sample.s5
              Sample.s5_requests Sample.s5_responses pairs eq_refl eq_refl eq_refl Hp)
    as (Hlen & _ & _ & Hall).
  split; [lia | exact Hall].
Defined.

(** ** The slow classification *)

Lemma to_int64_id z : - 2 ^ 63 ≤ z < 2 ^ 63 → GoLib.to_int64 z = z.
Proof.
  intros H. unfold GoLib.to_int64.
  rewrite Z.mod_small by lia. lia.
Qed.

Lemma to_int64_high z : 2 ^ 63 ≤ z < 2 ^ 64 → GoLib.to_int64 z = z - 2 ^ 64.
Proof.
  intros H. unfold GoLib.to_int64.
  replace (z + 2 ^ 63) with ((z - 2 ^ 63) + 1 * 2 ^ 64) by lia.
  rewrite Z.mod_add by lia. rewrite Z.mod_small by lia. lia.
Qed.

(** X5.  The slow threshold of a protocol is its configured threshold when
    that is positive and the global threshold otherwise (also for a
    configured zero or negative value).  A duration is slow when it is at
    least the threshold, the threshold being in milliseconds and the
    duration in nanoseconds.  A duration with the top bit set, as an
    unsigned subtraction produces when the response timestamp is before the
    request timestamp, is read as negative and is never slow under a
    non-negative threshold. *)
Theorem isSlow_threshold_in_milliseconds na duration protocol :
  let threshold := getResponseSlowThreshold na protocol in
  (∀ v, slowThresholdMap na !! protocol = Some v → 0 < v → threshold = v) ∧
  (∀ v, slowThresholdMap na !! protocol = Some v → v ≤ 0 →
     threshold = cfg_getResponseSlowThreshold (cfg na)) ∧
  (slowThresholdMap na !! protocol = None →
     threshold = cfg_getResponseSlowThreshold (cfg na)) ∧
  (- 2 ^ 63 ≤ threshold * 1000000 < 2 ^ 63 → 0 ≤ duration < 2 ^ 63 →
     (isSlow na duration protocol = true ↔ threshold * 1000000 ≤ duration)) ∧
  (0 ≤ threshold * 1000000 < 2 ^ 63 → 2 ^ 63 ≤ duration < 2 ^ 64 →
     isSlow na duration protocol = false).
Proof.
  intros threshold. unfold isSlow. fold threshold.
  split; [|split; [|split; [|split]]].
  - intros v Hv Hpos. unfold threshold, getResponseSlowThreshold. rewrite Hv.
    by rewrite (proj2 (Z.ltb_lt 0 v) Hpos).
  - intros v Hv Hneg. unfold threshold, getResponseSlowThreshold. rewrite Hv.
    by rewrite (proj2 (Z.ltb_ge 0 v) Hneg).
  - intros Hv. unfold threshold, getResponseSlowThreshold. by rewrite Hv.
  - intros Ht Hd. rewrite !to_int64_id by lia. apply Z.leb_le.
  - intros Ht Hd. rewrite (to_int64_id (threshold * _)) by lia.
    rewrite to_int64_high by lia. apply Z.leb_gt. lia.
Qed.

(** ** The flow state map in the sequential program *)

(** X6.  In every state the sequential program reaches, each entry of the
    flow state map points to a live state that belongs under its key, has a
    connect or a request event, and has never been flushed; no state is
    stored under two keys. *)
Theorem reachable_map_consistent na σ :
  reachable na σ →
  (∀ k p, requestMonitor σ !! k = Some p →
     ∃ m, heap σ !! p = Some m ∧ sent_once m = false ∧ Pairs.getKey m = k ∧
          (is_Some (connects m) ∨ is_Some (requests m))) ∧
  (∀ k k' p, requestMonitor σ !! k = Some p → requestMonitor σ !! k' = Some p →
     k = k').
Proof.
  intros Hr. apply reachable_wf in Hr. split.
  - intros k p Hp. destruct (Hr _ _ Hp) as (m & Hm & Hs & Hk).
    exists m. split; [done|]. split; [done|]. split; [by apply keyed_getKey|].
    destruct Hk as (_ & _ & [e He]). unfold Pairs.keyEvent in He.
    destruct (connects m); [left; by eexists|].
    destruct (requests m); [right; by eexists | done].
  - intros k k' p. by apply wf_unique.
Qed.

Lemma reachable_map_consistent_witness :
  let na := Sample.analyzer ∅ ∅ [] in
  let r1 := Sample.evt 1 10 1 40000 8080 100 (Sample.bs [1]%N) in
  let σ := from_option fst initialState (run na initialState [Request r1]) in
  ∃ p m, requestMonitor σ !! getMessagePairKey r1 = Some p ∧
         heap σ !! p = Some m ∧ sent_once m = false ∧
         Pairs.getKey m = getMessagePairKey r1.
Proof.
  intros na r1 σ.
  assert (reachable na σ) as Hr.
  { exists [Request r1], []. split; [done|]. by vm_compute. }
  destruct (requestMonitor σ !! getMessagePairKey r1) as [p|] eqn:Hp;
    [|by vm_compute in Hp].
  destruct (proj1 (reachable_map_consistent na σ Hr) _ _ Hp) as (m & Hm & Hs & Hk & _).
  by exists p, m.
Defined.

(** ** The flow gauges *)

Lemma to_int64_mod z : GoLib.to_int64 z mod 2 ^ 64 = z mod 2 ^ 64.
Proof.
  unfold GoLib.to_int64.
  rewrite Zminus_mod, Zmod_mod, <- Zminus_mod.
  f_equal. lia.
Qed.

Lemma recordMessagePairSize_total evt count σ :
  (tcpMessagePairSize (recordMessagePairSize evt count σ)
   + udpMessagePairSize (recordMessagePairSize evt count σ)) mod 2 ^ 64
  = (tcpMessagePairSize σ + udpMessagePairSize σ + count) mod 2 ^ 64.
Proof.
  unfold recordMessagePairSize. cbn [tcpMessagePairSize udpMessagePairSize].
  destruct (evt_isUdp evt).
  - rewrite Zplus_mod, to_int64_mod, <- Zplus_mod. f_equal. lia.
  - rewrite Zplus_mod, to_int64_mod, <- Zplus_mod. f_equal. lia.
Qed.

Lemma parseProtocols_gauges na σ mps σ' records :
  parseProtocols na σ mps = Records (σ', records) →
  tcpMessagePairSize σ' = tcpMessagePairSize σ ∧
  udpMessagePairSize σ' = udpMessagePairSize σ.
Proof.
  assert (∀ σ0 σ1, reinserted mps σ0 σ1 →
            tcpMessagePairSize σ1 = tcpMessagePairSize σ0 ∧
            udpMessagePairSize σ1 = udpMessagePairSize σ0) as Hre.
  { intros σ0 σ1 H. by apply reinserted_registry in H as (_ & _ & _ & -> & ->). }
  assert (∀ port cs, tryCachedParsers na σ mps port cs = Records (σ', records) →
            tcpMessagePairSize σ' = tcpMessagePairSize σ ∧
            udpMessagePairSize σ' = udpMessagePairSize σ) as Hcached.
  { intros port cs. induction cs as [|c cs IH]; [done|]. cbn [tryCachedParsers].
    destruct (parseProtocol na σ mps c) as [| |[σ1 r1]] eqn:Ep; [done|done|].
    apply parseProtocol_frame, Hre in Ep.
    destruct (String.eqb protocol.NOSUPPORT (GetProtocol c)).
    - unfold Registry.AddPortCount. cbv beta iota.
      destruct (Z.eqb _ CACHE_RESET_THRESHOLD); by intros [= <- _].
    - by intros [= <- _]. }
  assert (∀ port cs, scanParsers na σ mps port cs = Records (σ', records) →
            tcpMessagePairSize σ' = tcpMessagePairSize σ ∧
            udpMessagePairSize σ' = udpMessagePairSize σ) as Hscan.
  { intros port cs. induction cs as [|c cs IH]; [done|]. cbn [scanParsers].
    destruct (parseProtocol na σ mps c) as [| |[σ1 r1]] eqn:Ep; [done|done|].
    apply parseProtocol_frame, Hre in Ep.
    unfold Registry.AddPortCount. cbv beta iota.
    destruct (Z.eqb _ CACHE_ADD_THRESHOLD); by intros [= <- _]. }
  unfold parseProtocols.
  destruct (staticPortMap na !! Pairs.getPort mps) as [sp|].
  - destruct (requests mps) as [reqs|] eqn:Hr.
    + destruct (protocolMap na !! sp) as [parser|].
      * destruct (parseProtocol na σ mps parser) as [| |[σ1 r1]] eqn:Ep; [done| |].
        -- intros H. by apply getRecords_frame, Hre in H.
        -- intros [= <- <-]. by apply parseProtocol_frame, Hre in Ep.
      * intros H. by apply getRecords_frame, Hre in H.
    + intros H. apply getConnectFailRecords_frame in H. by subst.
  - destruct (requests mps) as [reqs|] eqn:Hr.
    + destruct (Registry.GetCachedParsersByPort _ σ) as [cs|].
      * destruct (tryCachedParsers na σ mps _ cs) as [| |[σ1 r1]] eqn:Ec; [done| |].
        -- destruct (scanParsers na σ mps _ (parsers na)) as [| |[σ1 r1]] eqn:Es; [done| |].
           ++ intros H. by apply getRecords_frame, Hre in H.
           ++ intros [= <- <-]. by eapply Hscan.
        -- intros [= <- <-]. by eapply Hcached.
      * destruct (scanParsers na σ mps _ (parsers na)) as [| |[σ1 r1]] eqn:Es; [done| |].
        -- intros H. by apply getRecords_frame, Hre in H.
        -- intros [= <- <-]. by eapply Hscan.
    + intros H. apply getConnectFailRecords_frame in H. by subst.
Qed.

(** What a flush of a stored state does to the gauges: nothing when the
    state is replaced, one less when it is removed. *)
Lemma flush_gauges na σ K oldp newp σ' es :
  wf σ → requestMonitor σ !! K = Some oldp →
  match newp with
  | Some q =>
      ∃ new, heap σ !! q = Some new ∧ sent_once new = false ∧ keyed K new ∧
             ∀ k, requestMonitor σ !! k ≠ Some q
  | None => True
  end →
  gauges_agree σ →
  flush na σ oldp newp = Some (σ', es) → gauges_agree σ'.
Proof.
  intros Hwf HK Hnew Hg Hf.
  destruct (flush_wf _ _ _ _ _ _ _ Hwf HK Hnew Hf) as [_ Hm].
  revert Hf.
  destruct (Hwf _ _ HK) as (old & Hold & Hs & Hkeyed).
  destruct Hkeyed as (Hkc & Hkr & [queryEvt Hke]).
  unfold flush. rewrite (distributeTraceMetric_unsent _ _ _ _ _ _ Hold Hke Hs).
  destruct (flushing na σ oldp newp old queryEvt) as [[σ3 old']|] eqn:Ef; [|done].
  assert ((tcpMessagePairSize σ3 + udpMessagePairSize σ3) mod 2 ^ 64
          = (tcpMessagePairSize σ + udpMessagePairSize σ
             + match newp with Some _ => 0 | None => -1 end) mod 2 ^ 64) as H3.
  { revert Ef. unfold flushing. destruct newp as [q|].
    - destruct (heap (set_heap _ σ) !! q); cbn [mbind option_bind]; [|done].
      intros [= <- _]. cbn [tcpMessagePairSize udpMessagePairSize set_heap
                            set_requestMonitor]. f_equal. lia.
    - intros [= <- _].
      cbn [tcpMessagePairSize udpMessagePairSize set_heap set_requestMonitor].
      by rewrite recordMessagePairSize_total. }
  assert (∀ σ4, tcpMessagePairSize σ4 = tcpMessagePairSize σ3 →
                udpMessagePairSize σ4 = udpMessagePairSize σ3 →
                requestMonitor σ4 =
                  match newp with
                  | Some q => <[K := q]> (requestMonitor σ)
                  | None => delete K (requestMonitor σ)
                  end → gauges_agree σ4) as Hfin.
  { intros σ4 Ht Hu Hm4. unfold gauges_agree. rewrite Ht, Hu, H3, Hm4.
    unfold gauges_agree in Hg. destruct newp as [q|].
    - rewrite map_size_insert_Some by by eexists.
      rewrite Z.add_0_r. exact Hg.
    - assert (size (requestMonitor σ) = S (size (delete K (requestMonitor σ)))) as Hsz.
      { rewrite map_size_delete_Some by by eexists.
        assert (size (requestMonitor σ) ≠ 0%nat); [|lia].
        intros H0. apply map_size_empty_inv in H0. by rewrite H0 in HK. }
      rewrite Hsz in Hg. rewrite Zplus_mod, Hg, <- Zplus_mod. f_equal. lia. }
  destruct (parseProtocols na σ3 old') as [| |[σ4 records]] eqn:Epp; [done| |].
  - by destruct (parseProtocols_not_nil na σ3 old').
  - intros [= <- <-].
    destruct (parseProtocols_gauges _ _ _ _ _ Epp) as [Ht Hu].
    apply Hfin; [done|done|]. exact Hm.
Qed.

Lemma gauges_ext σ σ' :
  requestMonitor σ' = requestMonitor σ →
  tcpMessagePairSize σ' = tcpMessagePairSize σ →
  udpMessagePairSize σ' = udpMessagePairSize σ →
  gauges_agree σ → gauges_agree σ'.
Proof. unfold gauges_agree. by intros -> -> ->. Qed.

Lemma gauges_store_new evt k p σ :
  requestMonitor σ !! k = None → gauges_agree σ →
  gauges_agree (recordMessagePairSize evt 1 (set_requestMonitor <[k := p]> σ)).
Proof.
  intros Hk Hg. unfold gauges_agree in *.
  rewrite recordMessagePairSize_total.
  cbn [requestMonitor recordMessagePairSize set_requestMonitor
       tcpMessagePairSize udpMessagePairSize].
  rewrite map_size_insert_None by done.
  rewrite Zplus_mod, Hg, <- Zplus_mod. f_equal. lia.
Qed.

Lemma gauges_store_same k p q σ :
  requestMonitor σ !! k = Some q → gauges_agree σ →
  gauges_agree (set_requestMonitor <[k := p]> σ).
Proof.
  intros Hk Hg. unfold gauges_agree in *.
  cbn [requestMonitor set_requestMonitor tcpMessagePairSize udpMessagePairSize].
  by rewrite map_size_insert_Some by by eexists.
Qed.

Lemma analyseRequest_gauges na σ evt σ' es :
  wf σ → gauges_agree σ → analyseRequest na σ evt = Some (σ', es) → gauges_agree σ'.
Proof.
  intros Hwf Hg. unfold analyseRequest.
  set (mps := {| connects := None;
                 requests := Some (Events.newEvents evt (snaplen na));
                 responses := None; natTuple := None; sent_once := false;
                 maxPayloadLength := snaplen na |}).
  pose proof (wf_alloc mps σ Hwf) as (Hwf1 & Hm1 & Hp & Hfresh & _).
  assert (gauges_agree (alloc mps σ).2) as Hg1 by (by apply (gauges_ext σ)).
  destruct (alloc mps σ) as [p σ1]. cbn [fst snd] in *.
  assert (keyed (getMessagePairKey evt) mps) as Hkeyed.
  { split; [done|]. split; [by intros r [= <-] | by eexists]. }
  change (Pairs.getKey mps) with (getMessagePairKey evt).
  destruct (requestMonitor σ1 !! getMessagePairKey evt) as [oldp|] eqn:HK.
  - destruct (Hwf1 _ _ HK) as (old & Hold & Hs & Hko). rewrite Hold. cbn [mbind option_bind].
    destruct (requests old) as [oldReqs|] eqn:Hr.
    + destruct (_ || _).
      * intros Hf. eapply (flush_gauges na σ1 _ oldp (Some p)); [done|done| |done|done].
        by exists mps.
      * intros [= <- <-]. by apply (gauges_ext σ1).
    + destruct (connects old) as [c|] eqn:Hc.
      * intros [= <- <-].
        assert (keyed (getMessagePairKey evt) (Pairs.mergeRequest old evt)) as Hkm
          by (by apply keyed_mergeRequest).
        rewrite (keyed_getKey _ _ Hkm).
        eapply gauges_store_same; [exact HK|]. by apply (gauges_ext σ1).
      * intros [= <- <-]. by eapply gauges_store_same.
  - intros [= <- <-]. by apply gauges_store_new.
Qed.

Lemma analyseConnect_gauges na σ evt σ' es :
  wf σ → gauges_agree σ → analyseConnect na σ evt = Some (σ', es) → gauges_agree σ'.
Proof.
  intros Hwf Hg. unfold analyseConnect.
  set (mps := {| connects := Some (Events.newEvents evt (snaplen na));
                 requests := None;
                 responses := None; natTuple := None; sent_once := false;
                 maxPayloadLength := snaplen na |}).
  pose proof (wf_alloc mps σ Hwf) as (Hwf1 & Hm1 & Hp & Hfresh & _).
  assert (gauges_agree (alloc mps σ).2) as Hg1 by (by apply (gauges_ext σ)).
  destruct (alloc mps σ) as [p σ1]. cbn [fst snd] in *.
  assert (keyed (getMessagePairKey evt) mps) as Hkeyed.
  { split; [by intros r [= <-]|]. split; [done | by eexists]. }
  change (Pairs.getKey mps) with (getMessagePairKey evt).
  destruct (requestMonitor σ1 !! getMessagePairKey evt) as [oldp|] eqn:HK.
  - destruct (Hwf1 _ _ HK) as (old & Hold & Hs & Hko). rewrite Hold. cbn [mbind option_bind].
    assert (∀ σ' es, flush na σ1 oldp (Some p) = Some (σ', es) → gauges_agree σ')
      as Hflush.
    { intros σ2 es2 Hf.
      eapply (flush_gauges na σ1 _ oldp (Some p)); [done|done| |done|done].
      by exists mps. }
    destruct (requests old), (connects old) as [conns|]; try apply Hflush.
    destruct (Events.IsTimeout _ _ _); [apply Hflush|].
    intros [= <- <-]. by apply (gauges_ext σ1).
  - intros [= <- <-]. by apply gauges_store_new.
Qed.

Lemma analyseResponse_gauges na σ evt σ' es :
  wf σ → gauges_agree σ → analyseResponse na σ evt = Some (σ', es) → gauges_agree σ'.
Proof.
  intros Hwf Hg. unfold analyseResponse.
  destruct (requestMonitor σ !! getMessagePairKey evt) as [oldp|] eqn:HK.
  - destruct (Hwf _ _ HK) as (old & Hold & Hs & Hko). rewrite Hold. cbn [mbind option_bind].
    destruct (requests old).
    + intros [= <- <-].
      assert (keyed (getMessagePairKey evt) (Pairs.mergeResponse old evt)) as Hkm
        by (by apply keyed_mergeResponse).
      rewrite (keyed_getKey _ _ Hkm).
      eapply gauges_store_same; [exact HK|]. by apply (gauges_ext σ).
    + by intros [= <- <-].
  - by intros [= <- <-].
Qed.

Lemma sweepEntry_gauges na now σ k p σ' es :
  wf σ → requestMonitor σ !! k = Some p → gauges_agree σ →
  sweepEntry na now σ p = Some (σ', es) → gauges_agree σ'.
Proof.
  intros Hwf HK Hg. unfold sweepEntry.
  destruct (Hwf _ _ HK) as (old & Hold & _). rewrite Hold. cbn [mbind option_bind].
  assert (∀ σ' es, flush na σ p None = Some (σ', es) → gauges_agree σ') as Hflush.
  { intros σ2 es2 Hf. by eapply (flush_gauges na σ k p None). }
  destruct (negb _); [|by intros [= <- <-]].
  destruct (_ && _); [apply Hflush|].
  destruct (_ <=? _); [apply Hflush|].
  by intros [= <- <-].
Qed.

Lemma sweepEntries_gauges na now ps σ σ' es :
  wf σ → NoDup ps → (∀ p, p ∈ ps → ∃ k, requestMonitor σ !! k = Some p) →
  gauges_agree σ →
  sweepEntries na now σ ps = Some (σ', es) → gauges_agree σ'.
Proof.
  revert σ σ' es. induction ps as [|p ps IH]; intros σ σ' es Hwf Hnd Hin Hg.
  - by intros [= <- <-].
  - cbn [sweepEntries].
    destruct (sweepEntry na now σ p) as [[σ1 es1]|] eqn:E1; [|done]. cbn [mbind option_bind].
    destruct (sweepEntries na now σ1 ps) as [[σ2 es2]|] eqn:E2; [|done]. cbn [mbind option_bind].
    intros [= <- <-].
    apply NoDup_cons in Hnd as [Hp Hnd].
    destruct (Hin p) as [k Hk]; [left|].
    destruct (sweepEntry_wf _ _ _ _ _ _ _ Hwf Hk E1) as [Hwf1 Hm1].
    eapply (IH σ1); [done|done| |exact (sweepEntry_gauges _ _ _ _ _ _ _ Hwf Hk Hg E1)|done].
    intros q Hq. destruct (Hin q) as [kq Hkq]; [by right|].
    exists kq. destruct Hm1 as [-> | ->]; [done|].
    rewrite lookup_delete_ne; [done|]. intros <-.
    rewrite Hk in Hkq. injection Hkq as <-. done.
Qed.

Lemma sweep_gauges na now σ σ' es :
  wf σ → gauges_agree σ → sweep na now σ = Some (σ', es) → gauges_agree σ'.
Proof.
  intros Hwf Hg. unfold sweep. apply sweepEntries_gauges; [done| | |done].
  - apply NoDup_fmap_2_strong; [|apply NoDup_map_to_list].
    intros [k1 p1] [k2 p2] H1 H2 Heq. simpl in Heq. subst p2.
    apply elem_of_map_to_list in H1, H2.
    by rewrite (wf_unique _ _ _ _ Hwf H1 H2).
  - intros p Hp. apply list_elem_of_fmap in Hp as ([k p'] & -> & Hkp).
    exists k. by apply elem_of_map_to_list.
Qed.

Lemma step_wf na σ a σ' es :
  sequential a = true → wf σ → step na σ a = Some (σ', es) → wf σ'.
Proof.
  intros Ha Hwf E1. destruct a; simpl in E1; try done.
  - by eapply analyseConnect_wf.
  - by eapply analyseRequest_wf.
  - by eapply analyseResponse_wf.
  - by eapply sweep_wf.
Qed.

(** X7.  In every state the sequential program reaches, the tcp and the udp
    flow gauges add up (as 64-bit numbers) to the number of states in the
    flow state map: a state is counted when it is first stored under a key,
    stays counted while it is replaced under that key, and is discounted
    when the sweeper removes it. *)
Theorem gauges_count_stored_states na σ :
  reachable na σ →
  (tcpMessagePairSize σ + udpMessagePairSize σ) mod 2 ^ 64
  = Z.of_nat (size (requestMonitor σ)) mod 2 ^ 64.
Proof.
  intros (acts & es & Hseq & Hrun).
  assert (∀ σ0, wf σ0 → gauges_agree σ0 → run na σ0 acts = Some (σ, es) →
                gauges_agree σ) as Hgen.
  { clear Hrun. revert es. induction acts as [|a acts IH]; intros es σ0 Hwf0 Hg0.
    - by intros [= <- <-].
    - cbn [run]. cbn [forallb] in Hseq. apply andb_prop in Hseq as [Ha Hseq].
      destruct (step na σ0 a) as [[σ1 es1]|] eqn:E1; [|done]. cbn [mbind option_bind].
      destruct (run na σ1 acts) as [[σ2 es2]|] eqn:E2; [|done]. cbn [mbind option_bind].
      intros [= <- <-]. eapply (IH Hseq); [by eapply step_wf| |done].
      destruct a; simpl in E1; try done.
      + by eapply analyseConnect_gauges.
      + by eapply analyseRequest_gauges.
      + by eapply analyseResponse_gauges.
      + by eapply sweep_gauges. }
  eapply Hgen; [apply wf_initial | done | done].
Qed.

Lemma gauges_count_stored_states_witness :
  let na := Sample.analyzer ∅ ∅ [] in
  let r1 := Sample.evt 1 10 1 40000 8080 100 (Sample.bs [1]%N) in
  let σ := from_option fst initialState (run na initialState [Request r1]) in
  (tcpMessagePairSize σ + udpMessagePairSize σ) mod 2 ^ 64
  = Z.of_nat (size (requestMonitor σ)) mod 2 ^ 64.
Proof.
  intros na r1 σ.
  apply (gauges_count_stored_states na σ).
  exists [Request r1], []. split; [done|]. by vm_compute.
Defined.

(** ** The response handler *)

(** X8.  In a state the sequential program reaches, a response event never
    flushes, creates or removes a state and never fails: the map is left as
    it is and nothing is emitted.  When no state is stored under the event's
    key, or the stored state has no request, the event is dropped and the
    analyzer is unchanged; otherwise the event is merged into the stored
    state, and no other state changes. *)
Theorem response_only_updates_its_state na σ evt :
  reachable na σ →
  ∃ σ', analyseResponse na σ evt = Some (σ', []) ∧
    requestMonitor σ' = requestMonitor σ ∧
    match requestMonitor σ !! getMessagePairKey evt with
    | None => σ' = σ
    | Some p =>
        ∃ old, heap σ !! p = Some old ∧
          match requests old with
          | None => σ' = σ
          | Some _ => heap σ' = <[p := Pairs.mergeResponse old evt]> (heap σ)
          end
    end.
Proof.
  intros Hr. apply reachable_wf in Hr. unfold analyseResponse.
  destruct (requestMonitor σ !! getMessagePairKey evt) as [oldp|] eqn:HK.
  - destruct (Hr _ _ HK) as (old & Hold & Hs & Hko). rewrite Hold.
    cbn [mbind option_bind].
    destruct (requests old) as [reqs|] eqn:Hq.
    + eexists. split; [reflexivity|].
      assert (keyed (getMessagePairKey evt) (Pairs.mergeResponse old evt)) as Hkm
        by (by apply keyed_mergeResponse).
      rewrite (keyed_getKey _ _ Hkm).
      cbn [requestMonitor heap set_heap set_requestMonitor].
      split; [by apply insert_id|].
      exists old. by rewrite Hq.
    + exists σ. split; [done|]. split; [done|]. exists old. by rewrite Hq.
  - by exists σ.
Qed.

Lemma response_only_updates_its_state_witness :
  let na := Sample.analyzer ∅ ∅ [] in
  let r1 := Sample.evt 1 10 1 40000 8080 100 (Sample.bs [1]%N) in
  let a1 := Sample.evt 1 10 1 40000 8080 150 (Sample.bs [2]%N) in
  let σ := from_option fst initialState (run na initialState [Request r1]) in
  ∃ σ', analyseResponse na σ a1 = Some (σ', []) ∧
        requestMonitor σ' = requestMonitor σ.
Proof.
  intros na r1 a1 σ.
  destruct (response_only_updates_its_state na σ a1) as (σ' & H1 & H2 & _).
  { exists [Request r1], []. split; [done|]. by vm_compute. }
  by exists σ'.
Defined.

(** ** One tick of the sweeper *)

Lemma sweepEntry_due na now σ p m :
  heap σ !! p = Some m →
  sweepEntry na now σ p = if due na now m then flush na σ p None else Some (σ, []).
Proof.
  intros Hm. unfold sweepEntry, due. rewrite Hm. cbn [mbind option_bind].
  destruct (negb _); [|done]. cbn [andb].
  destruct (_ && _); [done|]. cbn [orb].
  by destruct (_ <=? _).
Qed.

(** The flush of a stored state by the sweeper: one emission for the state,
    its key removed, its latch set, no other state touched. *)
Lemma flush_removed na σ K p σ' es :
  wf σ → requestMonitor σ !! K = Some p →
  flush na σ p None = Some (σ', es) →
  (∃ records, es = [(p, records)]) ∧
  requestMonitor σ' = delete K (requestMonitor σ) ∧
  (∀ q, q ≠ p → heap σ' !! q = heap σ !! q) ∧
  latched σ' p = true.
Proof.
  intros Hwf HK Hf.
  destruct (flush_wf _ _ _ _ None _ _ Hwf HK I Hf) as [_ Hm].
  revert Hf.
  destruct (Hwf _ _ HK) as (old & Hold & Hs & Hkeyed).
  destruct Hkeyed as (Hkc & Hkr & [queryEvt Hke]).
  unfold flush. rewrite (distributeTraceMetric_unsent _ _ _ _ _ _ Hold Hke Hs).
  destruct (flushing na σ p None old queryEvt) as [[σ3 old']|] eqn:Ef; [|done].
  destruct (flushing_wf _ _ _ _ None _ _ _ _ Hwf HK Hold I Ef)
    as (Hwf3 & Hr3 & _ & _ & Hp3 & Hfr3 & Hm3).
  assert (sent_once old' = true) as Hlatch.
  { revert Ef. unfold flushing. intros [= _ <-].
    by rewrite (proj2 (proj2 (proj2 (relateConntrack_fields na queryEvt _)))). }
  destruct (parseProtocols na σ3 old') as [| |[σ4 records]] eqn:Epp; [done| |].
  - by destruct (parseProtocols_not_nil na σ3 old').
  - intros [= <- <-].
    assert (heap σ4 = heap σ3) as Hh.
    { destruct (parseProtocols_frame_heap _ _ _ _ _ Epp)
        as [Hh | (reqs & q & Hreq & Hq & _)]; [done|].
      exfalso. rewrite Hr3 in Hreq. rewrite (Hkr _ Hreq), Hm3 in Hq.
      by rewrite lookup_delete_eq in Hq. }
    split; [by eexists|]. split; [done|]. split.
    + intros q Hq. rewrite Hh. by apply Hfr3.
    + unfold latched. by rewrite Hh, Hp3.
Qed.

(** The loop of a tick over the pointers [ps], started in [σ]. *)
Lemma sweepEntries_exact na now ps σ σ' es :
  wf σ → NoDup ps → (∀ p, p ∈ ps → ∃ k, requestMonitor σ !! k = Some p) →
  sweepEntries na now σ ps = Some (σ', es) →
  (∀ k, requestMonitor σ !! k = None → requestMonitor σ' !! k = None) ∧
  (∀ q, q ∉ ps → emissionsOf q es = 0%nat) ∧
  (∀ k p m, requestMonitor σ !! k = Some p → heap σ !! p = Some m →
     if bool_decide (p ∈ ps) && due na now m
     then requestMonitor σ' !! k = None ∧ emissionsOf p es = 1%nat ∧
          latched σ' p = true
     else requestMonitor σ' !! k = Some p ∧ heap σ' !! p = Some m ∧
          emissionsOf p es = 0%nat).
Proof.
  revert σ σ' es. induction ps as [|p ps IH]; intros σ σ' es Hwf Hnd Hin.
  - intros [= <- <-]. split; [done|]. split; [done|].
    intros k p m Hk Hm. rewrite bool_decide_eq_false_2 by apply not_elem_of_nil.
    done.
  - cbn [sweepEntries].
    destruct (sweepEntry na now σ p) as [[σ1 es1]|] eqn:E1; [|done]. cbn [mbind option_bind].
    destruct (sweepEntries na now σ1 ps) as [[σ2 es2]|] eqn:E2; [|done]. cbn [mbind option_bind].
    intros [= <- <-].
    apply NoDup_cons in Hnd as [Hp Hnd].
    destruct (Hin p) as [k Hk]; [left|].
    destruct (sweepEntry_wf _ _ _ _ _ _ _ Hwf Hk E1) as [Hwf1 Hm1].
    destruct (Hwf _ _ Hk) as (m & Hm & _).
    assert (∀ q, q ∈ ps → ∃ kq, requestMonitor σ1 !! kq = Some q) as Hin1.
    { intros q Hq. destruct (Hin q) as [kq Hkq]; [by right|].
      exists kq. destruct Hm1 as [-> | ->]; [done|].
      rewrite lookup_delete_ne; [done|]. intros <-.
      rewrite Hk in Hkq. injection Hkq as <-. done. }
    destruct (IH σ1 σ2 es2 Hwf1 Hnd Hin1 E2) as (IHnone & IHquiet & IHall).
    pose proof (sweepEntries_once _ _ _ _ _ _ E2) as Honce.
    rewrite (sweepEntry_due _ _ _ _ _ Hm) in E1.
    destruct (due na now m) eqn:Hdue.
    + (* the entry is flushed and removed *)
      destruct (flush_removed _ _ _ _ _ _ Hwf Hk E1)
        as ([records ->] & Hmon1 & Hfr1 & Hl1).
      destruct (Honce p) as (Hkeep & _). destruct (Hkeep Hl1) as [Hl2 Hq2].
      split; [|split].
      * intros k0 Hk0. apply IHnone. rewrite Hmon1.
        destruct (decide (k = k0)) as [<-|Hne]; [apply lookup_delete_eq|].
        by rewrite lookup_delete_ne.
      * intros q Hq. apply not_elem_of_cons in Hq as [Hqp Hq].
        rewrite emissionsOf_app, emissionsOf_one, (IHquiet q Hq).
        by rewrite decide_False by done.
      * intros k0 p0 m0 Hk0 Hm0. rewrite emissionsOf_app, emissionsOf_one.
        destruct (decide (p = p0)) as [<-|Hne].
        -- rewrite Hm in Hm0. injection Hm0 as <-.
           rewrite (wf_unique _ _ _ _ Hwf Hk0 Hk).
           rewrite bool_decide_eq_true_2 by left. rewrite Hdue. cbn [andb].
           split; [|split; [lia|done]].
           apply IHnone. rewrite Hmon1. apply lookup_delete_eq.
        -- assert (k ≠ k0) as Hkne.
           { intros <-. rewrite Hk in Hk0. by injection Hk0. }
           assert (requestMonitor σ1 !! k0 = Some p0) as Hk1
             by (by rewrite Hmon1, lookup_delete_ne).
           assert (heap σ1 !! p0 = Some m0) as Hm1'
             by (rewrite Hfr1; [done | by apply not_eq_sym]).
           specialize (IHall _ _ _ Hk1 Hm1').
           assert (bool_decide (p0 ∈ p :: ps) = bool_decide (p0 ∈ ps)) as ->.
           { apply bool_decide_ext. rewrite elem_of_cons.
             split; [intros [->|]; done | by right]. }
           destruct (bool_decide (p0 ∈ ps) && due na now m0); naive_solver.
    + (* the entry is left alone *)
      injection E1 as <- <-. cbn [app].
      split; [done|]. split.
      * intros q Hq. apply not_elem_of_cons in Hq as [_ Hq]. by apply IHquiet.
      * intros k0 p0 m0 Hk0 Hm0. specialize (IHall _ _ _ Hk0 Hm0).
        destruct (decide (p = p0)) as [<-|Hne].
        -- rewrite Hm in Hm0. injection Hm0 as <-. rewrite Hdue, andb_false_r.
           rewrite bool_decide_eq_false_2 in IHall by done. done.
        -- assert (bool_decide (p0 ∈ p :: ps) = bool_decide (p0 ∈ ps)) as ->.
           { apply bool_decide_ext. rewrite elem_of_cons.
             split; [intros [->|]; done | by right]. }
           done.
Qed.

(** X9.  One tick of the sweeper, in a state the sequential program reaches:
    every stored state that is due at the tick (its last event is old enough
    for the threshold that applies to it) is flushed exactly once, its latch
    set and its key removed; every other stored state stays under its key,
    untouched and without emission; no key is added. *)
Theorem sweep_flushes_exactly_the_due_states na now σ σ' es :
  reachable na σ → sweep na now σ = Some (σ', es) →
  (∀ k, requestMonitor σ !! k = None → requestMonitor σ' !! k = None) ∧
  (∀ k p m, requestMonitor σ !! k = Some p → heap σ !! p = Some m →
     if due na now m
     then requestMonitor σ' !! k = None ∧ emissionsOf p es = 1%nat ∧
          latched σ' p = true
     else requestMonitor σ' !! k = Some p ∧ heap σ' !! p = Some m ∧
          emissionsOf p es = 0%nat).
Proof.
  intros Hr Hs. apply reachable_wf in Hr. unfold sweep in Hs.
  assert (NoDup (snd <$> map_to_list (requestMonitor σ))) as Hnd.
  { apply NoDup_fmap_2_strong; [|apply NoDup_map_to_list].
    intros [k1 p1] [k2 p2] H1 H2 Heq. simpl in Heq. subst p2.
    apply elem_of_map_to_list in H1, H2.
    by rewrite (wf_unique _ _ _ _ Hr H1 H2). }
  assert (∀ p, p ∈ snd <$> map_to_list (requestMonitor σ) →
               ∃ k, requestMonitor σ !! k = Some p) as Hin.
  { intros p Hp. apply list_elem_of_fmap in Hp as ([k p'] & -> & Hkp).
    exists k. by apply elem_of_map_to_list. }
  destruct (sweepEntries_exact na now _ σ σ' es Hr Hnd Hin Hs) as (Hnone & _ & Hall).
  split; [done|]. intros k p m Hk Hm. specialize (Hall _ _ _ Hk Hm).
  rewrite bool_decide_eq_true_2 in Hall; [done|].
  apply list_elem_of_fmap. exists (k, p). split; [done|].
  by apply elem_of_map_to_list.
Qed.


Lemma sweep_flushes_exactly_the_due_states_witness :
  let na := Sample.analyzer ∅ ∅ [] in
  let r1 := Sample.evt 1 10 1 40000 8080 100 (Sample.bs [1]%N) in
  let σ := from_option fst initialState (run na initialState [Request r1]) in
  ∃ σ' es, sweep na 200000000000 σ = Some (σ', es) ∧
           requestMonitor σ' !! getMessagePairKey r1 = None.
Proof.
  intros na r1 σ.
  assert (reachable na σ) as Hr.
  { exists [Request r1], []. split; [done|]. by vm_compute. }
  destruct (sweep na 200000000000 σ) as [[σ' es]|] eqn:Hs; [|by vm_compute in Hs].
  set (m := {| connects := None;
                 requests := Some (Events.newEvents r1 (snaplen na));
                 responses := None; natTuple := None; sent_once := false;
                 maxPayloadLength := snaplen na |}).
  assert (∃ p, requestMonitor σ !! getMessagePairKey r1 = Some p ∧
                 heap σ !! p = Some m)
    as (p & Hk & Hm).
  { eexists. split; vm_compute; reflexivity. }
  assert (due na 200000000000 m = true) as Hd by (vm_compute; reflexivity).
  destruct (sweep_flushes_exactly_the_due_states na _ σ σ' es Hr Hs) as [_ Hall].
  pose proof (Hall _ _ _ Hk Hm) as Hall'.
  rewrite Hd in Hall'.
  exists σ', es. split; [done|]. apply Hall'.
Defined.

(** ** Protocol resolution: the mergeable parse *)

Lemma getRecords_continue na σ mps reqs protocol attrs :
  requests mps = Some reqs →
  Attr.HasAttribute constlabels.HttpContinue attrs = true →
  ∃ σ', getRecords na σ mps protocol (Some attrs) = Records (σ', []) ∧
        reinserted mps σ σ'.
Proof.
  intros Hr Hc. unfold getRecords. rewrite Hr. cbn [hasHttpContinue]. rewrite Hc.
  destruct (requestMonitor σ !! _) as [q|] eqn:Eq.
  - eexists. split; [reflexivity|]. right. rewrite Hr. by exists reqs, q.
  - exists σ. split; [done | by left].
Qed.

(** X11.  A parser of mergeable data, on a state with requests, never
    panics.  It fails exactly when the request payload does not parse or
    the state has a response whose payload does not parse (the response
    parser being given the request's attributes).  Otherwise it yields no
    record for a one-way request without response and for an interim
    (continue) result, and else exactly one record, labelled and classified
    from the attributes of the last parse; the analyzer's state is changed
    only by putting the requests of an interim result back. *)
Theorem mergeable_parse_outcome na σ mps parser reqs :
  MultiRequests parser = false → requests mps = Some reqs →
  let cap := maxPayloadLength mps in
  let parsed :=
    requestAttrs ← ParseRequest parser (Events.getData reqs cap);
    match responses mps with
    | Some resps => ParseResponse parser (Events.getData resps cap) requestAttrs
    | None => Some requestAttrs
    end in
  match parsed with
  | None => parseProtocol na σ mps parser = Nil
  | Some attrs =>
      ∃ σ' records,
        parseProtocol na σ mps parser = Records (σ', records) ∧
        reinserted mps σ σ' ∧
        if (bool_decide (responses mps = None)
            && Attr.GetBoolValue constlabels.Oneway attrs)
           || Attr.HasAttribute constlabels.HttpContinue attrs
        then records = []
        else σ' = σ ∧
             ∃ r, records = [r] ∧
               classification r
               = expectedClass (Some attrs) (bool_decide (is_Some (responses mps)))
  end.
Proof.
  intros Hmulti Hr cap parsed. subst parsed cap.
  unfold parseProtocol. rewrite Hmulti, Hr.
  destruct (ParseRequest parser _) as [requestAttrs|]; cbn [mbind option_bind]; [|done].
  destruct (responses mps) as [resps|] eqn:Hresp.
  - destruct (ParseResponse parser _ _) as [attrs|]; [|done].
    rewrite bool_decide_eq_false_2 by done. cbn [andb orb].
    destruct (Attr.HasAttribute constlabels.HttpContinue attrs) eqn:Hc.
    + destruct (getRecords_continue na σ mps reqs (GetProtocol parser) attrs Hr Hc)
        as (σ' & Hg & Hre).
      by exists σ', [].
    + destruct (getRecords_class na σ mps reqs (GetProtocol parser) (Some attrs) Hr Hc)
        as (r & Hg & Hclass).
      exists σ, [r]. split; [done|]. split; [by left|]. split; [done|].
      exists r. split; [done|]. by rewrite Hclass, Hresp.
  - rewrite bool_decide_eq_true_2 by done. cbn [andb].
    destruct (Attr.GetBoolValue constlabels.Oneway requestAttrs); cbn [orb].
    + exists σ, []. split; [done|]. split; [by left|done].
    + destruct (Attr.HasAttribute constlabels.HttpContinue requestAttrs) eqn:Hc.
      * destruct (getRecords_continue na σ mps reqs (GetProtocol parser)
                    requestAttrs Hr Hc) as (σ' & Hg & Hre).
        by exists σ', [].
      * destruct (getRecords_class na σ mps reqs (GetProtocol parser)
                    (Some requestAttrs) Hr Hc) as (r & Hg & Hclass).
        exists σ, [r]. split; [done|]. split; [by left|]. split; [done|].
        exists r. split; [done|]. by rewrite Hclass, Hresp.
Qed.

Lemma mergeable_parse_outcome_witness :
  let na := Sample.analyzer ∅ ∅ [] in
  let r1 := Sample.evt 1 10 1 40000 8080 100 (Sample.bs [1]%N) in
  let mps := Sample.state None (Some (Events.newEvents r1 1000)) None in
  ∃ σ' records,
    parseProtocol na initialState mps Sample.genericParser = Records (σ', records).
Proof.
  intros na r1 mps.
  pose proof (mergeable_parse_outcome na initialState mps Sample.genericParser
                (Events.newEvents r1 1000) eq_refl eq_refl) as H.
  cbv zeta in H.
  destruct (ParseRequest Sample.genericParser _ ≫= _) as [attrs|] eqn:E in H.
  - destruct H as (σ' & records & H & _). by exists σ', records.
  - by vm_compute in E.
Defined.

(** ** The DNS parser *)

Lemma byteZ_range b : 0 ≤ Dns.byteZ b < 256.
Proof.
  unfold Dns.byteZ. pose proof (Byte.to_N_bounded b). lia.
Qed.

Lemma ReadUInt16_16bit message offset v :
  Dns.ReadUInt16 message offset = Some v → 0 ≤ v < 65536.
Proof.
  unfold Dns.ReadUInt16. destruct (_ || _); [done|].
  destruct (_ !! _) as [hi|]; [|done]. destruct (_ !! _) as [lo|]; [|done].
  intros [= <-].
  pose proof (byteZ_range hi) as Hhi. pose proof (byteZ_range lo) as Hlo.
  assert (0 ≤ Z.shiftl (Dns.byteZ hi) 8 ≤ 255 * 256) as Hs.
  { rewrite Z.shiftl_mul_pow2 by lia. lia. }
  split; [apply Z.lor_nonneg; lia|].
  pose proof (Z.add_lor_land (Z.shiftl (Dns.byteZ hi) 8) (Dns.byteZ lo)) as Hadd.
  assert (0 ≤ Z.land (Z.shiftl (Dns.byteZ hi) 8) (Dns.byteZ lo))
    by (apply Z.land_nonneg; lia).
  lia.
Qed.

Lemma ReadUInt16'_16bit message offset : 0 ≤ Dns.ReadUInt16' message offset < 65536.
Proof.
  unfold Dns.ReadUInt16'. destruct (Dns.ReadUInt16 message offset) as [v|] eqn:E.
  - by apply ReadUInt16_16bit in E.
  - simpl. lia.
Qed.

Lemma ReadUInt16'_setOffset message o offset :
  Dns.ReadUInt16' (Dns.setOffset message o) offset = Dns.ReadUInt16' message offset.
Proof. reflexivity. Qed.

(** Once a domain is recorded, the later questions do not change it. *)
Lemma readQueryLoop_keeps h message n offset domain offset' domain' :
  domain ≠ "" →
  Dns.readQueryLoop h message n offset domain = Some (offset', domain') →
  domain' = domain.
Proof.
  intros Hd. revert offset. induction n as [|n IH]; intros offset.
  - by intros [= _ <-].
  - cbn [Dns.readQueryLoop]. destruct (Dns.IsComplete message); [done|].
    destruct (Dns.unpackDomainName h _ _) as [[name offset1]|]; [|done].
    destruct (_ <=? _); [done|].
    assert ((String.length domain =? 0)%nat = false) as ->.
    { apply Nat.eqb_neq. by destruct domain. }
    apply IH.
Qed.

(** What [readQuery] gives for a positive question count: the first question
    name decodes, and it is the domain unless it is empty. *)
Lemma readQuery_first h message count message' domain :
  0 < count →
  Dns.readQuery h message count = Some (message', domain) →
  Dns.IsComplete message = false ∧
  Dns.attributeMap message' = Dns.attributeMap message ∧
  ∃ name offset,
    Dns.unpackDomainName h (Dns.Data message) (Dns.Offset message + 12)
      = Some (name, offset) ∧
    offset < Dns.len message ∧
    (name ≠ "" → domain = name).
Proof.
  intros Hpos. unfold Dns.readQuery.
  destruct (Z.to_nat count) as [|n] eqn:Hn; [lia|].
  cbn [Dns.readQueryLoop].
  destruct (Dns.IsComplete message); [done|].
  destruct (Dns.unpackDomainName h _ _) as [[name offset1]|]; [|done].
  destruct (Dns.len message <=? offset1) eqn:Hlen; [done|].
  apply Z.leb_gt in Hlen.
  destruct (Dns.readQueryLoop _ _ _ _ _) as [[offset' domain']|] eqn:Eloop; [|done].
  intros [= <- <-]. split; [done|]. split; [done|].
  exists name, offset1. split; [done|]. split; [done|].
  intros Hname. cbn [String.length Nat.eqb] in Eloop.
  by apply readQueryLoop_keeps in Eloop.
Qed.

(** X12.  The DNS-over-TCP request parser accepts a payload only if it is
    longer than the 12-byte header and its question count (bytes 6 and 7,
    after the two-byte length prefix) is not zero.  An accepted request
    carries exactly two attributes: the id, which is the 16-bit number in
    bytes 2 and 3, and the domain; the first question name decodes at byte
    14 and is the domain unless it is empty. *)
Theorem dns_request_acceptance id h data attrs :
  ParseRequest (Dns.NewTcpDnsParser id h) data = Some attrs →
  let message := Dns.NewRequestMessage data in
  let dnsId := Dns.ReadUInt16' message 2 in
  (12 < length data)%nat ∧
  Dns.ReadUInt16' message 6 ≠ 0 ∧
  0 ≤ dnsId < 65536 ∧
  ∃ domain name offset,
    attrs = <[constlabels.DnsDomain := StrV domain]>
              (<[constlabels.DnsId := IntV dnsId]> ∅) ∧
    Dns.unpackDomainName h data 14 = Some (name, offset) ∧
    (name ≠ "" → domain = name).
Proof.
  intros H message dnsId. revert H.
  cbn [ParseRequest Dns.NewTcpDnsParser]. unfold Dns.runPkgParser.
  fold message.
  destruct (Dns.fastfailDnsRequest message) eqn:Hff; [done|].
  unfold Dns.fastfailDnsRequest, Dns.len, Dns.DNSHeaderSize in Hff.
  apply Z.leb_gt in Hff. cbn [Dns.Data message Dns.NewRequestMessage] in Hff.
  unfold Dns.parseTcpDnsRequest, Dns.parseDnsRequest.
  cbn [Dns.Offset Dns.setOffset message Dns.NewRequestMessage].
  rewrite !ReadUInt16'_setOffset.
  change (0 + 2 + 4) with 6. change (0 + 2) with 2. fold dnsId.
  destruct (Dns.ReadUInt16' message 6 =? 0) eqn:Hq; [done|].
  apply Z.eqb_neq in Hq.
  destruct (Dns.readQuery h _ _) as [[message1 domain]|] eqn:Eq; [|done].
  cbn [Dns.attributeMap Dns.setAttributes]. intros [= <-].
  pose proof (ReadUInt16'_16bit message 6) as Hrange.
  apply readQuery_first in Eq as (_ & Hattr & name & offset & Hname & _ & Hdom);
    [|lia].
  split; [lia|]. split; [done|]. split; [apply ReadUInt16'_16bit|].
  exists domain, name, offset. split; [|split; [exact Hname | exact Hdom]].
  by rewrite Hattr.
Qed.

Lemma dns_request_acceptance_witness :
  ∃ attrs,
    ParseRequest Sample.tcpDns (Sample.dnsQuery 7) = Some attrs ∧
    (12 < length (Sample.dnsQuery 7))%nat ∧
    Dns.ReadUInt16' (Dns.NewRequestMessage (Sample.dnsQuery 7)) 6 ≠ 0.
Proof.
  destruct (ParseRequest Sample.tcpDns (Sample.dnsQuery 7)) as [attrs|] eqn:E;
    [|by vm_compute in E].
  exists attrs. split; [done|].
  destruct (dns_request_acceptance 1 Sample.helpers (Sample.dnsQuery 7) attrs E)
    as (H1 & H2 & _).
  by split.
Defined.

(** X13.  The DNS-over-TCP response parser accepts a payload only if it is
    longer than 12 bytes and its question count is not zero.  An accepted
    response carries the id of bytes 2 and 3 and the RCODE, which is the low
    four bits of the flags and so at most 15; it keeps every attribute it
    was given other than the six the parser writes.  The answer section
    never makes the parser reject: acceptance depends on the header and the
    questions only. *)
Theorem dns_response_acceptance id h data given :
  let message := Dns.NewResponseMessage data given in
  let accepted :=
    negb (Dns.fastfailDnsResponse message)
    && negb (Dns.ReadUInt16' message 6 =? 0)
    && bool_decide (is_Some (Dns.readQuery h (Dns.setOffset message 2)
                               (Dns.ReadUInt16' message 6))) in
  (is_Some (ParseResponse (Dns.NewTcpDnsParser id h) data given)
     ↔ accepted = true) ∧
  ∀ attrs, ParseResponse (Dns.NewTcpDnsParser id h) data given = Some attrs →
    (12 < length data)%nat ∧
    Attr.GetIntValue constlabels.DnsId attrs = Dns.ReadUInt16' message 2 ∧
    Attr.GetIntValue constlabels.DnsRcode attrs
      = Z.land (Dns.ReadUInt16' message 4) 15 ∧
    0 ≤ Attr.GetIntValue constlabels.DnsRcode attrs ≤ 15 ∧
    ∀ k, k ∉ [constlabels.DnsDomain; constlabels.DnsIp; constlabels.DnsId;
              constlabels.DnsRcode; constlabels.IsError; constlabels.ErrorType] →
         attrs !! k = given !! k.
Proof.
  intros message accepted. subst accepted.
  cbn [ParseResponse Dns.NewTcpDnsParser]. unfold Dns.runPkgParser.
  fold message.
  destruct (Dns.fastfailDnsResponse message) eqn:Hff.
  { cbn [negb andb]. split; [|done]. split; [by intros [? ?] | done]. }
  unfold Dns.fastfailDnsResponse, Dns.len, Dns.DNSHeaderSize in Hff.
  apply Z.leb_gt in Hff. cbn [Dns.Data message Dns.NewResponseMessage] in Hff.
  unfold Dns.parseTcpDnsResponse, Dns.parseDnsResponse.
  cbn [Dns.Offset Dns.setOffset message Dns.NewResponseMessage].
  rewrite !ReadUInt16'_setOffset.
  change (0 + 2 + 2) with 4. change (0 + 2 + 4) with 6.
  change (0 + 2 + 6) with 8. change (0 + 2) with 2.
  fold message.
  change {| Dns.Data := data; Dns.Offset := 2; Dns.attributeMap := given |}
    with (Dns.setOffset message 2).
  destruct (Dns.ReadUInt16' message 6 =? 0) eqn:Hq.
  { cbn [negb andb]. split; [|done]. split; [by intros [? ?] | done]. }
  cbn [negb andb].
  destruct (Dns.readQuery h _ _) as [[message1 domain]|] eqn:Eq.
  2:{ split; [|done]. split; [by intros [? ?]|].
      intros Hb. apply bool_decide_eq_true in Hb. by destruct Hb. }
  destruct (Dns.readIpV4Answer h message1 _) as [message2 ip] eqn:Ea.
  split.
  { split; [intros _; by apply bool_decide_eq_true_2 | by eexists]. }
  intros attrs [= <-].
  assert (Dns.attributeMap message2 = given) as Hattr.
  { unfold Dns.readIpV4Answer in Ea. destruct (Dns.readIpV4Loop _ _ _ _ _).
    injection Ea as <- _. cbn [Dns.attributeMap Dns.setOffset].
    unfold Dns.readQuery in Eq.
    destruct (Dns.readQueryLoop _ _ _ _ _) as [[? ?]|]; [|done].
    by injection Eq as <- _. }
  cbn [Dns.setAttributes Dns.attributeMap]. rewrite Hattr.
  set (rcode := Z.land (Dns.ReadUInt16' message 4) 15).
  assert (0 ≤ rcode ≤ 15) as Hrange.
  { pose proof (ReadUInt16'_16bit message 4) as [H0 _]. unfold rcode. split.
    - apply Z.land_nonneg. by left.
    - assert (Z.land (Dns.ReadUInt16' message 4) 15
              = Dns.ReadUInt16' message 4 mod 16) as ->.
      { change 15 with (Z.ones 4). by rewrite Z.land_ones by lia. }
      pose proof (Z.mod_pos_bound (Dns.ReadUInt16' message 4) 16). lia. }
  unfold Attr.GetIntValue, Attr.GetBoolValue, Attr.AddIntValue, Attr.AddBoolValue,
    Attr.AddStringValue, Attr.UpdateAddIntValue, Attr.UpdateAddBoolValue,
    Attr.UpdateAddStringValue, constlabels.DnsRcode, constlabels.IsError,
    constlabels.ErrorType, constlabels.DnsId, constlabels.DnsDomain, constlabels.DnsIp,
    constlabels.ProtocolError.
  split; [lia|].
  destruct (0 <? rcode) eqn:Epos; destruct (0 <? String.length ip)%nat.
  all: split; [by repeat (rewrite ?lookup_insert_eq; rewrite ?lookup_insert_ne by done)|].
  all: split; [by repeat (rewrite ?lookup_insert_eq; rewrite ?lookup_insert_ne by done)|].
  all: split; [by repeat (rewrite ?lookup_insert_eq; rewrite ?lookup_insert_ne by done)|].
  all: intros k Hk; rewrite !not_elem_of_cons in Hk;
    destruct Hk as (? & ? & ? & ? & ? & ? & _);
    by rewrite ?lookup_insert_ne by done.
Qed.

(** ** [Start]: what the configuration turns into *)

Lemma foldl_insert_ports (key : string) (ports : list Z) (m : gmap Z string) port :
  foldl (λ m' p, <[p := key]> m') m ports !! port
  = if bool_decide (port ∈ ports) then Some key else m !! port.
Proof.
  revert m. induction ports as [|p ports IH]; intros m; [done|].
  cbn [foldl]. rewrite IH.
  destruct (decide (port ∈ ports)) as [Hin|Hin].
  - rewrite !bool_decide_eq_true_2; [done | by right | done].
  - rewrite (bool_decide_eq_false_2 _ Hin).
    destruct (decide (port = p)) as [->|Hne].
    + rewrite bool_decide_eq_true_2 by left. apply lookup_insert_eq.
    + rewrite bool_decide_eq_false_2 by (by intros [?|?]%elem_of_cons).
      by rewrite lookup_insert_ne.
Qed.

Lemma Start_staticPortMap_lookup configs port :
  Start_staticPortMap configs !! port = Key <$> last (listing port configs).
Proof.
  unfold Start_staticPortMap, listing.
  induction configs as [|c configs IH] using rev_ind; [done|].
  rewrite foldl_app, filter_app. cbn [foldl]. rewrite foldl_insert_ports, IH.
  rewrite filter_cons, filter_nil.
  destruct (decide (port ∈ Ports c)) as [Hin|Hin].
  - rewrite bool_decide_eq_true_2 by done. by rewrite last_snoc.
  - rewrite bool_decide_eq_false_2 by done. by rewrite app_nil_r.
Qed.

Lemma foldl_insert_last {A} (f : ProtocolConfig → A) configs key :
  foldl (λ m config, <[Key config := f config]> m) (∅ : gmap string A) configs !! key
  = f <$> last (entriesOf key configs).
Proof.
  unfold entriesOf.
  induction configs as [|c configs IH] using rev_ind; [done|].
  rewrite foldl_app, filter_app. cbn [foldl].
  rewrite filter_cons, filter_nil.
  destruct (decide (Key c = key)) as [Heq|Hne].
  - rewrite Heq, lookup_insert_eq. by rewrite last_snoc.
  - rewrite lookup_insert_ne by done. by rewrite app_nil_r.
Qed.

(** X14.  After [Start], a port is statically mapped exactly when some
    configuration entry lists it, and then to the key of the last entry
    that lists it: a later entry overrides an earlier one. *)
Theorem Start_static_port_last_entry_wins env config conntrack formatter factory
    configs names port :
  staticPortMap (Start env config conntrack formatter factory configs names) !! port
  = Key <$> last (listing port configs).
Proof. apply Start_staticPortMap_lookup. Qed.

(** X15.  After [Start], the slow threshold of a protocol is the threshold
    of the last configuration entry of that key when that threshold is
    positive; for a protocol without entry, and for one whose last entry has
    a zero or negative threshold, it is the global threshold. *)
Theorem Start_slow_threshold env config conntrack formatter factory configs names
    protocolName :
  getResponseSlowThreshold
    (Start env config conntrack formatter factory configs names) protocolName
  = match last (entriesOf protocolName configs) with
    | Some entry =>
        if 0 <? Threshold entry then Threshold entry
        else cfg_getResponseSlowThreshold config
    | None => cfg_getResponseSlowThreshold config
    end.
Proof.
  unfold getResponseSlowThreshold, Start, NewNetworkAnalyzer.
  cbn [slowThresholdMap cfg]. unfold Start_slowThresholdMap.
  rewrite (foldl_insert_last Threshold).
  by destruct (last (entriesOf protocolName configs)).
Qed.

Lemma Start_addParser_fold factory disabled names named parsers :
  foldl (Start_addParser factory disabled) (named, parsers) names
  = (foldl (λ m name, match GetParser factory name with
                      | Some parser => <[name := parser]> m
                      | None => m
                      end) named names,
     parsers ++ omap (λ name, match disabled !! name with
                              | Some true => None
                              | _ => GetParser factory name
                              end) names).
Proof.
  revert named parsers. induction names as [|name names IH]; intros named parsers.
  - cbn [foldl]. by rewrite app_nil_r.
  - cbn [foldl]. unfold Start_addParser at 2. cbn [fst snd].
    change (omap ?f (name :: names)) with
      (match f name with Some y => y :: omap f names | None => omap f names end).
    cbv beta.
    destruct (GetParser factory name) as [parser|] eqn:Hp.
    + rewrite IH. f_equal.
      destruct (disabled !! name) as [[]|]; [done| |]; by rewrite <- app_assoc.
    + rewrite IH. f_equal. by destruct (disabled !! name) as [[]|].
Qed.

Lemma Start_named_lookup factory names (named : gmap string ProtocolParser) key :
  foldl (λ m name, match GetParser factory name with
                   | Some parser => <[name := parser]> m
                   | None => m
                   end) named names !! key
  = match GetParser factory key with
    | Some parser => if bool_decide (key ∈ names) then Some parser else named !! key
    | None => named !! key
    end.
Proof.
  revert named. induction names as [|name names IH]; intros named.
  - cbn [foldl]. by destruct (GetParser factory key).
  - cbn [foldl]. rewrite IH.
    destruct (GetParser factory key) as [parser|] eqn:Hk.
    + destruct (decide (key ∈ names)) as [Hin|Hin].
      * rewrite !bool_decide_eq_true_2; [done | by right | done].
      * rewrite (bool_decide_eq_false_2 _ Hin).
        destruct (decide (key = name)) as [<-|Hne].
        -- rewrite bool_decide_eq_true_2 by left. rewrite Hk. apply lookup_insert_eq.
        -- rewrite bool_decide_eq_false_2 by (by intros [?|?]%elem_of_cons).
           destruct (GetParser factory name); [by rewrite lookup_insert_ne | done].
    + destruct (GetParser factory name) as [parser|] eqn:Hn; [|done].
      rewrite lookup_insert_ne; [done|]. intros ->. congruence.
Qed.

(** X16.  After [Start], the parser list used for discovery holds, in the
    configured order, the parsers of the configured names the factory knows,
    those whose last configuration entry sets DisableDiscern left out, and
    ends with the generic parser.  The protocol map used for static port
    mappings holds every configured name the factory knows, the ones with
    DisableDiscern included. *)
Theorem Start_parser_list env config conntrack formatter factory configs names :
  let na := Start env config conntrack formatter factory configs names in
  let disabled name :=
    bool_decide (DisableDiscern <$> last (entriesOf name configs) = Some true) in
  parsers na
  = omap (λ name, if disabled name then None else GetParser factory name) names
    ++ [GetGenericParser factory] ∧
  ∀ name, protocolMap na !! name
          = if bool_decide (name ∈ names) then GetParser factory name else None.
Proof.
  intros na disabled. subst na.
  unfold Start, NewNetworkAnalyzer. cbn [parsers protocolMap].
  unfold Start_parsers. rewrite Start_addParser_fold. cbn [fst snd app].
  split.
  - f_equal. apply list_omap_ext. apply Forall2_same_length_lookup_2; [done|].
    intros i name name' Hn Hn'. rewrite Hn in Hn'. injection Hn' as <-.
    unfold Start_disableDisernProtocols, disabled.
    rewrite (foldl_insert_last DisableDiscern).
    destruct (DisableDiscern <$> last (entriesOf name configs)) as [[]|];
      [by rewrite bool_decide_eq_true_2 | by rewrite bool_decide_eq_false_2..].
  - intros name. rewrite Start_named_lookup, lookup_empty.
    destruct (GetParser factory name); [done|]. by destruct (bool_decide _).
Qed.

(** ** Connect retries and connect timeouts *)

Lemma parseProtocols_connect_only na σ mps :
  requests mps = None → parseProtocols na σ mps = getConnectFailRecords na σ mps.
Proof.
  intros Hr. unfold parseProtocols. rewrite Hr.
  by destruct (staticPortMap na !! _).
Qed.

(** X17.  In a state the sequential program reaches, when a connect event
    arrives for a key whose stored state holds connects only: if the event
    is later than the connect timeout after them, the old state is flushed
    as exactly one ConnectFail record, whatever the protocol configuration,
    and a new state holding only the new connect is installed under the
    key; otherwise the event is merged into the stored state and nothing is
    emitted.  The handler does not fail in either case. *)
Theorem connect_retry_or_timeout na σ evt oldp oldPairs conns :
  reachable na σ →
  requestMonitor σ !! getMessagePairKey evt = Some oldp →
  heap σ !! oldp = Some oldPairs →
  requests oldPairs = None → connects oldPairs = Some conns →
  let p := fresh (dom (heap σ)) in
  let new := {| connects := Some (Events.newEvents evt (snaplen na));
                requests := None; responses := None; natTuple := None;
                sent_once := false; maxPayloadLength := snaplen na |} in
  if Events.IsTimeout conns evt (GetConnectTimeout (cfg na)) then
    ∃ σ' r,
      analyseConnect na σ evt = Some (σ', [(oldp, [r])]) ∧
      classification r = (true, constlabels.ConnectFail) ∧
      requestMonitor σ' = <[getMessagePairKey evt := p]> (requestMonitor σ) ∧
      heap σ' !! p = Some new ∧
      latched σ' oldp = true ∧
      (∀ q, q ≠ p → q ≠ oldp → heap σ' !! q = heap σ !! q)
  else
    ∃ σ',
      analyseConnect na σ evt = Some (σ', []) ∧
      requestMonitor σ' = requestMonitor σ ∧
      heap σ' !! oldp = Some (Pairs.mergeConnect oldPairs evt) ∧
      (∀ q, q ≠ p → q ≠ oldp → heap σ' !! q = heap σ !! q).
Proof.
  intros Hreach HK Hold Hr Hc p new.
  pose proof (reachable_wf _ _ Hreach) as Hwf.
  destruct (Hwf _ _ HK) as (old0 & Hold0 & Hs & Hkeyed).
  rewrite Hold in Hold0. injection Hold0 as <-.
  destruct Hkeyed as (Hkc & Hkr & [queryEvt Hke]).
  assert (oldp ≠ p) as Hne.
  { intros ->. apply (is_fresh (dom (heap σ))), elem_of_dom. by eexists. }
  unfold analyseConnect, alloc. fold p new.
  change (Pairs.getKey new) with (getMessagePairKey evt).
  cbn [requestMonitor set_heap heap]. rewrite HK.
  rewrite lookup_insert_ne by done. rewrite Hold. cbn [mbind option_bind].
  rewrite Hr, Hc.
  destruct (Events.IsTimeout conns evt (GetConnectTimeout (cfg na))).
  - unfold flush.
    erewrite (distributeTraceMetric_unsent na _ oldp (Some p) oldPairs queryEvt);
      [|by cbn [heap set_heap]; rewrite lookup_insert_ne by done|done|done].
    unfold flushing. cbn [heap set_heap requestMonitor set_requestMonitor].
    rewrite lookup_insert_ne by done. rewrite lookup_insert_eq. cbn [mbind option_bind].
    change (Pairs.getKey new) with (getMessagePairKey evt).
    pose proof (relateConntrack_fields na queryEvt (Pairs.checkSend oldPairs).2)
      as (Hc' & Hr' & Hp' & Hs').
    set (old' := relateConntrack na queryEvt (Pairs.checkSend oldPairs).2) in *.
    set (σ3 := set_heap <[oldp := old']>
                 (set_requestMonitor <[getMessagePairKey evt := p]>
                    (set_heap <[oldp := (Pairs.checkSend oldPairs).2]>
                       (set_heap <[p := new]> σ)))).
    rewrite parseProtocols_connect_only by (by rewrite Hr').
    destruct (connectFail_class na σ3 old' conns) as (r & Hrec & Hclass);
      [by rewrite Hc'|].
    rewrite Hrec. exists σ3, r. split; [done|]. split; [done|].
    split; [reflexivity|].
    split.
    { unfold σ3. cbn [heap set_heap set_requestMonitor requestMonitor].
      rewrite !lookup_insert_ne by done. apply lookup_insert_eq. }
    split.
    { unfold latched, σ3. cbn [heap set_heap set_requestMonitor requestMonitor].
      rewrite lookup_insert_eq. by rewrite Hs'. }
    intros q Hqp Hqo. unfold σ3.
    cbn [heap set_heap set_requestMonitor requestMonitor].
    by rewrite !lookup_insert_ne.
  - eexists. split; [reflexivity|]. split; [done|].
    split; [cbn [heap set_heap]; apply lookup_insert_eq|].
    intros q Hqp Hqo. cbn [heap set_heap]. by rewrite !lookup_insert_ne.
Qed.

Lemma connect_retry_or_timeout_witness :
  let na := Sample.analyzer ∅ ∅ [] in
  let c1 := Sample.evt 1 10 1 40000 8080 100 (Sample.bs []) in
  let c2 := Sample.evt 1 10 1 40000 8080 200 (Sample.bs []) in
  let σ := from_option fst initialState (run na initialState [Connect c1]) in
  ∃ σ', analyseConnect na σ c2 = Some (σ', []) ∧
        requestMonitor σ' = requestMonitor σ.
Proof.
  intros na c1 c2 σ.
  assert (reachable na σ) as Hreach.
  { exists [Connect c1], []. split; [done|]. vm_compute. reflexivity. }
  assert (requestMonitor σ !! getMessagePairKey c2 = Some 0%nat) as H1
    by (vm_compute; reflexivity).
  assert (heap σ !! 0%nat
          = Some (Sample.state (Some (Events.newEvents c1 1000)) None None)) as H2
    by (vm_compute; reflexivity).
  pose proof (connect_retry_or_timeout na σ c2 0%nat
                (Sample.state (Some (Events.newEvents c1 1000)) None None)
                (Events.newEvents c1 1000) Hreach H1 H2 eq_refl eq_refl) as H.
  cbv zeta in H.
  assert (Events.IsTimeout (Events.newEvents c1 1000) c2 (GetConnectTimeout (cfg na))
          = false) as Hcond by (vm_compute; reflexivity).
  rewrite Hcond in H.
  destruct H as (σ' & Ha & Hm & _). by exists σ'.
Defined.

(** ** Which labels the parsed attributes can set *)

Ltac after_merge_keys Hk :=
  rewrite !not_elem_of_cons in Hk;
  destruct Hk as (? & ? & ? & ? & ? & ? & ? & _).

(** X18.  In a record built for a state with requests, the payload labels,
    the end timestamp of a state with responses, and the DNAT labels of a
    state with a conntrack result are the builder's own, whatever the parser
    put in its attributes: the request payload is the captured request data,
    the response payload that of the responses or empty without them.  Every
    other attribute the parser set, apart from the error classification,
    reaches the record unchanged, overriding the label the builder had set
    from the event. *)
Theorem labels_set_after_merge na σ mps reqs protocolName attributes :
  requests mps = Some reqs → hasHttpContinue attributes = false →
  let cap := maxPayloadLength mps in
  ∃ r, getRecords na σ mps protocolName attributes = Records (σ, [r]) ∧
    Labels r !! constlabels.RequestPayload
      = Some (StrV (GetPayloadString na (Events.getData reqs cap) protocolName)) ∧
    Labels r !! constlabels.ResponsePayload
      = Some (StrV (match responses mps with
                    | Some resps =>
                        GetPayloadString na (Events.getData resps cap) protocolName
                    | None => ""
                    end)) ∧
    (∀ resps, responses mps = Some resps →
       Labels r !! constlabels.EndTimestamp
       = Some (IntV (GoLib.to_int64 (Events.getLastTimestamp resps)))) ∧
    (∀ t, natTuple mps = Some t →
       Labels r !! constlabels.DnatIp = Some (StrV (ReplSrcIP t)) ∧
       Labels r !! constlabels.DnatPort = Some (IntV (ReplSrcPort t))) ∧
    (∀ k v, default ∅ attributes !! k = Some v →
       k ∉ [constlabels.EndTimestamp; constlabels.RequestPayload;
            constlabels.ResponsePayload; constlabels.IsError;
            constlabels.ErrorType; constlabels.DnatIp; constlabels.DnatPort] →
       Labels r !! k = Some v).
Proof.
  intros Hr Hc cap. unfold getRecords. rewrite Hr, Hc.
  eexists. split; [reflexivity|]. cbn [Labels]. fold cap.
  pose proof (lookup_merge attributes) as Hm.
  set (a := default ∅ attributes) in *.
  unfold_labels. unfold Attr.GetBoolValue.
  set (base := Attr.Merge attributes _) in *.
  destruct (natTuple mps) as [t|], (responses mps) as [resps|];
    cbn [fmap option_fmap option_map bool_decide decide_rel is_Some_dec negb andb];
    rewrite ?andb_false_r.
  all: repeat match goal with
       | |- context [if ?b then _ else _] => destruct b
       end.
  all: split; [by repeat (rewrite ?lookup_insert_eq; rewrite ?lookup_insert_ne by done)|].
  all: split; [by repeat (rewrite ?lookup_insert_eq; rewrite ?lookup_insert_ne by done)|].
  all: split; [intros ? [= <-] || (intros ? [=]);
               by repeat (rewrite ?lookup_insert_eq; rewrite ?lookup_insert_ne by done)|].
  all: split; [intros ? [= <-] || (intros ? [=]);
               by repeat (rewrite ?lookup_insert_eq; rewrite ?lookup_insert_ne by done)|].
  all: intros k v Hv Hk; after_merge_keys Hk; unfold_labels;
    rewrite ?lookup_insert_ne by congruence; unfold base;
    (etrans; [apply Hm|]); by rewrite Hv.
Qed.

Lemma labels_set_after_merge_witness :
  let na := Sample.analyzer ∅ ∅ [] in
  ∃ r, getRecords na initialState Sample.plainRequest "http"
         (Some {[ "request_payload" := StrV "forged" ]})
       = Records (initialState, [r]) ∧
       Labels r !! constlabels.RequestPayload = Some (StrV "").
Proof.
  intros na.
  destruct (labels_set_after_merge na initialState Sample.plainRequest
              (Events.newEvents
                 (Sample.evt 1 10 1 40000 8080 100 (Sample.bs [1; 2; 3]%N)) 1000)
              "http" (Some {[ "request_payload" := StrV "forged" ]}))
    as (r & H1 & H2 & _); [reflexivity | by vm_compute |].
  by exists r.
Defined.
